(** * PropScraper: the extraction pipeline, the summarizer and the archive
    builder of [shueny/scraping-image], embedded in Rocq.

    The embedding follows the TypeScript sources:
    - [utils/scraper.ts]: [isValidUrl], [cleanImages], [scrapeViaProxies],
      [extractTextFromHtml], [scrapeUrl];
    - [services/gemini.ts]: [summarizePropertyListing];
    - [App.tsx]: [handleScrape], [handleDownloadImages].

    A JavaScript string is a sequence of UTF-16 code units.  The model keeps
    the code units below 256 (the Latin-1 range), one [ascii] each, so the
    [length] of a string is its number of code units, as in the source. *)

From Stdlib Require Import Ascii String List NArith ZArith Lia Bool.
From stdpp Require Import base option list strings gmap pretty.

Local Open Scope char_scope.
Local Open Scope stdpp_scope.

(* ===================================================================== *)
(** * JavaScript strings *)
(* ===================================================================== *)

Module Js.

(** The code unit of a character. *)
Definition code (c : ascii) : N := N_of_ascii c.

Definition in_range (lo hi : N) (c : ascii) : bool :=
  (lo <=? code c)%N && (code c <=? hi)%N.

Definition is_upper (c : ascii) : bool := in_range 65 90 c.
Definition is_lower (c : ascii) : bool := in_range 97 122 c.
Definition is_alpha (c : ascii) : bool := is_upper c || is_lower c.
Definition is_digit (c : ascii) : bool := in_range 48 57 c.
Definition is_alnum (c : ascii) : bool := is_alpha c || is_digit c.
Definition is_hex (c : ascii) : bool :=
  is_digit c || in_range 65 70 c || in_range 97 102 c.

Definition to_lower (c : ascii) : ascii :=
  if is_upper c then ascii_of_N (code c + 32) else c.
Definition to_upper (c : ascii) : ascii :=
  if is_lower c then ascii_of_N (code c - 32) else c.

(** The double quote, written by its code. *)
Definition dquote : ascii := ascii_of_N 34.

(** [WhiteSpace] and [LineTerminator] code units below 256: what [\s] and
    [String.prototype.trim] recognise (TAB, LF, VT, FF, CR, SPACE, NBSP). *)
Definition is_space (c : ascii) : bool :=
  in_range 9 13 c || (code c =? 32)%N || (code c =? 160)%N.

(** [LineTerminator]: what [.] does not match. *)
Definition is_line_terminator (c : ascii) : bool :=
  (code c =? 10)%N || (code c =? 13)%N.

Fixpoint map (f : ascii -> ascii) (s : string) : string :=
  match s with
  | EmptyString => EmptyString
  | String c s' => String (f c) (map f s')
  end.

Fixpoint forallb (p : ascii -> bool) (s : string) : bool :=
  match s with
  | EmptyString => true
  | String c s' => p c && forallb p s'
  end.

Fixpoint existsb (p : ascii -> bool) (s : string) : bool :=
  match s with
  | EmptyString => false
  | String c s' => p c || existsb p s'
  end.

(** ASCII lowercasing: the letters [A]-[Z] only. *)
Definition ascii_lowercase (s : string) : string := map to_lower s.

(** [s.startsWith(p)]. *)
Fixpoint startsWith (s p : string) : bool :=
  match p, s with
  | EmptyString, _ => true
  | String a p', String b s' => Ascii.eqb a b && startsWith s' p'
  | String _ _, EmptyString => false
  end.

(** [s.includes(t)]: [t] occurs in [s] as a contiguous run of code units. *)
Fixpoint includes (s t : string) : bool :=
  startsWith s t ||
  match s with
  | EmptyString => false
  | String _ s' => includes s' t
  end.

(** [s.substring(0, n)] for [0 <= n]. *)
Fixpoint take (n : nat) (s : string) : string :=
  match n, s with
  | S n', String c s' => String c (take n' s')
  | _, _ => EmptyString
  end.

Fixpoint drop (n : nat) (s : string) : string :=
  match n, s with
  | S n', String _ s' => drop n' s'
  | _, _ => s
  end.

Definition substring (from to : nat) (s : string) : string :=
  take (to - from) (drop from s).

Fixpoint dropWhile (p : ascii -> bool) (s : string) : string :=
  match s with
  | String c s' => if p c then dropWhile p s' else s
  | EmptyString => EmptyString
  end.

(** Removes the longest suffix all of whose code units satisfy [p]. *)
Fixpoint dropWhileEnd (p : ascii -> bool) (s : string) : string :=
  match s with
  | EmptyString => EmptyString
  | String c s' =>
      match dropWhileEnd p s' with
      | EmptyString => if p c then EmptyString else String c EmptyString
      | t => String c t
      end
  end.

(** [s.trim()]. *)
Definition trim (s : string) : string :=
  dropWhileEnd is_space (dropWhile is_space s).

(** A JavaScript value used as a condition: the empty string is falsy. *)
Definition truthy (s : string) : bool :=
  match s with EmptyString => false | _ => true end.

(** [a || b] on strings. *)
Definition or_else (a b : string) : string := if truthy a then a else b.

(** [a || b] where [a] may be [undefined]. *)
Definition opt_or_else (a : option string) (b : string) : string :=
  match a with Some s => or_else s b | None => b end.

End Js.

(* ===================================================================== *)
(** * Regular expressions *)
(* ===================================================================== *)

(** The backtracking matcher of ECMAScript, for the constructs the sources
    use: character classes, sequence, alternation, greedy [?], greedy and
    lazy repetition of a class, one capture group, [^] and [$]. *)
Module Regex.

Inductive re : Type :=
| Eps
| Cls (p : ascii -> bool)
| Seq (r1 r2 : re)
| Alt (r1 r2 : re)
| Opt (r : re)
| Star (p : ascii -> bool)
| StarLazy (p : ascii -> bool)
| Group (r : re)
| Bol
| Eol.

(** [r+] for a class. *)
Definition Plus (p : ascii -> bool) : re := Seq (Cls p) (Star p).

Definition chr (c : ascii) : re := Cls (Ascii.eqb c).

(** A literal, matched code unit by code unit. *)
Fixpoint lit (s : string) : re :=
  match s with
  | EmptyString => Eps
  | String c EmptyString => chr c
  | String c s' => Seq (chr c) (lit s')
  end.

(** With the [i] flag two code units match when their canonical (upper
    case) forms agree. *)
Definition chr_i (c : ascii) : re :=
  Cls (fun x => Ascii.eqb (Js.to_upper x) (Js.to_upper c)).

Fixpoint lit_i (s : string) : re :=
  match s with
  | EmptyString => Eps
  | String c EmptyString => chr_i c
  | String c s' => Seq (chr_i c) (lit_i s')
  end.

(** One of the code units of [set]. *)
Definition one_of (set : string) (c : ascii) : bool :=
  Js.existsb (Ascii.eqb c) set.

(** A match: where it ends, and the bounds of the capture group. *)
Definition capture : Type := option (nat * nat).
Definition result : Type := nat * capture.
Definition kont : Type := nat -> string -> capture -> option result.

Fixpoint star_greedy (p : ascii -> bool) (i : nat) (s : string)
    (cap : capture) (k : kont) : option result :=
  match s with
  | String c s' =>
      if p c then
        match star_greedy p (S i) s' cap k with
        | Some r => Some r
        | None => k i s cap
        end
      else k i s cap
  | EmptyString => k i s cap
  end.

Fixpoint star_lazy (p : ascii -> bool) (i : nat) (s : string)
    (cap : capture) (k : kont) : option result :=
  match k i s cap with
  | Some r => Some r
  | None =>
      match s with
      | String c s' => if p c then star_lazy p (S i) s' cap k else None
      | EmptyString => None
      end
  end.

(** [run r i s cap k]: match [r] at index [i], where [s] is the input from
    [i] on, and continue with [k]; alternatives are tried in order. *)
Fixpoint run (r : re) (i : nat) (s : string) (cap : capture) (k : kont)
    {struct r} : option result :=
  match r with
  | Eps => k i s cap
  | Cls p =>
      match s with
      | String c s' => if p c then k (S i) s' cap else None
      | EmptyString => None
      end
  | Seq r1 r2 => run r1 i s cap (fun j t c => run r2 j t c k)
  | Alt r1 r2 =>
      match run r1 i s cap k with
      | Some x => Some x
      | None => run r2 i s cap k
      end
  | Opt r1 =>
      match run r1 i s cap k with
      | Some x => Some x
      | None => k i s cap
      end
  | Star p => star_greedy p i s cap k
  | StarLazy p => star_lazy p i s cap k
  | Group r1 => run r1 i s cap (fun j t _ => k j t (Some (i, j)))
  | Bol => if (i =? 0)%nat then k i s cap else None
  | Eol => match s with EmptyString => k i s cap | _ => None end
  end.

Definition match_at (r : re) (i : nat) (s : string) : option result :=
  run r i s None (fun j _ c => Some (j, c)).

(** The text of the capture group of a match found at index [i], where [s]
    is the input from [i] on; a group that took no part is [undefined]. *)
Definition group_text (i : nat) (s : string) (c : capture) : option string :=
  match c with
  | Some (a, b) => Some (Js.substring (a - i) (b - i) s)
  | None => None
  end.

(** [s.match(r)] without the [g] flag: the leftmost match, its group. *)
Fixpoint search (r : re) (i : nat) (s : string) : option (option string) :=
  match match_at r i s with
  | Some (_, c) => Some (group_text i s c)
  | None =>
      match s with
      | String _ s' => search r (S i) s'
      | EmptyString => None
      end
  end.

Definition test (r : re) (s : string) : bool :=
  match search r 0 s with Some _ => true | None => false end.

(** The loop [while ((m = r.exec(s)) !== null) ...] of a [g] regex: the
    groups of the successive matches, each search resuming where the last
    match ended ([skip] counts the code units still inside it). *)
Fixpoint exec_all (r : re) (i : nat) (s : string) (skip : nat)
    : list (option string) :=
  match s with
  | EmptyString =>
      match skip, match_at r i s with
      | O, Some (_, c) => [group_text i s c]
      | _, _ => []
      end
  | String _ s' =>
      match skip with
      | S n => exec_all r (S i) s' n
      | O =>
          match match_at r i s with
          | Some (j, c) => group_text i s c :: exec_all r (S i) s' (j - i - 1)
          | None => exec_all r (S i) s' 0
          end
      end
  end.

(** [s.replace(r, by)] for a [g] regex. *)
Fixpoint replace_all (r : re) (by_ : string) (i : nat) (s : string)
    (skip : nat) : string :=
  match s with
  | EmptyString =>
      match skip, match_at r i s with
      | O, Some _ => by_
      | _, _ => EmptyString
      end
  | String c s' =>
      match skip with
      | S n => replace_all r by_ (S i) s' n
      | O =>
          match match_at r i s with
          | Some (j, _) =>
              if (j =? i)%nat
              then by_ +:+ String c (replace_all r by_ (S i) s' 0)
              else by_ +:+ replace_all r by_ (S i) s' (j - i - 1)
          | None => String c (replace_all r by_ (S i) s' 0)
          end
      end
  end.

Definition replace (r : re) (by_ : string) (s : string) : string :=
  replace_all r by_ 0 s 0.

End Regex.

(* ===================================================================== *)
(** * The URL parser of the platform *)
(* ===================================================================== *)

(** [new URL(input, base)] and [.href] are the browser's, specified by the
    WHATWG URL Standard.  The module follows the basic URL parser state by
    state (no state override: the constructor never gives one), with the
    host parser and the URL serializer.

    One step needs Unicode tables that are platform data: [domain to ASCII]
    for a domain that is not plain ASCII or carries an [xn--] label.  It is
    the parameter [unicodeToASCII], applied to the percent-decoded bytes;
    for every other domain the step is ASCII lowercasing, as the Standard
    notes. *)
Module Whatwg.

Import Js.

Inductive Host : Type :=
| Domain (d : string)
| Ipv4 (a : N)
| Ipv6 (pieces : list N)
| OpaqueHost (h : string)
| EmptyHost.

Inductive Path : Type :=
| OpaquePath (p : string)
| ListPath (segments : list string).

Record URL : Type := mkURL {
  scheme : string;
  username : string;
  password : string;
  host : option Host;
  port : option N;
  path : Path;
  query : option string;
  fragment : option string
}.

Definition blank : URL :=
  mkURL "" "" "" None None (ListPath []) None None.

Definition set_scheme (u : URL) (x : string) : URL :=
  mkURL x (username u) (password u) (host u) (port u) (path u) (query u) (fragment u).
Definition set_username (u : URL) (x : string) : URL :=
  mkURL (scheme u) x (password u) (host u) (port u) (path u) (query u) (fragment u).
Definition set_password (u : URL) (x : string) : URL :=
  mkURL (scheme u) (username u) x (host u) (port u) (path u) (query u) (fragment u).
Definition set_host (u : URL) (x : option Host) : URL :=
  mkURL (scheme u) (username u) (password u) x (port u) (path u) (query u) (fragment u).
Definition set_port (u : URL) (x : option N) : URL :=
  mkURL (scheme u) (username u) (password u) (host u) x (path u) (query u) (fragment u).
Definition set_path (u : URL) (x : Path) : URL :=
  mkURL (scheme u) (username u) (password u) (host u) (port u) x (query u) (fragment u).
Definition set_query (u : URL) (x : option string) : URL :=
  mkURL (scheme u) (username u) (password u) (host u) (port u) (path u) x (fragment u).
Definition set_fragment (u : URL) (x : option string) : URL :=
  mkURL (scheme u) (username u) (password u) (host u) (port u) (path u) (query u) x.

(** ** Special schemes *)

Definition default_port (s : string) : option (option N) :=
  if String.eqb s "ftp" then Some (Some 21%N)
  else if String.eqb s "file" then Some None
  else if String.eqb s "http" then Some (Some 80%N)
  else if String.eqb s "https" then Some (Some 443%N)
  else if String.eqb s "ws" then Some (Some 80%N)
  else if String.eqb s "wss" then Some (Some 443%N)
  else None.

Definition is_special_scheme (s : string) : bool :=
  match default_port s with Some _ => true | None => false end.

Definition is_special (u : URL) : bool := is_special_scheme (scheme u).

Definition has_opaque_path (u : URL) : bool :=
  match path u with OpaquePath _ => true | ListPath _ => false end.

Definition segments_of (u : URL) : list string :=
  match path u with OpaquePath _ => [] | ListPath l => l end.

(** ** Percent-encoding *)

Definition hex_digit (n : N) : ascii :=
  if (n <? 10)%N then ascii_of_N (48 + n) else ascii_of_N (55 + n).

Definition percent_byte (b : N) : string :=
  String "%" (String (hex_digit (b / 16)) (String (hex_digit (b mod 16)) EmptyString)).

(** The UTF-8 bytes of a code point below 256. *)
Definition utf8_bytes (c : ascii) : list N :=
  if (code c <? 128)%N then [code c]
  else [(192 + code c / 64)%N; (128 + code c mod 64)%N].

Definition utf8_percent_encode (set : ascii -> bool) (c : ascii) : string :=
  if set c then String.concat "" (List.map percent_byte (utf8_bytes c))
  else String c EmptyString.

Fixpoint percent_encode_string (set : ascii -> bool) (s : string) : string :=
  match s with
  | EmptyString => EmptyString
  | String c s' => utf8_percent_encode set c +:+ percent_encode_string set s'
  end.

Definition c0_control_set (c : ascii) : bool :=
  (code c <=? 31)%N || (126 <? code c)%N.
Definition fragment_set (c : ascii) : bool :=
  c0_control_set c || Regex.one_of (String dquote " <>`") c.
Definition query_set (c : ascii) : bool :=
  c0_control_set c || Regex.one_of (String dquote " #<>") c.
Definition special_query_set (c : ascii) : bool :=
  query_set c || Ascii.eqb c "'".
Definition path_set (c : ascii) : bool :=
  query_set c || Regex.one_of "?^`{}" c.
Definition userinfo_set (c : ascii) : bool :=
  path_set c || Regex.one_of "/:;=@[\]|" c.

(** ** Percent-decoding *)

Definition hex_value (c : ascii) : N :=
  if is_digit c then (code c - 48)%N
  else if in_range 65 70 c then (code c - 55)%N
  else (code c - 87)%N.

Fixpoint utf8_encode (s : string) : string :=
  match s with
  | EmptyString => EmptyString
  | String c s' =>
      String.string_of_list_ascii (List.map ascii_of_N (utf8_bytes c)) +:+ utf8_encode s'
  end.

Fixpoint percent_decode (s : string) : string :=
  match s with
  | EmptyString => EmptyString
  | String c s' =>
      if Ascii.eqb c "%" then
        match s' with
        | String a (String b rest) =>
            if is_hex a && is_hex b
            then String (ascii_of_N (16 * hex_value a + hex_value b)) (percent_decode rest)
            else String c (percent_decode s')
        | _ => String c (percent_decode s')
        end
      else String c (percent_decode s')
  end.

(** ** Small string tools *)

(** Strictly split on a code unit. *)
Fixpoint split_on (d : ascii) (s : string) : list string :=
  match s with
  | EmptyString => [EmptyString]
  | String c s' =>
      if Ascii.eqb c d then EmptyString :: split_on d s'
      else match split_on d s' with
           | x :: r => String c x :: r
           | [] => [String c EmptyString]
           end
  end.

(** The value of a string of radix-[r] digits. *)
Fixpoint digits_value (r : N) (acc : N) (s : string) : N :=
  match s with
  | EmptyString => acc
  | String c s' => digits_value r (acc * r + hex_value c)%N s'
  end.

Definition is_radix_digit (r : N) (c : ascii) : bool :=
  if (r =? 16)%N then is_hex c
  else if (r =? 8)%N then in_range 48 55 c
  else is_digit c.

Fixpoint decimal_go (fuel : nat) (n : N) (acc : string) : string :=
  match fuel with
  | O => acc
  | S f =>
      let acc' := String (ascii_of_N (48 + n mod 10)) acc in
      if (n <? 10)%N then acc' else decimal_go f (n / 10)%N acc'
  end.

(** The shortest decimal numeral of [n]. *)
Definition decimal (n : N) : string := decimal_go (S (N.to_nat (N.log2 n))) n EmptyString.

Fixpoint hex_go (fuel : nat) (n : N) (acc : string) : string :=
  match fuel with
  | O => acc
  | S f =>
      let acc' := String (to_lower (hex_digit (n mod 16))) acc in
      if (n <? 16)%N then acc' else hex_go f (n / 16)%N acc'
  end.

(** The shortest lower-case hexadecimal numeral of [n]. *)
Definition lower_hex (n : N) : string := hex_go (S (N.to_nat (N.log2 n))) n EmptyString.

(** ** Hosts *)

Section HostParser.

Variable unicodeToASCII : string -> option string.

Definition is_ascii_string (s : string) : bool :=
  forallb (fun c => (code c <? 128)%N) s.

Definition has_xn_label (s : string) : bool :=
  List.existsb (fun l => startsWith (ascii_lowercase l) "xn--") (split_on "." s).

(** [domain to ASCII], with [beStrict] false. *)
Definition domain_to_ascii (domain : string) : option string :=
  if is_ascii_string domain && negb (has_xn_label domain)
  then Some (ascii_lowercase domain)
  else match unicodeToASCII domain with
       | Some r => if truthy r then Some r else None
       | None => None
       end.

(** The forbidden host code points of the Standard.  Browsers differ on
    some of them: a space inside a host is a failure here, as the Standard
    has it, while some engines percent-encode it and go on. *)
Definition forbidden_host_code_point (c : ascii) : bool :=
  (code c =? 0)%N || (code c =? 9)%N || (code c =? 10)%N || (code c =? 13)%N
  || Regex.one_of " #/:<>?@[\]^|" c.

Definition forbidden_domain_code_point (c : ascii) : bool :=
  forbidden_host_code_point c || (code c <=? 31)%N || Ascii.eqb c "%"
  || (code c =? 127)%N.

(** The IPv4 number parser. *)
Definition parse_ipv4_number (input : string) : option N :=
  match input with
  | EmptyString => None
  | _ =>
      let '(digits, r) :=
        if startsWith input "0x" || startsWith input "0X" then (drop 2 input, 16%N)
        else if (2 <=? String.length input)%nat && startsWith input "0"
             then (drop 1 input, 8%N)
        else (input, 10%N) in
      match digits with
      | EmptyString => Some 0%N
      | _ => if forallb (is_radix_digit r) digits
             then Some (digits_value r 0 digits) else None
      end
  end.

(** Drops a last empty item, unless it is the only one. *)
Definition drop_last_if_empty (parts : list string) : list string :=
  match List.last parts "x" with
  | EmptyString => if (length parts <=? 1)%nat then parts else List.removelast parts
  | _ => parts
  end.

(** The ends-in-a-number checker. *)
Definition ends_in_a_number (input : string) : bool :=
  let parts := split_on "." input in
  match List.last parts "x" with
  | EmptyString =>
      if (length parts =? 1)%nat then false
      else
        let last := List.last (List.removelast parts) EmptyString in
        (truthy last && forallb is_digit last)
        || match parse_ipv4_number last with Some _ => true | None => false end
  | last =>
      forallb is_digit last
      || match parse_ipv4_number last with Some _ => true | None => false end
  end.

Fixpoint parse_all_ipv4_numbers (parts : list string) : option (list N) :=
  match parts with
  | [] => Some []
  | p :: r =>
      match parse_ipv4_number p, parse_all_ipv4_numbers r with
      | Some n, Some ns => Some (n :: ns)
      | _, _ => None
      end
  end.

Fixpoint ipv4_sum (counter : nat) (numbers : list N) : N :=
  match numbers with
  | [] => 0%N
  | n :: r => (n * 256 ^ N.of_nat (3 - counter) + ipv4_sum (S counter) r)%N
  end.

(** The IPv4 parser. *)
Definition parse_ipv4 (input : string) : option N :=
  let parts := drop_last_if_empty (split_on "." input) in
  if (4 <? length parts)%nat then None
  else
    match parse_all_ipv4_numbers parts with
    | None => None
    | Some numbers =>
        let front := List.removelast numbers in
        let last := List.last numbers 0%N in
        if List.existsb (fun n => (255 <? n)%N) front then None
        else if (256 ^ N.of_nat (5 - length numbers) <=? last)%N then None
        else Some (last + ipv4_sum 0 front)%N
    end.

(** *** IPv6 *)

(** Up to four hexadecimal digits: their value, how many, and what follows. *)
Fixpoint read_hex (n : nat) (value : N) (len : nat) (s : string) : N * nat * string :=
  match n, s with
  | S n', String c s' =>
      if is_hex c then read_hex n' (value * 16 + hex_value c)%N (S len) s'
      else (value, len, s)
  | _, _ => (value, len, s)
  end.

(** The digits of one part of an embedded IPv4 address. *)
Fixpoint read_ipv4_piece (piece : option N) (s : string) : option (option N * string) :=
  match s with
  | String c s' =>
      if is_digit c then
        let number := (code c - 48)%N in
        match piece with
        | None => read_ipv4_piece (Some number) s'
        | Some 0%N => None
        | Some p =>
            if (255 <? p * 10 + number)%N then None
            else read_ipv4_piece (Some (p * 10 + number)%N) s'
        end
      else Some (piece, s)
  | EmptyString => Some (piece, s)
  end.

Definition update_piece (address : list N) (i : nat) (f : N -> N) : list N :=
  match address !! i with
  | Some v => <[i := f v]> address
  | None => address
  end.

(** The loop over an embedded IPv4 address; every turn reads a digit. *)
Fixpoint ipv6_embedded_ipv4 (fuel : nat) (address : list N) (pieceIndex numbersSeen : nat)
    (s : string) : option (list N * nat) :=
  match s with
  | EmptyString => if (numbersSeen =? 4)%nat then Some (address, pieceIndex) else None
  | String c s' =>
      match fuel with
      | O => None
      | S fuel' =>
          let after_dot :=
            if (0 <? numbersSeen)%nat then
              if Ascii.eqb c "." && (numbersSeen <? 4)%nat then Some s' else None
            else Some s in
          match after_dot with
          | None => None
          | Some t =>
              match t with
              | String d _ =>
                  if is_digit d then
                    match read_ipv4_piece None t with
                    | Some (Some v, rest) =>
                        let address' :=
                          update_piece address pieceIndex (fun a => (a * 256 + v)%N) in
                        let seen := S numbersSeen in
                        let pieceIndex' :=
                          if (seen =? 2)%nat || (seen =? 4)%nat then S pieceIndex else pieceIndex in
                        ipv6_embedded_ipv4 fuel' address' pieceIndex' seen rest
                    | _ => None
                    end
                  else None
              | EmptyString => None
              end
          end
      end
  end.

(** The main loop of the IPv6 parser; every turn reads a code unit. *)
Fixpoint ipv6_loop (fuel : nat) (address : list N) (pieceIndex : nat)
    (compress : option nat) (s : string) : option (list N * nat * option nat) :=
  match s with
  | EmptyString => Some (address, pieceIndex, compress)
  | String c s' =>
      match fuel with
      | O => None
      | S fuel' =>
          if (pieceIndex =? 8)%nat then None
          else if Ascii.eqb c ":" then
            match compress with
            | Some _ => None
            | None => ipv6_loop fuel' address (S pieceIndex) (Some (S pieceIndex)) s'
            end
          else
            let '(value, len, rest) := read_hex 4 0 0 s in
            match rest with
            | String "." _ =>
                if (len =? 0)%nat then None
                else if (6 <? pieceIndex)%nat then None
                else
                  match ipv6_embedded_ipv4 fuel' address pieceIndex 0 s with
                  | Some (address', pieceIndex') => Some (address', pieceIndex', compress)
                  | None => None
                  end
            | String ":" EmptyString => None
            | String ":" rest' =>
                ipv6_loop fuel' (<[pieceIndex := value]> address) (S pieceIndex) compress rest'
            | EmptyString =>
                Some (<[pieceIndex := value]> address, S pieceIndex, compress)
            | String _ _ => None
            end
      end
  end.

Definition swap_pieces (address : list N) (i j : nat) : list N :=
  match address !! i, address !! j with
  | Some a, Some b => <[j := a]> (<[i := b]> address)
  | _, _ => address
  end.

Fixpoint ipv6_swaps (swaps pieceIndex compress : nat) (address : list N) : list N :=
  match swaps, pieceIndex with
  | S swaps', S pieceIndex' =>
      ipv6_swaps swaps' pieceIndex' compress
        (swap_pieces address pieceIndex (compress + swaps - 1))
  | _, _ => address
  end.

(** The IPv6 parser. *)
Definition parse_ipv6 (input : string) : option (list N) :=
  let zero := List.repeat 0%N 8 in
  let fuel := S (String.length input) in
  let start :=
    match input with
    | String ":" (String ":" rest) => Some (rest, 1%nat, Some 1%nat)
    | String ":" _ => None
    | _ => Some (input, 0%nat, None)
    end in
  match start with
  | None => None
  | Some (rest, pieceIndex, compress) =>
      match ipv6_loop fuel zero pieceIndex compress rest with
      | None => None
      | Some (address, pieceIndex', compress') =>
          match compress' with
          | Some k => Some (ipv6_swaps (pieceIndex' - k) 7 k address)
          | None => if (pieceIndex' =? 8)%nat then Some address else None
          end
      end
  end.

(** The opaque-host parser. *)
Definition parse_opaque_host (input : string) : option Host :=
  if existsb forbidden_host_code_point input then None
  else Some (OpaqueHost (percent_encode_string c0_control_set input)).

(** The host parser. *)
Definition parse_host (input : string) (isOpaque : bool) : option Host :=
  if startsWith input "[" then
    let inner := drop 1 input in
    let n := String.length inner in
    if (1 <=? n)%nat && startsWith (drop (n - 1) inner) "]" then
      match parse_ipv6 (take (n - 1) inner) with
      | Some a => Some (Ipv6 a)
      | None => None
      end
    else None
  else if isOpaque then parse_opaque_host input
  else
    let domain := percent_decode (utf8_encode input) in
    match domain_to_ascii domain with
    | None => None
    | Some asciiDomain =>
        if existsb forbidden_domain_code_point asciiDomain then None
        else if ends_in_a_number asciiDomain then
          match parse_ipv4 asciiDomain with
          | Some a => Some (Ipv4 a)
          | None => None
          end
        else Some (Domain asciiDomain)
    end.

End HostParser.

(** *** Serializing hosts *)

Definition serialize_ipv4 (a : N) : string :=
  decimal (a / 16777216 mod 256) +:+ "." +:+ decimal (a / 65536 mod 256) +:+ "."
  +:+ decimal (a / 256 mod 256) +:+ "." +:+ decimal (a mod 256).

(** The length of the run of zero pieces at the head of [l]. *)
Fixpoint zero_run (l : list N) : nat :=
  match l with
  | 0%N :: r => S (zero_run r)
  | _ => O
  end.

(** The index of the first longest run of two or more zero pieces. *)
Fixpoint find_compress (l : list N) (i : nat) (best : option (nat * nat)) : option nat :=
  match l with
  | [] => match best with Some (k, _) => Some k | None => None end
  | _ :: r =>
      let n := zero_run l in
      let best' :=
        if (2 <=? n)%nat then
          match best with
          | Some (_, m) => if (m <? n)%nat then Some (i, n) else best
          | None => Some (i, n)
          end
        else best in
      find_compress r (S i) best'
  end.

Fixpoint serialize_ipv6_go (l : list N) (i : nat) (compress : option nat) (ignore0 : bool)
    : string :=
  match l with
  | [] => EmptyString
  | p :: r =>
      if ignore0 && (p =? 0)%N then serialize_ipv6_go r (S i) compress true
      else if match compress with Some k => (k =? i)%nat | None => false end then
        (if (i =? 0)%nat then "::" else ":") +:+ serialize_ipv6_go r (S i) compress true
      else
        lower_hex p +:+ (if (i =? 7)%nat then "" else ":")
        +:+ serialize_ipv6_go r (S i) compress false
  end.

Definition serialize_ipv6 (a : list N) : string :=
  serialize_ipv6_go a 0 (find_compress a 0 None) false.

Definition serialize_host (h : Host) : string :=
  match h with
  | Domain d => d
  | Ipv4 a => serialize_ipv4 a
  | Ipv6 a => "[" +:+ serialize_ipv6 a +:+ "]"
  | OpaqueHost o => o
  | EmptyHost => EmptyString
  end.

(** ** The basic URL parser *)

Definition is_single_dot (b : string) : bool :=
  let l := ascii_lowercase b in String.eqb l "." || String.eqb l "%2e".

Definition is_double_dot (b : string) : bool :=
  let l := ascii_lowercase b in
  String.eqb l ".." || String.eqb l ".%2e" || String.eqb l "%2e." || String.eqb l "%2e%2e".

Definition is_windows_drive_letter (b : string) : bool :=
  match b with
  | String a (String c EmptyString) => is_alpha a && (Ascii.eqb c ":" || Ascii.eqb c "|")
  | _ => false
  end.

Definition is_normalized_windows_drive_letter (b : string) : bool :=
  match b with
  | String a (String ":" EmptyString) => is_alpha a
  | _ => false
  end.

Definition starts_with_windows_drive_letter (s : string) : bool :=
  match s with
  | String a (String c rest) =>
      is_windows_drive_letter (String a (String c EmptyString))
      && match rest with
         | EmptyString => true
         | String d _ => Regex.one_of "/\?#" d
         end
  | _ => false
  end.

(** Shorten a URL's path. *)
Definition shorten_path (u : URL) : URL :=
  match path u with
  | OpaquePath _ => u
  | ListPath l =>
      match l with
      | [d] =>
          if String.eqb (scheme u) "file" && is_normalized_windows_drive_letter d then u
          else set_path u (ListPath [])
      | _ => set_path u (ListPath (List.removelast l))
      end
  end.

Definition append_segment (u : URL) (seg : string) : URL :=
  set_path u (ListPath (segments_of u ++ [seg])).

Definition append_opaque (u : URL) (t : string) : URL :=
  match path u with
  | OpaquePath p => set_path u (OpaquePath (p +:+ t))
  | ListPath _ => u
  end.

(** *** fragment state *)
Definition fragment_state (u : URL) (rest : string) : URL :=
  set_fragment u (Some (percent_encode_string fragment_set rest)).

(** What the query state does with the buffer on [#] and at the end. *)
Definition flush_query (u : URL) (buffer : string) : URL :=
  let set := if is_special u then special_query_set else query_set in
  set_query u (Some (default EmptyString (query u) +:+ percent_encode_string set buffer)).

(** *** query state: the buffer runs to the first [#] or to the end. *)
Fixpoint query_state (u : URL) (buffer : string) (rest : string) : URL :=
  match rest with
  | EmptyString => flush_query u buffer
  | String c rest' =>
      if Ascii.eqb c "#" then fragment_state (flush_query u buffer) rest'
      else query_state u (buffer +:+ String c EmptyString) rest'
  end.

(** What the path state does with the buffer at the end of a segment;
    [slash] says that the segment ended on [/] (or [\] in a special URL). *)
Definition end_segment (u : URL) (buffer : string) (slash : bool) : URL :=
  if is_double_dot buffer then
    let u' := shorten_path u in
    if slash then u' else append_segment u' EmptyString
  else if is_single_dot buffer then
    if slash then u else append_segment u EmptyString
  else
    let buffer' :=
      if String.eqb (scheme u) "file"
         && match segments_of u with [] => true | _ => false end
         && is_windows_drive_letter buffer
      then String.substring 0 1 buffer +:+ ":"
      else buffer in
    append_segment u buffer'.

(** *** path state *)
Fixpoint path_state (u : URL) (buffer : string) (rest : string) : URL :=
  match rest with
  | EmptyString => end_segment u buffer false
  | String c rest' =>
      if Ascii.eqb c "/" || (is_special u && Ascii.eqb c "\") then
        path_state (end_segment u buffer true) EmptyString rest'
      else if Ascii.eqb c "?" then
        query_state (set_query (end_segment u buffer false) (Some EmptyString)) EmptyString rest'
      else if Ascii.eqb c "#" then
        fragment_state (end_segment u buffer false) rest'
      else path_state u (buffer +:+ utf8_percent_encode path_set c) rest'
  end.

(** *** opaque path state *)
Fixpoint opaque_path_state (u : URL) (rest : string) : URL :=
  match rest with
  | EmptyString => u
  | String c rest' =>
      if Ascii.eqb c "?" then query_state (set_query u (Some EmptyString)) EmptyString rest'
      else if Ascii.eqb c "#" then fragment_state u rest'
      else if Ascii.eqb c " " then
        if startsWith rest' "?" || startsWith rest' "#"
        then opaque_path_state (append_opaque u "%20") rest'
        else opaque_path_state (append_opaque u " ") rest'
      else opaque_path_state (append_opaque u (utf8_percent_encode c0_control_set c)) rest'
  end.

(** *** path start state *)
Definition path_start_state (u : URL) (rest : string) : URL :=
  match rest with
  | EmptyString => if is_special u then path_state u EmptyString rest else u
  | String c rest' =>
      if is_special u then
        if Ascii.eqb c "/" || Ascii.eqb c "\" then path_state u EmptyString rest'
        else path_state u EmptyString rest
      else if Ascii.eqb c "?" then
        query_state (set_query u (Some EmptyString)) EmptyString rest'
      else if Ascii.eqb c "#" then fragment_state u rest'
      else if Ascii.eqb c "/" then path_state u EmptyString rest'
      else path_state u EmptyString rest
  end.

Section Parser.

Variable unicodeToASCII : string -> option string.

(** The code units that end the authority, the host and the port. *)
Definition ends_authority (u : URL) (c : ascii) : bool :=
  Regex.one_of "/?#" c || (is_special u && Ascii.eqb c "\").

(** What the port state does with the buffer where the port ends. *)
Definition end_port (u : URL) (buffer : string) (rest : string) : option URL :=
  match buffer with
  | EmptyString => Some (path_start_state u rest)
  | _ =>
      let port := digits_value 10 0 buffer in
      if (65535 <? port)%N then None
      else
        let u' :=
          if decide (default_port (scheme u) = Some (Some port))
          then set_port u None else set_port u (Some port) in
        Some (path_start_state u' rest)
  end.

(** *** port state *)
Fixpoint port_state (u : URL) (buffer : string) (rest : string) : option URL :=
  match rest with
  | EmptyString => end_port u buffer rest
  | String c rest' =>
      if is_digit c then port_state u (buffer +:+ String c EmptyString) rest'
      else if ends_authority u c then end_port u buffer rest
      else None
  end.

(** What the host state does with the buffer where the host ends without
    a port. *)
Definition end_host (u : URL) (buffer : string) (rest : string) : option URL :=
  if is_special u && negb (truthy buffer) then None
  else
    match parse_host unicodeToASCII buffer (negb (is_special u)) with
    | None => None
    | Some h => Some (path_start_state (set_host u (Some h)) rest)
    end.

(** *** host state *)
Fixpoint host_state (u : URL) (buffer : string) (insideBrackets : bool) (rest : string)
    : option URL :=
  match rest with
  | EmptyString => end_host u buffer rest
  | String c rest' =>
      if Ascii.eqb c ":" && negb insideBrackets then
        if negb (truthy buffer) then None
        else
          match parse_host unicodeToASCII buffer (negb (is_special u)) with
          | None => None
          | Some h => port_state (set_host u (Some h)) EmptyString rest'
          end
      else if ends_authority u c then end_host u buffer rest
      else
        let inside :=
          if Ascii.eqb c "[" then true
          else if Ascii.eqb c "]" then false
          else insideBrackets in
        host_state u (buffer +:+ String c EmptyString) inside rest'
  end.

(** What the authority state does with the buffer on [@]. *)
Fixpoint credentials (u : URL) (passwordTokenSeen : bool) (buffer : string) : URL * bool :=
  match buffer with
  | EmptyString => (u, passwordTokenSeen)
  | String c buffer' =>
      if Ascii.eqb c ":" && negb passwordTokenSeen then credentials u true buffer'
      else
        let encoded := utf8_percent_encode userinfo_set c in
        if passwordTokenSeen
        then credentials (set_password u (password u +:+ encoded)) passwordTokenSeen buffer'
        else credentials (set_username u (username u +:+ encoded)) passwordTokenSeen buffer'
  end.

(** What the authority state does where the authority ends: the host
    state reads again from [start]. *)
Definition end_authority (u : URL) (start buffer : string) (atSignSeen : bool) : option URL :=
  if atSignSeen && negb (truthy buffer) then None
  else host_state u EmptyString false start.

(** *** authority state; [start] is the input from where the buffer began. *)
Fixpoint authority_state (u : URL) (start buffer : string) (atSignSeen passwordTokenSeen : bool)
    (rest : string) : option URL :=
  match rest with
  | EmptyString => end_authority u start buffer atSignSeen
  | String c rest' =>
      if Ascii.eqb c "@" then
        let buffer' := if atSignSeen then "%40" +:+ buffer else buffer in
        let '(u', seen) := credentials u passwordTokenSeen buffer' in
        authority_state u' rest' EmptyString true seen rest'
      else if ends_authority u c then end_authority u start buffer atSignSeen
      else authority_state u start (buffer +:+ String c EmptyString) atSignSeen
             passwordTokenSeen rest'
  end.

Definition enter_authority (u : URL) (rest : string) : option URL :=
  authority_state u rest EmptyString false false rest.

(** *** special authority ignore slashes state *)
Fixpoint special_authority_ignore_slashes_state (u : URL) (rest : string) : option URL :=
  match rest with
  | String c rest' =>
      if Ascii.eqb c "/" || Ascii.eqb c "\"
      then special_authority_ignore_slashes_state u rest'
      else enter_authority u rest
  | EmptyString => enter_authority u rest
  end.

(** *** special authority slashes state *)
Definition special_authority_slashes_state (u : URL) (rest : string) : option URL :=
  if startsWith rest "//" then special_authority_ignore_slashes_state u (drop 2 rest)
  else special_authority_ignore_slashes_state u rest.

(** *** path or authority state *)
Definition path_or_authority_state (u : URL) (rest : string) : option URL :=
  match rest with
  | String "/" rest' => enter_authority u rest'
  | _ => Some (path_state u EmptyString rest)
  end.

(** *** relative slash state *)
Definition relative_slash_state (base u : URL) (rest : string) : option URL :=
  let otherwise :=
    let u1 := set_port (set_host (set_password (set_username u (username base))
                (password base)) (host base)) (port base) in
    Some (path_state u1 EmptyString rest) in
  match rest with
  | String c rest' =>
      if is_special u && (Ascii.eqb c "/" || Ascii.eqb c "\")
      then special_authority_ignore_slashes_state u rest'
      else if Ascii.eqb c "/" then enter_authority u rest'
      else otherwise
  | EmptyString => otherwise
  end.

(** *** relative state *)
Definition relative_state (base : URL) (rest : string) : option URL :=
  let u := set_scheme blank (scheme base) in
  let copy :=
    mkURL (scheme base) (username base) (password base) (host base) (port base)
          (path base) (query base) None in
  match rest with
  | EmptyString => Some copy
  | String c rest' =>
      if Ascii.eqb c "/" then relative_slash_state base u rest'
      else if is_special u && Ascii.eqb c "\" then relative_slash_state base u rest'
      else if Ascii.eqb c "?" then
        Some (query_state (set_query copy (Some EmptyString)) EmptyString rest')
      else if Ascii.eqb c "#" then Some (fragment_state copy rest')
      else Some (path_state (shorten_path (set_query copy None)) EmptyString rest)
  end.

(** *** special relative or authority state *)
Definition special_relative_or_authority_state (base u : URL) (rest : string) : option URL :=
  if startsWith rest "//" then special_authority_ignore_slashes_state u (drop 2 rest)
  else relative_state base rest.

(** What the file host state does with the buffer where the host ends. *)
Definition end_file_host (u : URL) (buffer : string) (rest : string) : option URL :=
  if is_windows_drive_letter buffer then Some (path_state u buffer rest)
  else
    match buffer with
    | EmptyString => Some (path_start_state (set_host u (Some EmptyHost)) rest)
    | _ =>
        match parse_host unicodeToASCII buffer false with
        | None => None
        | Some h =>
            let h' :=
              match h with
              | Domain d => if String.eqb d "localhost" then EmptyHost else h
              | _ => h
              end in
            Some (path_start_state (set_host u (Some h')) rest)
        end
    end.

(** *** file host state *)
Fixpoint file_host_state (u : URL) (buffer : string) (rest : string) : option URL :=
  match rest with
  | EmptyString => end_file_host u buffer rest
  | String c rest' =>
      if Regex.one_of "/\?#" c then end_file_host u buffer rest
      else file_host_state u (buffer +:+ String c EmptyString) rest'
  end.

(** *** file slash state *)
Definition file_slash_state (base : option URL) (u : URL) (rest : string) : option URL :=
  let otherwise :=
    let u1 :=
      match base with
      | Some b =>
          if String.eqb (scheme b) "file" then
            let u2 := set_host u (host b) in
            match segments_of b with
            | d :: _ =>
                if negb (starts_with_windows_drive_letter rest)
                   && is_normalized_windows_drive_letter d
                then append_segment u2 d else u2
            | [] => u2
            end
          else u
      | None => u
      end in
    Some (path_state u1 EmptyString rest) in
  match rest with
  | String c rest' =>
      if Ascii.eqb c "/" || Ascii.eqb c "\" then file_host_state u EmptyString rest'
      else otherwise
  | EmptyString => otherwise
  end.

(** *** file state *)
Definition file_state (base : option URL) (rest : string) : option URL :=
  let u := set_host (set_scheme blank "file") (Some EmptyHost) in
  let from_base :=
    match base with
    | Some b =>
        if String.eqb (scheme b) "file"
        then Some (set_query (set_path (set_host u (host b)) (path b)) (query b))
        else None
    | None => None
    end in
  match rest with
  | String c rest' =>
      if Ascii.eqb c "/" || Ascii.eqb c "\" then file_slash_state base u rest'
      else
        match from_base with
        | Some u1 =>
            if Ascii.eqb c "?" then
              Some (query_state (set_query u1 (Some EmptyString)) EmptyString rest')
            else if Ascii.eqb c "#" then Some (fragment_state u1 rest')
            else
              let u2 := set_query u1 None in
              let u3 :=
                if negb (starts_with_windows_drive_letter rest) then shorten_path u2
                else set_path u2 (ListPath []) in
              Some (path_state u3 EmptyString rest)
        | None => Some (path_state u EmptyString rest)
        end
  | EmptyString =>
      match from_base with
      | Some u1 => Some u1
      | None => Some (path_state u EmptyString rest)
      end
  end.

(** *** no scheme state *)
Definition no_scheme_state (base : option URL) (input : string) : option URL :=
  match base with
  | None => None
  | Some b =>
      if has_opaque_path b then
        match input with
        | String "#" rest' =>
            Some (fragment_state
                    (mkURL (scheme b) EmptyString EmptyString None None (path b) (query b) None)
                    rest')
        | _ => None
        end
      else if negb (String.eqb (scheme b) "file") then relative_state b input
      else file_state base input
  end.

(** What the scheme state does on [:], with [rest] what follows it. *)
Definition after_scheme (base : option URL) (buffer : string) (rest : string) : option URL :=
  let u := set_scheme blank buffer in
  if String.eqb buffer "file" then file_state base rest
  else if is_special u then
    match base with
    | Some b =>
        if String.eqb (scheme b) buffer
        then special_relative_or_authority_state b u rest
        else special_authority_slashes_state u rest
    | None => special_authority_slashes_state u rest
    end
  else
    match rest with
    | String "/" rest' => path_or_authority_state u rest'
    | _ => Some (opaque_path_state (set_path u (OpaquePath EmptyString)) rest)
    end.

(** *** scheme state; [input] is the whole input, for starting over. *)
Fixpoint scheme_state (base : option URL) (input : string) (buffer : string) (rest : string)
    : option URL :=
  match rest with
  | EmptyString => no_scheme_state base input
  | String c rest' =>
      if is_alnum c || Regex.one_of "+-." c
      then scheme_state base input (buffer +:+ String (to_lower c) EmptyString) rest'
      else if Ascii.eqb c ":" then after_scheme base buffer rest'
      else no_scheme_state base input
  end.

(** *** scheme start state *)
Definition scheme_start_state (base : option URL) (input : string) : option URL :=
  match input with
  | String c rest =>
      if is_alpha c then scheme_state base input (String (to_lower c) EmptyString) rest
      else no_scheme_state base input
  | EmptyString => no_scheme_state base input
  end.

Definition is_c0_control_or_space (c : ascii) : bool := (code c <=? 32)%N.
Definition is_ascii_tab_or_newline (c : ascii) : bool :=
  (code c =? 9)%N || (code c =? 10)%N || (code c =? 13)%N.

Fixpoint remove_all (p : ascii -> bool) (s : string) : string :=
  match s with
  | EmptyString => EmptyString
  | String c s' => if p c then remove_all p s' else String c (remove_all p s')
  end.

(** The input as the state machine reads it: leading and trailing C0
    controls and spaces stripped, then every tab and newline removed. *)
Definition preprocess (input : string) : string :=
  remove_all is_ascii_tab_or_newline
    (dropWhileEnd is_c0_control_or_space (dropWhile is_c0_control_or_space input)).

(** The basic URL parser. *)
Definition basic_url_parse (input : string) (base : option URL) : option URL :=
  scheme_start_state base (preprocess input).

End Parser.

(** ** The URL serializer *)

Definition serialize_path (u : URL) : string :=
  match path u with
  | OpaquePath p => p
  | ListPath l => String.concat "" (List.map (fun seg => "/" +:+ seg) l)
  end.

Definition serialize (u : URL) : string :=
  let authority :=
    match host u with
    | Some h =>
        "//"
        +:+ (if truthy (username u) || truthy (password u)
             then username u
                  +:+ (if truthy (password u) then ":" +:+ password u else "")
                  +:+ "@"
             else "")
        +:+ serialize_host h
        +:+ match port u with Some p => ":" +:+ decimal p | None => "" end
    | None =>
        match path u with
        | ListPath (EmptyString :: _ :: _) => "/."
        | _ => ""
        end
    end in
  scheme u +:+ ":" +:+ authority +:+ serialize_path u
  +:+ match query u with Some q => "?" +:+ q | None => "" end
  +:+ match fragment u with Some f => "#" +:+ f | None => "" end.

(** ** The [URL] class: [new URL(url, base)] and the [href] getter. *)

Definition URL_new (unicodeToASCII : string -> option string)
    (url : string) (base : option string) : option URL :=
  match base with
  | None => basic_url_parse unicodeToASCII url None
  | Some b =>
      match basic_url_parse unicodeToASCII b None with
      | None => None
      | Some parsedBase => basic_url_parse unicodeToASCII url (Some parsedBase)
      end
  end.

Definition href (u : URL) : string := serialize u.

End Whatwg.

(* ===================================================================== *)
(** * The DOM *)
(* ===================================================================== *)

(** What [DOMParser.parseFromString(html, 'text/html')] returns, as far as
    the sources read it: elements with their attributes and children, and
    text.  A tag or attribute name is the lower-case local name the HTML
    parser gives it. *)
Module Dom.

#[warnings="-register-all"]
Inductive Node : Type :=
| Text (data : string)
| Element (tag : string) (attrs : list (string * string)) (children : list Node).

Record Document : Type := mkDocument {
  quirks : bool;               (* quirks mode: class selectors ignore case *)
  documentElement : Node
}.

Definition is_element (n : Node) : bool :=
  match n with Element _ _ _ => true | Text _ => false end.

Definition tag_of (n : Node) : string :=
  match n with Element t _ _ => t | Text _ => EmptyString end.

Definition children_of (n : Node) : list Node :=
  match n with Element _ _ cs => cs | Text _ => [] end.

(** [el.getAttribute(name)]. *)
Definition getAttribute (el : Node) (name : string) : option string :=
  match el with
  | Element _ attrs _ =>
      match List.find (fun a => String.eqb (fst a) name) attrs with
      | Some a => Some (snd a)
      | None => None
      end
  | Text _ => None
  end.

(** [node.textContent]: the text of the descendants, in tree order. *)
Fixpoint textContent (n : Node) : string :=
  match n with
  | Text d => d
  | Element _ _ cs =>
      (fix go (l : list Node) : string :=
         match l with
         | [] => EmptyString
         | c :: r => textContent c +:+ go r
         end) cs
  end.

(** The elements of a subtree, in tree order. *)
Fixpoint elements (n : Node) : list Node :=
  match n with
  | Text _ => []
  | Element _ _ cs =>
      n :: (fix go (l : list Node) : list Node :=
              match l with
              | [] => []
              | c :: r => elements c ++ go r
              end) cs
  end.

(** The subtree without the elements that satisfy [gone] (each one
    [remove]d from its parent). *)
Fixpoint prune (gone : Node -> bool) (n : Node) : Node :=
  match n with
  | Text _ => n
  | Element t a cs =>
      Element t a
        ((fix go (l : list Node) : list Node :=
            match l with
            | [] => []
            | c :: r => if is_element c && gone c then go r else prune gone c :: go r
            end) cs)
  end.

(** A type selector list such as ['img, a, div']. *)
Definition has_tag (tags : list string) (el : Node) : bool :=
  List.existsb (String.eqb (tag_of el)) tags.

Definition is_ascii_whitespace (c : ascii) : bool :=
  Regex.one_of (String (ascii_of_N 9) (String (ascii_of_N 10) (String (ascii_of_N 12)
               (String (ascii_of_N 13) " ")))) c.

(** The tokens of a [class] attribute. *)
Fixpoint tokens (cur : string) (s : string) : list string :=
  match s with
  | EmptyString => match cur with EmptyString => [] | _ => [cur] end
  | String c s' =>
      if is_ascii_whitespace c
      then match cur with
           | EmptyString => tokens EmptyString s'
           | _ => cur :: tokens EmptyString s'
           end
      else tokens (cur +:+ String c EmptyString) s'
  end.

(** The class selector [.name]. *)
Definition has_class (quirks : bool) (name : string) (el : Node) : bool :=
  match getAttribute el "class" with
  | Some v =>
      List.existsb
        (fun t => if quirks then String.eqb (Js.ascii_lowercase t) (Js.ascii_lowercase name)
                  else String.eqb t name)
        (tokens EmptyString v)
  | None => false
  end.

(** The attribute selector [[class*="part"]]. *)
Definition class_contains (part : string) (el : Node) : bool :=
  match getAttribute el "class" with
  | Some v => Js.truthy part && Js.includes v part
  | None => false
  end.

Definition querySelectorAll (sel : Node -> bool) (root : Node) : list Node :=
  List.filter sel (elements root).

Definition querySelector (sel : Node -> bool) (root : Node) : option Node :=
  List.find sel (elements root).

(** [document.body]: the first [body] or [frameset] child of the [html]
    element. *)
Definition body (root : Node) : option Node :=
  if String.eqb (tag_of root) "html"
  then List.find (has_tag ["body"; "frameset"]) (children_of root)
  else None.

End Dom.

(* ===================================================================== *)
(** * The program *)
(* ===================================================================== *)

(** ** [types.ts] *)

Record ScrapedData : Type := mkScrapedData {
  url : string;
  images : list string;
  text : string;
  title : string;
  price : option string;
  error : option string
}.

Inductive Status : Type := idle | loading | success | error_.

Record ProcessingStatus : Type := mkProcessingStatus {
  ps_url : string;
  ps_status : Status;
  ps_message : option string
}.

(** ** Values of the platform *)

(** What a [catch] clause receives: an [Error] instance with its message,
    or any other value (with its [message] property, if it has one). *)
Inductive Thrown : Type :=
| Err (message : string)
| NotErr (message : option string).

Definition message_of (e : Thrown) : option string :=
  match e with Err m => Some m | NotErr m => m end.

(** The JSON payload of the local extraction service, as [scrapeUrl] reads
    it: the strings of [images] when it is an array ([None] when it is no
    array, and then [images.map] throws inside the [try] block), and three
    optional strings.  An element of the array that is no string makes the
    callback of [cleanImages] throw inside its own [try] block and is
    dropped there, so the array reads as its strings. *)
Record Payload : Type := mkPayload {
  p_images : option (list string);
  p_title : option string;
  p_text : option string;
  p_price : option string
}.

(** A settled [Response]: [ok], and what [text()] and [json()] settle to. *)
Record Response : Type := mkResponse {
  ok : bool;
  body_text : Thrown + string;
  body_json : Thrown + Payload
}.

(** [encodeURIComponent]: everything but the unreserved marks is written
    as the percent-encoded bytes of its UTF-8 form.  It throws on a lone
    surrogate only, which is no code unit of the model. *)
Definition uri_unreserved (c : ascii) : bool :=
  Js.is_alnum c || Regex.one_of "-_.!~*'()" c.

Definition encodeURIComponent (s : string) : string :=
  Whatwg.percent_encode_string (fun c => negb (uri_unreserved c)) s.

(** A [Set] of strings keeps insertion order; [add] of a member is void. *)
Definition set_add (x : string) (set : list string) : list string :=
  if List.existsb (String.eqb x) set then set else set ++ [x].

(** ** [utils/scraper.ts] *)

Definition LOCAL_SERVER : string := "http://localhost:3001/scrape?url=".

Definition PROXY_PROVIDERS : list (string -> string) :=
  [ (fun url => "https://corsproxy.io/?" +:+ encodeURIComponent url);
    (fun url => "https://api.codetabs.com/v1/proxy?quest=" +:+ encodeURIComponent url);
    (fun url => "https://api.allorigins.win/raw?url=" +:+ encodeURIComponent url) ].

(** The regular expressions of the file.  In the comments [\x22] stands
    for the double quote of the source and [{0,}] for a star that a closing
    parenthesis follows. *)
Module Patterns.
Import Regex.

Fixpoint seq (l : list re) : re :=
  match l with
  | [] => Eps
  | [r] => r
  | r :: l' => Seq r (seq l')
  end.

Fixpoint alt (l : list re) : re :=
  match l with
  | [] => Eps
  | [r] => r
  | r :: l' => Alt r (alt l')
  end.

Definition quote (c : ascii) : bool := Ascii.eqb c "'" || Ascii.eqb c Js.dquote.

(** [/\\/g] *)
Definition backslash : re := chr "\".

(** [/^['\x22]|['\x22]$/g] *)
Definition wrapping_quote : re := Alt (Seq Bol (Cls quote)) (Seq (Cls quote) Eol).

(** [[^\x22'\s<>;,\[\]\{\}]] *)
Definition url_char (c : ascii) : bool :=
  negb (quote c || Js.is_space c || one_of "<>;,[]{}" c).

(** [/(https?:\\?\/\\?\/[^\x22'\s<>;,\[\]\{\}]+\.(?:jpg|jpeg|png|webp)
       (?:\?[^\x22'\s<>;,\[\]\{\}]{0,})?)/gi], on one line in the source. *)
Definition regex : re :=
  Group (seq [ lit_i "http"; Opt (chr_i "s"); chr ":"; Opt (chr "\"); chr "/";
               Opt (chr "\"); chr "/"; Plus url_char; chr ".";
               alt [lit_i "jpg"; lit_i "jpeg"; lit_i "png"; lit_i "webp"];
               Opt (Seq (chr "?") (Star url_char)) ]).

(** [[^)'\x22]] *)
Definition css_char (c : ascii) : bool := negb (Ascii.eqb c ")" || quote c).

(** [/url\(['\x22]?(https?:[^)'\x22]+\.(?:jpg|jpeg|png|webp)[^)'\x22]{0,})['\x22]?\)/gi] *)
Definition cssRegex : re :=
  seq [ lit_i "url"; chr "("; Opt (Cls quote);
        Group (seq [ lit_i "http"; Opt (chr_i "s"); chr ":"; Plus css_char; chr ".";
                     alt [lit_i "jpg"; lit_i "jpeg"; lit_i "png"; lit_i "webp"];
                     Star css_char ]);
        Opt (Cls quote); chr ")" ].

(** [/\.(jpg|png|webp)/i] *)
Definition image_extension : re :=
  Seq (chr ".") (Group (alt [lit_i "jpg"; lit_i "png"; lit_i "webp"])).

(** [/url\(['\x22]?(.*?)['\x22]?\)/] *)
Definition style_url : re :=
  seq [ lit "url"; chr "("; Opt (Cls quote);
        Group (StarLazy (fun c => negb (Js.is_line_terminator c)));
        Opt (Cls quote); chr ")" ].

(** [/\s+/g] *)
Definition whitespace_run : re := Plus Js.is_space.

(** [/[^a-z0-9]/gi] *)
Definition not_alnum : re := Cls (fun c => negb (Js.is_alnum c)).

End Patterns.

Section Scraper.

(** The platform: Unicode IDNA processing inside [new URL], the network
    behind [fetch], and the HTML parser behind [DOMParser]. *)
Variable unicodeToASCII : string -> option string.
Variable fetch : string -> Thrown + Response.
Variable parseFromString : string -> Dom.Document.

(** [new URL(url, base).href], or [None] when the constructor throws. *)
Definition resolve (url : string) (base : option string) : option string :=
  option_map Whatwg.href (Whatwg.URL_new unicodeToASCII url base).

Definition isValidUrl (string_ : string) : bool :=
  match Whatwg.URL_new unicodeToASCII string_ None with
  | Some _ => true
  | None => false
  end.

(** The callback of [.map] in [cleanImages]; [None] is its [null]. *)
Definition cleanImage (baseUrl : string) (url : string) : option string :=
  if Js.startsWith url "//" then Some ("https:" +:+ url)
  else
    let cleanUrl := Regex.replace Patterns.backslash "" url in
    let cleanUrl := Regex.replace Patterns.wrapping_quote "" cleanUrl in
    resolve cleanUrl (Some baseUrl).

(** The callback of the second [.filter] in [cleanImages]. *)
Definition keepImage (url : string) : bool :=
  if negb (Js.startsWith url "http") then false
  else if Js.includes url ".svg" || Js.includes url "tracker"
          || Js.includes url "analytics" || Js.includes url "facebook"
          || Js.includes url "google" || Js.includes url "whatsapp"
  then false
  else if Js.includes url "images.prop24.com" || Js.includes url "property24"
  then true
  else if (Js.includes url "icon" || Js.includes url "logo")
          && negb (Js.includes url "property")
  then false
  else true.

Definition cleanImages (images : list string) (baseUrl : string) : list string :=
  List.filter keepImage (omap (cleanImage baseUrl) images).

(** [fetchWithTimeout]: the timer aborts the request, which then rejects;
    either way the outcome of [fetch] is handed on. *)
Definition fetchWithTimeout (url : string) : Thrown + Response :=
  match fetch url with
  | inr response => inr response
  | inl error => inl error
  end.

(** The variables of the relay loop of [scrapeViaProxies]. *)
Record Relay : Type := mkRelay {
  html : string;
  usedProxy : string;
  fetchError : option Thrown
}.

(** [for (const getProxyUrl of PROXY_PROVIDERS) { try ... catch ... }] *)
Fixpoint tryProxies (providers : list (string -> string)) (url : string) (st : Relay)
    : Relay :=
  match providers with
  | [] => st
  | getProxyUrl :: rest =>
      let proxyUrl := getProxyUrl url in
      match fetchWithTimeout proxyUrl with
      | inl e => tryProxies rest url (mkRelay (html st) (usedProxy st) (Some e))
      | inr response =>
          if ok response then
            match body_text response with
            | inl e => tryProxies rest url (mkRelay (html st) (usedProxy st) (Some e))
            | inr html' =>
                if Js.truthy html' && (500 <? String.length html')%nat
                then mkRelay html' proxyUrl (fetchError st)
                else tryProxies rest url (mkRelay html' (usedProxy st) (fetchError st))
            end
          else tryProxies rest url st
      end
  end.

Definition failed_to_fetch (fetchError : option Thrown) : Thrown :=
  Err ("Failed to fetch content. Sites like Property24 often block cloud proxies. "
       +:+ "Please run the local server (node server.cjs) for the best experience. "
       +:+ "Last error: " +:+ Js.opt_or_else (fetchError ≫= message_of) "Blocked").

(** Lines 73-99 of [scrapeViaProxies]: the HTML, or the thrown error. *)
Definition acquireHtml (url : string) : Thrown + string :=
  let st := tryProxies PROXY_PROVIDERS url (mkRelay "" "" None) in
  if negb (Js.truthy (html st)) then inl (failed_to_fetch (fetchError st))
  else inr (html st).

Definition add_matches (found : list (option string)) (imageSet : list string) : list string :=
  List.fold_left (fun set m => match m with Some x => set_add x set | None => set end)
    found imageSet.

Definition attrs : list string :=
  ["src"; "href"; "data-src"; "data-url"; "data-original"; "data-large-img-url"].

(** The body of [doc.querySelectorAll('img, a, div').forEach(el => ...)]. *)
Definition scanElement (imageSet : list string) (el : Dom.Node) : list string :=
  let imageSet :=
    List.fold_left
      (fun set attr =>
         match Dom.getAttribute el attr with
         | Some val =>
             if Js.truthy val
                && (Regex.test Patterns.image_extension val || Js.includes val "images.prop24")
             then set_add val set else set
         | None => set
         end)
      attrs imageSet in
  match Dom.getAttribute el "style" with
  | Some style =>
      if Js.truthy style && Js.includes style "url(" then
        match Regex.search Patterns.style_url 0 style with
        | Some (Some m1) => set_add m1 imageSet
        | _ => imageSet
        end
      else imageSet
  | None => imageSet
  end.

(** Lines 101-137 of [scrapeViaProxies]: the candidates, in insertion order. *)
Definition collectCandidates (html : string) : list string :=
  let doc := parseFromString html in
  let imageSet : list string := [] in
  let imageSet := add_matches (Regex.exec_all Patterns.regex 0 html 0) imageSet in
  let imageSet := add_matches (Regex.exec_all Patterns.cssRegex 0 html 0) imageSet in
  List.fold_left scanElement
    (Dom.querySelectorAll (Dom.has_tag ["img"; "a"; "div"]) (Dom.documentElement doc))
    imageSet.

Record Extracted : Type := mkExtracted {
  e_title : string;
  e_text : string;
  e_price : option string
}.

(** [doc.body] of a parsed page is never [null]; were it, reading its
    [textContent] would throw a [TypeError]. *)
Definition extractTextFromHtml (html : string) : Thrown + Extracted :=
  let doc := parseFromString html in
  let root :=
    Dom.prune (Dom.has_tag ["script"; "style"; "nav"; "footer"; "header"; "noscript"; "iframe"])
      (Dom.documentElement doc) in
  let title :=
    Js.opt_or_else (option_map Dom.textContent (Dom.querySelector (Dom.has_tag ["title"]) root))
      "Untitled" in
  let priceMeta :=
    match Dom.querySelector (Dom.has_class (Dom.quirks doc) "p24_price") root with
    | Some el => Some el
    | None => Dom.querySelector (Dom.class_contains "price") root
    end in
  let price :=
    match priceMeta with
    | Some el => Js.trim (Dom.textContent el)
    | None => EmptyString
    end in
  match Dom.body root with
  | None => inl (Err "Cannot read properties of null (reading 'textContent')")
  | Some body =>
      let text :=
        Js.or_else
          (Js.substring 0 (100 * 100)
             (Js.trim (Regex.replace Patterns.whitespace_run " " (Dom.textContent body))))
          "" in
      inr (mkExtracted title text (Some price))
  end.

Definition scrapeViaProxies (url : string) : Thrown + ScrapedData :=
  match acquireHtml url with
  | inl e => inl e
  | inr html =>
      let imageSet := collectCandidates html in
      match extractTextFromHtml html with
      | inl e => inl e
      | inr x =>
          inr (mkScrapedData url (cleanImages imageSet url) (e_text x) (e_title x)
                 (e_price x) None)
      end
  end.

(** The first [try] block of [scrapeUrl]: what it returns, if it does. *)
Definition scrapeLocal (url : string) : option ScrapedData :=
  let serverUrl := LOCAL_SERVER +:+ encodeURIComponent url in
  match fetch serverUrl with
  | inl _ => None
  | inr response =>
      if ok response then
        match body_json response with
        | inl _ => None
        | inr data =>
            match p_images data with
            | None => None
            | Some imgs =>
                Some (mkScrapedData url (cleanImages imgs url)
                        (Js.opt_or_else (p_text data) "")
                        (Js.opt_or_else (p_title data) "Extracted Property")
                        (p_price data) None)
            end
        end
      else None
  end.

Definition scrapeUrl (url : string) : ScrapedData :=
  match scrapeLocal url with
  | Some data => data
  | None =>
      match scrapeViaProxies url with
      | inr data => data
      | inl error =>
          mkScrapedData url [] "" "Error" None
            (Some (match error with Err m => m | NotErr _ => "Unknown error" end))
      end
  end.

End Scraper.

(** ** [services/gemini.ts] *)

Section Gemini.

(** [process.env.API_KEY], the client of the SDK and its outcome: the
    [text] of the response (which may be [undefined]) or a rejection. *)
Variable API_KEY : option string.
Variable Client : Type.
Variable GoogleGenAI : string -> Thrown + Client.
Variable generateContent : Client -> string -> string -> Thrown + option string.

Definition getAiClient : Thrown + Client :=
  match API_KEY with
  | Some apiKey =>
      if Js.truthy apiKey then GoogleGenAI apiKey
      else inl (Err "API Key not found in environment variables")
  | None => inl (Err "API Key not found in environment variables")
  end.

Definition prompt (text : string) : string :=
  "You are a real estate assistant. Please analyze the following scraped text from a property listing website. 
      Extract and summarize the following details in a clean, bulleted format:
      - Property Type & Size (Bedrooms, etc)
      - Location
      - Key Features/Amenities
      - Price (if available)
      - Sentiment/Vibe (Luxury, fixer-upper, etc.)

      Keep it concise (under 150 words).

      Raw Text:
      " +:+ text +:+ "
      ".

Definition NO_SUMMARY : string := "No summary generated.".
Definition SUMMARY_FAILED : string :=
  "Failed to generate summary. Please check your API key or try again.".

Definition summarizePropertyListing (text : string) : string :=
  match getAiClient with
  | inl _ => SUMMARY_FAILED
  | inr ai =>
      match generateContent ai "gemini-2.5-flash" (prompt text) with
      | inl _ => SUMMARY_FAILED
      | inr response_text => Js.opt_or_else response_text NO_SUMMARY
      end
  end.

End Gemini.

(** ** [App.tsx] *)

Section App.

Variable unicodeToASCII : string -> option string.
Variable fetch : string -> Thrown + Response.
Variable parseFromString : string -> Dom.Document.

(** [inputUrls.split('\n').map(u => u.trim()).filter(...)] *)
Definition submittedUrls (inputUrls : string) : list string :=
  List.filter (fun u => (0 <? String.length u)%nat && isValidUrl unicodeToASCII u)
    (List.map Js.trim (Whatwg.split_on (ascii_of_N 10) inputUrls)).

Definition statusOf (data : ScrapedData) : ProcessingStatus :=
  mkProcessingStatus (url data)
    (if Js.truthy (default EmptyString (error data)) then error_ else success)
    (error data).

(** [setProcessingStatus(prev => prev.map(p => p.url === url ? ... : p))] *)
Definition updateStatus (data : ScrapedData) (prev : list ProcessingStatus)
    : list ProcessingStatus :=
  List.map (fun p => if String.eqb (ps_url p) (url data) then statusOf data else p) prev.

(** [handleScrape]: nothing happens without a valid line; otherwise the
    statuses after every update and the collected results.  [scrapeUrl]
    never rejects, so no promise settles to [null]. *)
Definition handleScrape (inputUrls : string)
    : option (list ProcessingStatus * list ScrapedData) :=
  let urls := submittedUrls inputUrls in
  match urls with
  | [] => None
  | _ =>
      let data := List.map (scrapeUrl unicodeToASCII fetch parseFromString) urls in
      let initial := List.map (fun url => mkProcessingStatus url loading None) urls in
      Some (List.fold_left (fun prev d => updateStatus d prev) data initial, data)
  end.

End App.

Section Archive.

(** The bytes of a downloaded image. *)
Variable Blob : Type.

(** The image relay: what the [index]-th request, to [proxyUrl], settles
    to; [None] when [fetch] or [blob()] rejects. *)
Variable fetchBlob : nat -> string -> option Blob.

(** A [JSZip] archive: its entries by path. *)
Inductive Entry : Type :=
| Folder
| File (content : Blob).

Definition extension (imgUrl : string) : string :=
  let ext := "jpg" in
  let ext := if Js.includes imgUrl ".png" then "png" else ext in
  let ext := if Js.includes imgUrl ".webp" then "webp" else ext in
  ext.

(** [`image_${index + 1}.${ext}`], inside the folder [images]. *)
Definition imagePath (index : nat) (imgUrl : string) : string :=
  "images/" +:+ "image_" +:+ pretty (index + 1)%nat +:+ "." +:+ extension imgUrl.

(** The callback of [data.images.map(async (imgUrl, index) => ...)], run
    to completion on the archive. *)
Definition storeImage (images : list string) (zip : gmap string Entry) (index : nat)
    : gmap string Entry :=
  match images !! index with
  | None => zip
  | Some imgUrl =>
      let proxyUrl := "https://api.allorigins.win/raw?url=" +:+ encodeURIComponent imgUrl in
      match fetchBlob index proxyUrl with
      | Some blob => <[imagePath index imgUrl := File blob]> zip
      | None => zip
      end
  end.

Definition archiveName (title : string) : string :=
  Regex.replace Patterns.not_alnum "_" (Js.substring 0 20 title) +:+ "_images.zip".

(** [handleDownloadImages]: [None] when there is nothing to download,
    otherwise the archive handed to [saveAs] and its file name.  The
    callbacks complete in the order [completion] (a listing of the
    indices). *)
Definition handleDownloadImages (completion : list nat) (data : ScrapedData)
    : option (gmap string Entry * string) :=
  match images data with
  | [] => None
  | _ =>
      let zip : gmap string Entry := {[ "images/" := Folder ]} in
      Some (List.fold_left (storeImage (images data)) completion zip,
            archiveName (title data))
  end.

End Archive.

(** A platform without IDNA tables, for pages whose hosts are plain ASCII
    (no [xn--] label), where the tables are never consulted. *)
Definition plainASCII : string -> option string := fun _ => None.

(* ===================================================================== *)
(** * Vocabulary of the specification, sample pages and networks *)
(* ===================================================================== *)

(** The denylist of the filter. *)
Definition denylist : list string :=
  [".svg"; "tracker"; "analytics"; "facebook"; "google"; "whatsapp"].

Definition denied (u : string) : bool := List.existsb (Js.includes u) denylist.

(** [s] begins with a URL scheme and its colon. *)
Fixpoint scheme_tail (s : string) : bool :=
  match s with
  | String c s' =>
      if Js.is_alnum c || Regex.one_of "+-." c then scheme_tail s'
      else Ascii.eqb c ":"
  | EmptyString => false
  end.

Definition begins_with_scheme (s : string) : bool :=
  match s with
  | String c s' => Js.is_alpha c && scheme_tail s'
  | EmptyString => false
  end.

(** [s] parses, on its own, as a URL whose scheme is [http] or [https]. *)
Definition isHttpUrl (unicodeToASCII : string -> option string) (s : string) : bool :=
  match Whatwg.URL_new unicodeToASCII s None with
  | Some u => String.eqb (Whatwg.scheme u) "http" || String.eqb (Whatwg.scheme u) "https"
  | None => false
  end.

(** [u'] has the scheme and the host of [u]. *)
Definition keeps (u u' : Whatwg.URL) : Prop :=
  Whatwg.scheme u' = Whatwg.scheme u /\ Whatwg.host u' = Whatwg.host u.

(** [u'] has the scheme of [u], and a host. *)
Definition hosted (u u' : Whatwg.URL) : Prop :=
  Whatwg.scheme u' = Whatwg.scheme u /\ is_Some (Whatwg.host u').

(** [s] is a string of decimal digits. *)
Definition all_digits (s : string) : bool := Js.forallb Js.is_digit s.

(** The document of a page that is text only: [html], an empty [head], and
    a [body] holding the text. *)
Definition textOnlyPage (html : string) : Dom.Document :=
  Dom.mkDocument true
    (Dom.Element "html" []
       [Dom.Element "head" [] []; Dom.Element "body" [] [Dom.Text html]]).

Definition unreachable : Thrown + Response := inl (Err "Failed to fetch").

(** A fulfilled request whose body is [body]. *)
Definition page (body : string) : Thrown + Response :=
  inr (mkResponse true (inr body) (inl (Err "Unexpected token in JSON"))).

(** A network where only the local extraction service answers. *)
Definition localService (data : Payload) (requestUrl : string) : Thrown + Response :=
  if Js.startsWith requestUrl LOCAL_SERVER
  then inr (mkResponse true (inl (Err "body stream already read")) (inr data))
  else unreachable.

(** A network without the local service, where the three relays answer as
    given. *)
Definition relays (first second third : Thrown + Response) (requestUrl : string)
    : Thrown + Response :=
  if Js.startsWith requestUrl "https://corsproxy.io/" then first
  else if Js.startsWith requestUrl "https://api.codetabs.com/" then second
  else if Js.startsWith requestUrl "https://api.allorigins.win/" then third
  else unreachable.

(** [n] copies of [c]. *)
Fixpoint repeat_char (c : ascii) (n : nat) : string :=
  match n with
  | O => EmptyString
  | S n' => String c (repeat_char c n')
  end.

(** A page (of more than 500 code units) that names one picture twice,
    once with the slashes escaped as in serialized JSON. *)
Definition twicePage : string :=
  "https://a.com/x.jpg https:\/\/a.com\/x.jpg" +:+ repeat_char " " 600.

(** A page (of more than 500 code units) that shows one picture, and its
    document. *)
Definition imagePage (src : string) : string :=
  "<img src='" +:+ src +:+ "'>" +:+ repeat_char " " 600.

Definition imageDocument (src : string) : Dom.Document :=
  Dom.mkDocument true
    (Dom.Element "html" []
       [Dom.Element "head" [] [];
        Dom.Element "body" []
          [Dom.Element "img" [("src", src)] []; Dom.Text (repeat_char " " 600)]]).

(** An HTML parser that knows [imagePage src] and takes every other page
    for text. *)
Definition parseImagePage (src : string) (html : string) : Dom.Document :=
  if String.eqb html (imagePage src) then imageDocument src else textOnlyPage html.

(** The network where the first relay serves [imagePage src]. *)
Definition imageSite (src : string) : string -> Thrown + Response :=
  relays (page (imagePage src)) unreachable unreachable.

(** The message of the error [scrapeViaProxies] throws when every relay is
    unreachable. *)
Definition ALL_UNREACHABLE : string :=
  "Failed to fetch content. Sites like Property24 often block cloud proxies. "
  +:+ "Please run the local server (node server.cjs) for the best experience. "
  +:+ "Last error: Failed to fetch".

(** The page of a relay that answers with a short refusal. *)
Definition refusal : string := "Access denied".

(** A payload of the local service whose text has 10001 code units. *)
Definition longPayload : Payload :=
  mkPayload (Some []) (Some "Listing") (Some (repeat_char "a" (100 * 100 + 1))) None.

(** A client of the generative-language service that is always built. *)
Definition sdk (apiKey : string) : Thrown + unit := inr tt.

(** A generative-language service that answers [answer] to any request. *)
Definition answering (answer : option string)
    : unit -> string -> string -> Thrown + option string :=
  fun _ _ _ => inr answer.

(** A listing with three pictures, and a relay that fails on the second
    request. *)
Definition threePictures : ScrapedData :=
  mkScrapedData "https://site.com/x"
    ["https://a.com/1.jpg"; "https://a.com/2.png"; "https://a.com/3.webp"]
    "" "2 Bed House, Cape Town" None None.

Definition secondFails (index : nat) (proxyUrl : string) : option string :=
  if (index =? 1)%nat then None else Some ("bytes of " +:+ proxyUrl).

(** [new URL(url, base).href] on the platform without IDNA tables. *)
Definition href_of (url : string) (base : option string) : option string :=
  option_map Whatwg.href (Whatwg.URL_new plainASCII url base).

(** The document of
    [<title>Foo</title><body><script>x</script><p>Hi  there</p></body>]. *)
Definition fooDocument : Dom.Document :=
  Dom.mkDocument true
    (Dom.Element "html" []
       [Dom.Element "head" [] [Dom.Element "title" [] [Dom.Text "Foo"]];
        Dom.Element "body" []
          [Dom.Element "script" [] [Dom.Text "x"];
           Dom.Element "p" [] [Dom.Text "Hi  there"]]]).

(** A relay's answer is accepted with [body]: the response is
    HTTP-successful and its body has more than 500 code units. *)
Definition accepted (answer : Thrown + Response) (body : string) : Prop :=
  exists response,
    answer = inr response /\ ok response = true /\ body_text response = inr body
    /\ 500 < String.length body.

(* ===================================================================== *)
(** * Further vocabulary *)
(* ===================================================================== *)

(** A relay's answer leaves no body: the request was rejected, the
    response was not HTTP-successful, [text()] was rejected, or the body
    was empty. *)
Definition no_body (answer : Thrown + Response) : Prop :=
  match answer with
  | inl _ => True
  | inr response =>
      ok response = false
      \/ (exists e, body_text response = inl e)
      \/ body_text response = inr EmptyString
  end.

(** What the [catch] clause of the relay loop receives from an answer. *)
Definition thrown_by (answer : Thrown + Response) : option Thrown :=
  match answer with
  | inl e => Some e
  | inr response =>
      if ok response then
        match body_text response with
        | inl e => Some e
        | inr _ => None
        end
      else None
  end.

(** The last value thrown among [answers], or [before] when none is. *)
Definition last_thrown (before : option Thrown) (answers : list (Thrown + Response))
    : option Thrown :=
  List.fold_left
    (fun acc answer => match thrown_by answer with Some e => Some e | None => acc end)
    answers before.

(** The length of the longest prefix of [s] whose code units satisfy [p]. *)
Fixpoint run_length (p : ascii -> bool) (s : string) : nat :=
  match s with
  | String c s' => if p c then S (run_length p s') else O
  | EmptyString => O
  end.

(** [s] with every run of code units that satisfy [p] replaced by one
    space; [in_run] says that such a run has begun before [s]. *)
Fixpoint squeeze (p : ascii -> bool) (in_run : bool) (s : string) : string :=
  match s with
  | EmptyString => EmptyString
  | String c s' =>
      if p c then
        if in_run then squeeze p true s' else String " " (squeeze p true s')
      else String c (squeeze p false s')
  end.

(** The first code unit of [s] satisfies [p]. *)
Definition begins_with (p : ascii -> bool) (s : string) : bool :=
  match s with
  | String c _ => p c
  | EmptyString => false
  end.

(** White space at the head of [t] is white space at the head of [s]: the
    case of a prefix [t] of [s] that is not empty. *)
Definition shorter_head (t s : string) : Prop :=
  begins_with Js.is_space t = true -> begins_with Js.is_space s = true.

(** Every white space of [s] is a space that no white space follows. *)
Fixpoint single_spaced (s : string) : bool :=
  match s with
  | EmptyString => true
  | String c s' =>
      (if Js.is_space c then Ascii.eqb c " " && negb (begins_with Js.is_space s') else true)
      && single_spaced s'
  end.

(** [s] with every code unit that satisfies [p] replaced by [by_]. *)
Fixpoint replace_each (p : ascii -> bool) (by_ : string) (s : string) : string :=
  match s with
  | EmptyString => EmptyString
  | String c s' => (if p c then by_ else String c EmptyString) +:+ replace_each p by_ s'
  end.

(** The rows [handleScrape] shows when it starts: every line is loading. *)
Definition loadingRows (urls : list string) : list ProcessingStatus :=
  List.map (fun url => mkProcessingStatus url loading None) urls.

(** The rows after the scrapes have completed in the order [completion],
    each with its [setProcessingStatus]. *)
Definition settle (completion : list ScrapedData) (urls : list string)
    : list ProcessingStatus :=
  List.fold_left (fun prev d => updateStatus d prev) completion (loadingRows urls).

(** The row of [u] after the updates of [completion] on a row [row]: that
    of the last result for [u], if there is one. *)
Fixpoint lastStatus (completion : list ScrapedData) (row : ProcessingStatus) (u : string)
    : ProcessingStatus :=
  match completion with
  | [] => row
  | d :: rest => lastStatus rest (if String.eqb u (url d) then statusOf d else row) u
  end.

(** Two networks that give the same answer to the request [requestUrl]. *)
Definition same_answer (fetch fetch' : string -> Thrown + Response) (requestUrl : string)
    : Prop :=
  fetch requestUrl = fetch' requestUrl.

(** A listing page that the local service found to have no picture. *)
Definition noPictures : Payload := mkPayload (Some []) None None None.

(** A network on which nothing can be reached, and the record [scrapeUrl]
    returns on it. *)
Definition offline (requestUrl : string) : Thrown + Response := unreachable.

Definition unreached (u : string) : ScrapedData :=
  mkScrapedData u [] "" "Error" None (Some ALL_UNREACHABLE).

(** Three lines of input: two URLs, the second one indented, and a line
    that is no URL. *)
Definition twoLines : string :=
  "https://site.com/x" +:+ String (ascii_of_N 10) "  https://b.org/ "
  +:+ String (ascii_of_N 10) "not a url".

(** ** [App.tsx]: the summaries *)

Section Summaries.

Variable API_KEY : option string.
Variable Client : Type.
Variable GoogleGenAI : string -> Thrown + Client.
Variable generateContent : Client -> string -> string -> Thrown + option string.

(** [handleSummarize], on the state [summaries] (a record from URL to
    summary): nothing happens for an empty text; [summarizePropertyListing]
    never rejects, so the [catch] clause is not entered. *)
Definition handleSummarize (url text : string) (summaries : gmap string string)
    : gmap string string :=
  if negb (Js.truthy text) then summaries
  else
    let summary := summarizePropertyListing API_KEY Client GoogleGenAI generateContent text in
    <[url := summary]> summaries.

End Summaries.

(** A code unit that a file name may hold after [archiveName]. *)
Definition name_char (c : ascii) : bool := Js.is_alnum c || Ascii.eqb c "_".

(** An ASCII letter or digit as it is, an underscore for anything else. *)
Definition plain_char (c : ascii) : ascii := if Js.is_alnum c then c else "_".

(** What the element [el] names as a picture: the value of one of the six
    attributes, if it looks like a picture, or the URL of its inline
    style. *)
Definition named_by (el : Dom.Node) (c : string) : Prop :=
  (exists attr,
      In attr attrs /\ Dom.getAttribute el attr = Some c /\ Js.truthy c = true
      /\ Regex.test Patterns.image_extension c || Js.includes c "images.prop24" = true)
  \/ (exists style,
        Dom.getAttribute el "style" = Some style /\ Js.truthy style = true
        /\ Js.includes style "url(" = true
        /\ Regex.search Patterns.style_url 0 style = Some (Some c)).

(** ** The texts a regular expression matches *)

(** [lang r w]: the pattern [r] can match the text [w]; the assertions
    match the empty text. *)
Fixpoint lang (r : Regex.re) (w : string) : Prop :=
  match r with
  | Regex.Eps | Regex.Bol | Regex.Eol => w = EmptyString
  | Regex.Cls p => exists c, w = String c EmptyString /\ p c = true
  | Regex.Seq r1 r2 => exists w1 w2, w = w1 +:+ w2 /\ lang r1 w1 /\ lang r2 w2
  | Regex.Alt r1 r2 => lang r1 w \/ lang r2 w
  | Regex.Opt r1 => lang r1 w \/ w = EmptyString
  | Regex.Star p | Regex.StarLazy p => Js.forallb p w = true
  | Regex.Group r1 => lang r1 w
  end.

(** [r] has no capture group. *)
Fixpoint groupless (r : Regex.re) : bool :=
  match r with
  | Regex.Seq r1 r2 | Regex.Alt r1 r2 => groupless r1 && groupless r2
  | Regex.Opt r1 => groupless r1
  | Regex.Group _ => false
  | _ => true
  end.

(** The 256 code units. *)
Definition all_ascii : list ascii := List.map ascii_of_nat (List.seq 0 256).

(** Every code unit of the class [p] is in the class [q]. *)
Definition subclass (p q : ascii -> bool) : bool :=
  List.forallb (fun c => implb (p c) (q c)) all_ascii.

(** Every class of [r] is a subclass of [q]. *)
Fixpoint within (q : ascii -> bool) (r : Regex.re) : bool :=
  match r with
  | Regex.Cls p | Regex.Star p | Regex.StarLazy p => subclass p q
  | Regex.Seq r1 r2 | Regex.Alt r1 r2 => within q r1 && within q r2
  | Regex.Opt r1 | Regex.Group r1 => within q r1
  | _ => true
  end.

(** [c] occurs in [s]. *)
Definition part_of (c s : string) : Prop :=
  exists before after, s = before +:+ c +:+ after.

(** [c] begins with [http], in any letter case. *)
Definition begins_http (c : string) : bool :=
  Js.startsWith (Js.map Js.to_upper c) "HTTP".

(** The body an HTTP-successful answer delivers. *)
Definition body_of (answer : Thrown + Response) : option string :=
  match answer with
  | inl _ => None
  | inr response =>
      if ok response then
        match body_text response with
        | inl _ => None
        | inr body => Some body
        end
      else None
  end.

(** The last body delivered among [answers], or [before] when none is. *)
Definition last_body (before : string) (answers : list (Thrown + Response)) : string :=
  List.fold_left
    (fun acc answer => match body_of answer with Some body => body | None => acc end)
    answers before.

(** The characters a URI component is encoded into. *)
Definition component_char (c : ascii) : bool := uri_unreserved c || Ascii.eqb c "%".

(** A listing that was scraped, and the record of a scrape of the same
    URL that failed. *)
Definition scraped (u : string) : ScrapedData :=
  mkScrapedData u [] "Two bedrooms" "Listing" None None.

(** ** [App.tsx]: the archive as it is listed *)

Section ArchiveListing.

Variable Blob : Type.
Variable fetchBlob : nat -> string -> option Blob.

(** [folder.file(name, data)] on the entries of the archive in the order in
    which JSZip keeps them, that of the first addition of each name: an
    entry added under a name that is there already takes the place of the
    old one. *)
Definition addFile (name : string) (e : Entry Blob) (files : list (string * Entry Blob))
    : list (string * Entry Blob) :=
  if List.existsb (fun kv => String.eqb (fst kv) name) files
  then List.map (fun kv => if String.eqb (fst kv) name then (name, e) else kv) files
  else files ++ [(name, e)].

(** The callback of [data.images.map(async (imgUrl, index) => ...)], run to
    completion on the listed entries. *)
Definition storeImageInOrder (images : list string) (files : list (string * Entry Blob))
    (index : nat) : list (string * Entry Blob) :=
  match images !! index with
  | None => files
  | Some imgUrl =>
      let proxyUrl := "https://api.allorigins.win/raw?url=" +:+ encodeURIComponent imgUrl in
      match fetchBlob index proxyUrl with
      | Some blob => addFile (imagePath index imgUrl) (File Blob blob) files
      | None => files
      end
  end.

(** The entries of the archive that [handleDownloadImages] hands to
    [saveAs], as listed, when the callbacks complete in the order
    [completion]. *)
Definition archiveEntries (completion : list nat) (data : ScrapedData)
    : list (string * Entry Blob) :=
  List.fold_left (storeImageInOrder (images data)) completion [("images/", Folder Blob)].

(** The file that the download of the picture at [index] leaves, if it
    succeeds. *)
Definition downloaded (images : list string) (index : nat) : option (string * Entry Blob) :=
  match images !! index with
  | None => None
  | Some imgUrl =>
      match fetchBlob index ("https://api.allorigins.win/raw?url=" +:+ encodeURIComponent imgUrl)
      with
      | Some blob => Some (imagePath index imgUrl, File Blob blob)
      | None => None
      end
  end.

End ArchiveListing.

(** [s] contains [part], a text in lower case, in any letter case. *)
Definition includes_i (s part : string) : bool :=
  Js.includes (Js.map Js.to_lower s) part.

(** [s] begins with one of the three extensions, in any letter case. *)
Definition extension_at (s : string) : bool :=
  Js.startsWith (Js.map Js.to_lower s) ".jpg"
  || Js.startsWith (Js.map Js.to_lower s) ".png"
  || Js.startsWith (Js.map Js.to_lower s) ".webp".

(** The value of an attribute looks like a picture: it contains [.jpg],
    [.png] or [.webp] in any letter case, or [images.prop24]. *)
Definition looks_like_picture (val : string) : bool :=
  includes_i val ".jpg" || includes_i val ".png" || includes_i val ".webp"
  || Js.includes val "images.prop24".

(** Nothing, or one quote. *)
Definition optional_quote (q : string) : Prop :=
  q = EmptyString \/ q = "'" \/ q = String Js.dquote EmptyString.

(* ===================================================================== *)
(** * Properties *)
(* ===================================================================== *)

(** ** Strings *)

Lemma startsWith_app (s a b : string) :
  Js.startsWith s (a +:+ b) = true -> Js.startsWith s a = true.
Proof.
  revert s; induction a as [|c a IH]; intros s H; [destruct s; reflexivity|].
  destruct s as [|d s]; simpl in *; [discriminate|].
  apply andb_true_iff in H as [-> H]. simpl. eauto.
Qed.

Lemma includes_app (s a b : string) :
  Js.includes s (a +:+ b) = true -> Js.includes s a = true.
Proof.
  induction s as [|c s IH]; cbn [Js.includes]; intros H.
  - apply orb_true_iff in H as [H|H]; [|discriminate].
    apply startsWith_app in H. rewrite H. reflexivity.
  - apply orb_true_iff in H as [H|H].
    + apply startsWith_app in H. rewrite H. reflexivity.
    + rewrite (IH H). apply orb_true_r.
Qed.

Lemma take_length (n : nat) (s : string) : String.length (Js.take n s) <= n.
Proof.
  revert s; induction n as [|n IH]; intros [|c s]; simpl; try lia.
  specialize (IH s). lia.
Qed.

Lemma substring_length (a b : nat) (s : string) :
  String.length (Js.substring a b s) <= b - a.
Proof. apply take_length. Qed.

(** ** The filter of [cleanImages] *)

Section Filter.

Variable unicodeToASCII : string -> option string.

Lemma In_cleanImages (images : list string) (baseUrl u : string) :
  In u (cleanImages unicodeToASCII images baseUrl) <->
  (exists raw, In raw images /\ cleanImage unicodeToASCII baseUrl raw = Some u)
  /\ keepImage u = true.
Proof.
  unfold cleanImages. rewrite filter_In, <- list_elem_of_In, list_elem_of_omap.
  setoid_rewrite list_elem_of_In. reflexivity.
Qed.

Lemma keepImage_http (u : string) : keepImage u = true -> Js.startsWith u "http" = true.
Proof. unfold keepImage. destruct (Js.startsWith u "http"); [reflexivity|discriminate]. Qed.

Lemma keepImage_not_denied (u : string) : keepImage u = true -> denied u = false.
Proof.
  unfold keepImage, denied, denylist. simpl.
  destruct (Js.startsWith u "http"); simpl; [|discriminate].
  destruct (Js.includes u ".svg"), (Js.includes u "tracker"), (Js.includes u "analytics"),
    (Js.includes u "facebook"), (Js.includes u "google"), (Js.includes u "whatsapp");
    simpl; congruence.
Qed.

Lemma keepImage_allowlisted (u : string) :
  Js.startsWith u "http" = true -> denied u = false ->
  Js.includes u "images.prop24.com" = true -> keepImage u = true.
Proof.
  unfold keepImage, denied, denylist. simpl. intros -> H ->. simpl.
  destruct (Js.includes u ".svg"), (Js.includes u "tracker"), (Js.includes u "analytics"),
    (Js.includes u "facebook"), (Js.includes u "google"), (Js.includes u "whatsapp");
    simpl in *; congruence.
Qed.

Lemma keepImage_logo (u : string) :
  Js.includes u "logo" = true -> Js.includes u "property" = false ->
  Js.includes u "images.prop24.com" = false -> keepImage u = false.
Proof.
  intros Hlogo Hprop Hallow. unfold keepImage.
  assert (Js.includes u "property24" = false) as H24.
  { destruct (Js.includes u "property24") eqn:E; [|reflexivity].
    apply (includes_app u "property" "24") in E. congruence. }
  rewrite Hlogo, Hprop, Hallow, H24. simpl.
  destruct (negb _); [reflexivity|]. destruct (_ || _); [reflexivity|].
  rewrite orb_true_r. reflexivity.
Qed.

End Filter.

(** ** What [scrapeUrl] returns *)

Section Results.

Variable unicodeToASCII : string -> option string.
Variable fetch : string -> Thrown + Response.
Variable parseFromString : string -> Dom.Document.

(** The three shapes of a result: the local service's payload, a relay's
    page, or the error record. *)
Lemma scrapeUrl_cases (url : string) :
  (exists data imgs, p_images data = Some imgs /\
     scrapeUrl unicodeToASCII fetch parseFromString url
     = mkScrapedData url (cleanImages unicodeToASCII imgs url)
         (Js.opt_or_else (p_text data) "")
         (Js.opt_or_else (p_title data) "Extracted Property")
         (p_price data) None)
  \/ (exists html x,
        acquireHtml fetch url = inr html /\
        extractTextFromHtml parseFromString html = inr x /\
        scrapeUrl unicodeToASCII fetch parseFromString url
        = mkScrapedData url
            (cleanImages unicodeToASCII (collectCandidates parseFromString html) url)
            (e_text x) (e_title x) (e_price x) None)
  \/ (exists e,
        scrapeViaProxies unicodeToASCII fetch parseFromString url = inl e /\
        scrapeUrl unicodeToASCII fetch parseFromString url
        = mkScrapedData url [] "" "Error" None
            (Some (match e with Err m => m | NotErr _ => "Unknown error" end))).
Proof.
  unfold scrapeUrl.
  destruct (scrapeLocal unicodeToASCII fetch url) as [d|] eqn:E.
  - left. unfold scrapeLocal in E.
    repeat case_match; simplify_eq. eexists _, _. split; [eassumption|reflexivity].
  - right. unfold scrapeViaProxies.
    destruct (acquireHtml fetch url) as [e|html]; [right; eauto|].
    destruct (extractTextFromHtml parseFromString html) as [e|x] eqn:Ex; [right; eauto|].
    left. eauto.
Qed.

Lemma scrapeUrl_images (url u : string) :
  In u (images (scrapeUrl unicodeToASCII fetch parseFromString url)) ->
  exists candidates, In u (cleanImages unicodeToASCII candidates url).
Proof.
  destruct (scrapeUrl_cases url) as [(data & imgs & _ & ->)|[(html & x & _ & _ & ->)|(e & _ & ->)]];
    simpl; intros H; eauto. contradiction.
Qed.

End Results.

(** ** C1: the relay chain *)

(** C1 (the code at the failing input).  The first relay answers with an
    HTTP-successful body of 13 code units and the other two are
    unreachable: no body was accepted, yet [html] holds the short body, the
    test [!html] does not fire, and the page is scraped as content. *)
Theorem short_body_is_scraped :
  acquireHtml (relays (page refusal) unreachable unreachable) "https://site.com/x"
  = inr refusal
  /\ String.length refusal = 13
  /\ scrapeUrl plainASCII (relays (page refusal) unreachable unreachable) textOnlyPage
       "https://site.com/x"
     = mkScrapedData "https://site.com/x" [] refusal "Untitled" (Some "") None.
Proof. repeat split; vm_compute; reflexivity. Qed.

(** What the relay loop does right: the first accepted answer ends it,
    and its body is the HTML. *)
Lemma first_accepted_relay_wins (fetch : string -> Thrown + Response)
    (before after : list (string -> string)) (p : string -> string) (url body : string)
    (st : Relay) :
  Forall (fun q => forall b, ~ accepted (fetch (q url)) b) before ->
  accepted (fetch (p url)) body ->
  html (tryProxies fetch (before ++ p :: after) url st) = body
  /\ usedProxy (tryProxies fetch (before ++ p :: after) url st) = p url.
Proof.
  intros Hbefore (response & Hfetch & Hok & Htext & Hlen).
  assert (Js.truthy body && (500 <? String.length body)%nat = true) as Hbody.
  { apply andb_true_iff. split; [destruct body; [simpl in Hlen; lia|reflexivity]|].
    apply Nat.ltb_lt. exact Hlen. }
  revert st; induction Hbefore as [|q before Hq _ IH]; intros st; simpl.
  - unfold fetchWithTimeout. rewrite Hfetch, Hok, Htext, Hbody. split; reflexivity.
  - unfold fetchWithTimeout. destruct (fetch (q url)) as [e|r] eqn:Eq; [apply IH|].
    destruct (ok r) eqn:Er; [|apply IH].
    destruct (body_text r) as [e|b] eqn:Eb; [apply IH|].
    destruct (Js.truthy b && (500 <? String.length b)%nat) eqn:Et; [|apply IH].
    exfalso. apply (Hq b). exists r. repeat split; try assumption.
    apply andb_true_iff in Et as [_ Et]. apply Nat.ltb_lt. exact Et.
Qed.

(** When every relay is unreachable, the error thrown carries the message
    of the last rejection. *)
Lemma unreachable_relays_throw_last_error (fetch : string -> Thrown + Response)
    (url : string) (e1 e2 e3 : Thrown) :
  fetch ("https://corsproxy.io/?" +:+ encodeURIComponent url) = inl e1 ->
  fetch ("https://api.codetabs.com/v1/proxy?quest=" +:+ encodeURIComponent url) = inl e2 ->
  fetch ("https://api.allorigins.win/raw?url=" +:+ encodeURIComponent url) = inl e3 ->
  acquireHtml fetch url = inl (failed_to_fetch (Some e3)).
Proof.
  intros H1 H2 H3. unfold acquireHtml, PROXY_PROVIDERS. cbn [tryProxies].
  unfold fetchWithTimeout. rewrite H1, H2, H3. reflexivity.
Qed.

(** ** C2: the scheme of the images *)

(** What the filter does guarantee.  Every string in the [images] of a
    result of [scrapeUrl] begins with the four code units [http]: that is
    the test of the filter, [url.startsWith('http')].  The string is either
    [https:] followed by a protocol-relative candidate, which is not
    parsed, or the [href] of the URL that [new URL] made of a candidate and
    the page's URL. *)
Lemma images_start_with_http
    (unicodeToASCII : string -> option string) (fetch : string -> Thrown + Response)
    (parseFromString : string -> Dom.Document) (url u : string) :
  In u (images (scrapeUrl unicodeToASCII fetch parseFromString url)) ->
  Js.startsWith u "http" = true
  /\ ((exists raw, Js.startsWith raw "//" = true /\ u = "https:" +:+ raw)
      \/ (exists cleanUrl parsed,
            Whatwg.URL_new unicodeToASCII cleanUrl (Some url) = Some parsed
            /\ u = Whatwg.href parsed)).
Proof.
  intros H. apply scrapeUrl_images in H as [candidates H].
  apply In_cleanImages in H as [(raw & _ & Hraw) H]. split; [exact (keepImage_http u H)|].
  unfold cleanImage in Hraw. destruct (Js.startsWith raw "//") eqn:E.
  - left. exists raw. split; [exact E|]. congruence.
  - right. unfold resolve in Hraw.
    destruct (Whatwg.URL_new unicodeToASCII _ (Some url)) as [parsed|] eqn:Ep;
      [|discriminate].
    injection Hraw as <-. eauto.
Qed.

(** The first branch of the normalizer hands a protocol-relative candidate
    on behind [https:] without parsing it, whatever follows the two
    slashes. *)
Lemma protocol_relative_is_not_parsed
    (unicodeToASCII : string -> option string) (baseUrl raw : string) :
  Js.startsWith raw "//" = true ->
  cleanImage unicodeToASCII baseUrl raw = Some ("https:" +:+ raw).
Proof. unfold cleanImage. intros ->. reflexivity. Qed.

(** C2 (the code at the failing input).  The page shows one picture whose
    URL has the scheme [httpx]: [new URL] parses it, its [href] begins with
    the code units [http], so the test [url.startsWith('http')] lets it
    pass, and the result lists a URL whose scheme is neither [http] nor
    [https]. *)
Theorem image_of_another_scheme_is_listed :
  images (scrapeUrl plainASCII (imageSite "httpx://a/b.jpg")
            (parseImagePage "httpx://a/b.jpg") "https://site.com/x")
  = ["httpx://a/b.jpg"]
  /\ cleanImage plainASCII "https://site.com/x" "httpx://a/b.jpg" = Some "httpx://a/b.jpg"
  /\ keepImage "httpx://a/b.jpg" = true
  /\ option_map Whatwg.scheme (Whatwg.URL_new plainASCII "httpx://a/b.jpg" None)
     = Some "httpx"
  /\ isHttpUrl plainASCII "httpx://a/b.jpg" = false.
Proof. repeat split; vm_compute; reflexivity. Qed.

(** ** C3: the length of the body text *)

(** C3 (the code at the failing input).  The local service answers with a
    text of 10001 code units, and the result carries all of them. *)
Theorem local_text_is_not_truncated :
  String.length
    (text (scrapeUrl plainASCII (localService longPayload) textOnlyPage "https://site.com/x"))
  = 100 * 100 + 1.
Proof. vm_compute. reflexivity. Qed.

(** On the relay path the text is cut to 10000 code units. *)
Lemma extracted_text_is_short (parseFromString : string -> Dom.Document) (html : string)
    (x : Extracted) :
  extractTextFromHtml parseFromString html = inr x -> String.length (e_text x) <= 100 * 100.
Proof.
  unfold extractTextFromHtml. destruct (Dom.body _) as [b|]; [|discriminate].
  intros [= <-]. cbn [e_text]. unfold Js.or_else.
  destruct (Js.truthy _); [|simpl; lia].
  etransitivity; [apply substring_length|lia].
Qed.

(** ** C4: the error record *)

(** C4.  A result of [scrapeUrl] that has an [error] has no images and an
    empty text.  When the local service gives nothing and the relay chain
    throws, [scrapeUrl] returns that record, its [error] the message of
    what was thrown: [scrapeUrl] itself returns a record on every input,
    and the results [handleScrape] collects are its results. *)
Theorem error_result_is_empty
    (unicodeToASCII : string -> option string) (fetch : string -> Thrown + Response)
    (parseFromString : string -> Dom.Document) (url : string) :
  (forall e, error (scrapeUrl unicodeToASCII fetch parseFromString url) = Some e ->
             images (scrapeUrl unicodeToASCII fetch parseFromString url) = []
             /\ text (scrapeUrl unicodeToASCII fetch parseFromString url) = "")
  /\ (forall e, scrapeLocal unicodeToASCII fetch url = None ->
                acquireHtml fetch url = inl e ->
                exists m, e = Err m /\ Js.truthy m = true /\
                  scrapeUrl unicodeToASCII fetch parseFromString url
                  = mkScrapedData url [] "" "Error" None (Some m))
  /\ (forall inputUrls statuses results,
        handleScrape unicodeToASCII fetch parseFromString inputUrls = Some (statuses, results) ->
        results = List.map (scrapeUrl unicodeToASCII fetch parseFromString)
                    (submittedUrls unicodeToASCII inputUrls)).
Proof.
  split; [|split].
  - intros e.
    destruct (scrapeUrl_cases unicodeToASCII fetch parseFromString url)
      as [(data & imgs & _ & ->)|[(html & x & _ & _ & ->)|(e' & _ & ->)]]; simpl;
      try discriminate. intros _. split; reflexivity.
  - intros e Hlocal Hacq. unfold scrapeUrl, scrapeViaProxies. rewrite Hlocal, Hacq.
    unfold acquireHtml in Hacq. destruct (negb _); [|discriminate].
    injection Hacq as <-. unfold failed_to_fetch. eexists. split; [reflexivity|].
    split; reflexivity.
  - intros inputUrls statuses results. unfold handleScrape.
    destruct (submittedUrls unicodeToASCII inputUrls); [discriminate|].
    intros [= _ <-]. reflexivity.
Qed.

(** C4 on a network where nothing is reachable. *)
Lemma error_result_is_empty_witness :
  error (scrapeUrl plainASCII (fun _ => unreachable) textOnlyPage "https://site.com/x")
  = Some ALL_UNREACHABLE
  /\ images (scrapeUrl plainASCII (fun _ => unreachable) textOnlyPage "https://site.com/x") = []
  /\ text (scrapeUrl plainASCII (fun _ => unreachable) textOnlyPage "https://site.com/x") = "".
Proof.
  split; [vm_compute; reflexivity|].
  apply (proj1 (error_result_is_empty plainASCII (fun _ => unreachable) textOnlyPage
                  "https://site.com/x")
           ALL_UNREACHABLE).
  vm_compute. reflexivity.
Defined.

(** ** C5: the URL validator *)

(** *** What the states of the parser keep *)

Section ParserInvariants.

Import Whatwg.

Variable unicodeToASCII : string -> option string.

Lemma keeps_refl (u : URL) : keeps u u.
Proof. split; reflexivity. Qed.

Lemma keeps_trans (u v w : URL) : keeps u v -> keeps v w -> keeps u w.
Proof. intros [? ?] [? ?]. split; congruence. Qed.

Lemma fragment_state_keeps (u : URL) (rest : string) : keeps u (fragment_state u rest).
Proof. split; reflexivity. Qed.

Lemma query_state_keeps (u : URL) (buffer rest : string) :
  keeps u (query_state u buffer rest).
Proof.
  revert u buffer; induction rest as [|c rest IH]; intros u buffer; simpl.
  - split; reflexivity.
  - destruct (Ascii.eqb c "#"); [split; reflexivity|apply IH].
Qed.

Lemma set_query_keeps (u : URL) (q : option string) : keeps u (set_query u q).
Proof. split; reflexivity. Qed.

Lemma shorten_path_keeps (u : URL) : keeps u (shorten_path u).
Proof.
  unfold shorten_path. destruct (path u) as [p|[|d [|e l]]]; try (split; reflexivity).
  destruct (_ && _); split; reflexivity.
Qed.

Lemma end_segment_keeps (u : URL) (buffer : string) (slash : bool) :
  keeps u (end_segment u buffer slash).
Proof.
  unfold end_segment.
  destruct (is_double_dot buffer).
  { destruct slash; [apply shorten_path_keeps|].
    eapply keeps_trans; [apply shorten_path_keeps|split; reflexivity]. }
  destruct (is_single_dot buffer); [destruct slash; split; reflexivity|].
  split; reflexivity.
Qed.

Lemma path_state_keeps (u : URL) (buffer rest : string) :
  keeps u (path_state u buffer rest).
Proof.
  revert u buffer; induction rest as [|c rest IH]; intros u buffer; simpl.
  - apply end_segment_keeps.
  - destruct (_ || _).
    { eapply keeps_trans; [apply end_segment_keeps|apply IH]. }
    destruct (Ascii.eqb c "?").
    { eapply keeps_trans; [apply end_segment_keeps|].
      eapply keeps_trans; [|apply query_state_keeps]. split; reflexivity. }
    destruct (Ascii.eqb c "#").
    { eapply keeps_trans; [apply end_segment_keeps|apply fragment_state_keeps]. }
    apply IH.
Qed.

Lemma opaque_path_state_keeps (u : URL) (rest : string) :
  keeps u (opaque_path_state u rest).
Proof.
  revert u; induction rest as [|c rest IH]; intros u; simpl; [apply keeps_refl|].
  assert (forall t, keeps u (append_opaque u t)) as Happ.
  { intros t. unfold append_opaque. destruct (path u); split; reflexivity. }
  destruct (Ascii.eqb c "?").
  { eapply keeps_trans; [|apply query_state_keeps]. split; reflexivity. }
  destruct (Ascii.eqb c "#"); [apply fragment_state_keeps|].
  destruct (Ascii.eqb c " "); [destruct (_ || _)|];
    (eapply keeps_trans; [apply Happ|apply IH]).
Qed.

Lemma path_start_state_keeps (u : URL) (rest : string) :
  keeps u (path_start_state u rest).
Proof.
  unfold path_start_state. destruct rest as [|c rest].
  - destruct (is_special u); [apply path_state_keeps|apply keeps_refl].
  - destruct (is_special u).
    { destruct (_ || _); apply path_state_keeps. }
    destruct (Ascii.eqb c "?").
    { eapply keeps_trans; [|apply query_state_keeps]. split; reflexivity. }
    destruct (Ascii.eqb c "#"); [apply fragment_state_keeps|].
    destruct (Ascii.eqb c "/"); apply path_state_keeps.
Qed.

Lemma end_port_keeps (u u' : URL) (buffer rest : string) :
  end_port u buffer rest = Some u' -> keeps u u'.
Proof.
  unfold end_port. intros H. destruct buffer.
  - injection H as <-. apply path_start_state_keeps.
  - cbv zeta in H. destruct (_ <? _)%N; [discriminate|]. injection H as <-.
    eapply keeps_trans; [|apply path_start_state_keeps].
    destruct (decide _); split; reflexivity.
Qed.

Lemma port_state_keeps (u u' : URL) (buffer rest : string) :
  port_state u buffer rest = Some u' -> keeps u u'.
Proof.
  revert buffer; induction rest as [|c rest IH]; intros buffer; simpl.
  - apply end_port_keeps.
  - destruct (Js.is_digit c); [apply IH|].
    destruct (ends_authority u c); [apply end_port_keeps|discriminate].
Qed.

Lemma keeps_hosted (u v w : URL) :
  scheme v = scheme u -> is_Some (host v) -> keeps v w -> hosted u w.
Proof. intros Hs Hh [? ?]. split; [congruence|]. rewrite H0. exact Hh. Qed.

Lemma end_host_hosted (u u' : URL) (buffer rest : string) :
  end_host unicodeToASCII u buffer rest = Some u' -> hosted u u'.
Proof.
  unfold end_host. destruct (_ && _); [discriminate|].
  destruct (parse_host _ _ _) as [h|]; [|discriminate]. intros [= <-].
  eapply keeps_hosted; [| |apply path_start_state_keeps]; [reflexivity|eexists; reflexivity].
Qed.

Lemma host_state_hosted (u u' : URL) (buffer : string) (inside : bool) (rest : string) :
  host_state unicodeToASCII u buffer inside rest = Some u' -> hosted u u'.
Proof.
  revert buffer inside; induction rest as [|c rest IH]; intros buffer inside; simpl.
  - apply end_host_hosted.
  - destruct (_ && _).
    { destruct (negb _); [discriminate|].
      destruct (parse_host _ _ _) as [h|]; [|discriminate]. intros H.
      eapply keeps_hosted; [| |apply (port_state_keeps _ _ _ _ H)];
        [reflexivity|eexists; reflexivity]. }
    destruct (ends_authority u c); [apply end_host_hosted|apply IH].
Qed.

Lemma credentials_scheme (u : URL) (seen : bool) (buffer : string) :
  scheme (fst (credentials u seen buffer)) = scheme u.
Proof.
  revert u seen; induction buffer as [|c buffer IH]; intros u seen; simpl; [reflexivity|].
  destruct (_ && _); [apply IH|]. destruct seen; rewrite IH; reflexivity.
Qed.

Lemma authority_state_hosted (u u' : URL) (start buffer : string) (at_ seen : bool)
    (rest : string) :
  authority_state unicodeToASCII u start buffer at_ seen rest = Some u' -> hosted u u'.
Proof.
  revert u start buffer at_ seen; induction rest as [|c rest IH];
    intros u start buffer at_ seen; simpl.
  - unfold end_authority. destruct (_ && _); [discriminate|apply host_state_hosted].
  - destruct (Ascii.eqb c "@").
    { destruct (credentials u seen _) as [u1 seen1] eqn:E. intros H.
      apply IH in H as [Hs Hh]. split; [|exact Hh].
      rewrite Hs. change u1 with (fst (u1, seen1)). rewrite <- E. apply credentials_scheme. }
    destruct (ends_authority u c); [|apply IH].
    unfold end_authority. destruct (_ && _); [discriminate|apply host_state_hosted].
Qed.

Lemma special_authority_ignore_slashes_state_hosted (u u' : URL) (rest : string) :
  special_authority_ignore_slashes_state unicodeToASCII u rest = Some u' -> hosted u u'.
Proof.
  induction rest as [|c rest IH]; simpl.
  - apply authority_state_hosted.
  - destruct (_ || _); [apply IH|apply authority_state_hosted].
Qed.

Lemma special_authority_slashes_state_hosted (u u' : URL) (rest : string) :
  special_authority_slashes_state unicodeToASCII u rest = Some u' -> hosted u u'.
Proof.
  unfold special_authority_slashes_state.
  destruct (Js.startsWith rest "//"); apply special_authority_ignore_slashes_state_hosted.
Qed.

Lemma end_file_host_scheme (u u' : URL) (buffer rest : string) :
  end_file_host unicodeToASCII u buffer rest = Some u' -> scheme u' = scheme u.
Proof.
  unfold end_file_host. destruct (is_windows_drive_letter buffer).
  { intros [= <-]. apply path_state_keeps. }
  destruct buffer.
  { intros [= <-]. apply (path_start_state_keeps (set_host u (Some EmptyHost))). }
  destruct (parse_host _ _ _) as [h|]; [|discriminate]. intros [= <-].
  apply (path_start_state_keeps (set_host u _)).
Qed.

Lemma file_host_state_scheme (u u' : URL) (buffer rest : string) :
  file_host_state unicodeToASCII u buffer rest = Some u' -> scheme u' = scheme u.
Proof.
  revert buffer; induction rest as [|c rest IH]; intros buffer; simpl.
  - apply end_file_host_scheme.
  - destruct (Regex.one_of _ c); [apply end_file_host_scheme|apply IH].
Qed.

Lemma file_state_scheme (u' : URL) (rest : string) :
  file_state unicodeToASCII None rest = Some u' -> scheme u' = "file".
Proof.
  pose (u := set_host (set_scheme blank "file") (Some EmptyHost)).
  assert (forall b r, Some (path_state u b r) = Some u' -> scheme u' = "file") as Hpath.
  { intros b r [= <-]. apply (path_state_keeps u). }
  unfold file_state. fold u. destruct rest as [|c rest]; [apply Hpath|].
  destruct (_ || _); [|apply Hpath].
  unfold file_slash_state. destruct rest as [|d rest]; [apply Hpath|].
  destruct (_ || _); [|apply Hpath].
  intros H. apply file_host_state_scheme in H. exact H.
Qed.

Lemma path_state_some (u u' : URL) (buffer rest : string) :
  Some (path_state u buffer rest) = Some u' -> scheme u' = scheme u.
Proof.
  intros H. assert (path_state u buffer rest = u') as <- by congruence.
  apply path_state_keeps.
Qed.

Lemma opaque_path_state_some (u u' : URL) (rest : string) :
  Some (opaque_path_state u rest) = Some u' -> scheme u' = scheme u.
Proof.
  intros H. assert (opaque_path_state u rest = u') as <- by congruence.
  apply opaque_path_state_keeps.
Qed.

Lemma path_or_authority_state_scheme (u u' : URL) (rest : string) :
  path_or_authority_state unicodeToASCII u rest = Some u' -> scheme u' = scheme u.
Proof.
  unfold path_or_authority_state, enter_authority.
  destruct rest as [|c rest]; [exact (path_state_some u u' EmptyString EmptyString)|].
  destruct (Ascii.eqb_spec c "/") as [->|Hc].
  - intros H. apply authority_state_hosted in H as [H _]. exact H.
  - pose proof (path_state_some u u' EmptyString (String c rest)) as Hp.
    destruct c as [[] [] [] [] [] [] [] []]; try exact Hp. contradiction.
Qed.

(** A URL parsed without a base has the scheme the input begins with, and
    a host when that scheme is special and not [file]. *)
Lemma after_scheme_no_base (u' : URL) (buffer rest : string) :
  after_scheme unicodeToASCII None buffer rest = Some u' ->
  scheme u' = buffer
  /\ (is_special_scheme buffer = true -> buffer <> "file" -> is_Some (host u')).
Proof.
  unfold after_scheme. destruct (String.eqb_spec buffer "file") as [->|Hfile].
  { intros H. apply file_state_scheme in H. split; [exact H|congruence]. }
  unfold is_special. cbn [scheme set_scheme blank].
  destruct (is_special_scheme buffer) eqn:Hsp.
  { intros H. apply special_authority_slashes_state_hosted in H as [Hs Hh].
    split; [exact Hs|intros _ _; exact Hh]. }
  assert (forall v, scheme v = buffer ->
            scheme v = buffer /\ (false = true -> buffer <> "file" -> is_Some (host v))) as Hok
    by (intros v Hv; split; [exact Hv|discriminate]).
  pose (u0 := set_path (set_scheme blank buffer) (OpaquePath EmptyString)).
  destruct rest as [|c rest].
  { intros H. apply Hok. exact (opaque_path_state_some u0 u' EmptyString H). }
  destruct (Ascii.eqb_spec c "/") as [->|Hc].
  - intros H. apply path_or_authority_state_scheme in H. apply Hok. exact H.
  - assert (Some (opaque_path_state u0 (String c rest)) = Some u' ->
            scheme u' = buffer /\ (false = true -> buffer <> "file" -> is_Some (host u'))) as Hp.
    { intros H. apply Hok. exact (opaque_path_state_some u0 u' _ H). }
    destruct c as [[] [] [] [] [] [] [] []]; try exact Hp. contradiction.
Qed.

Lemma scheme_state_no_base (u' : URL) (input buffer rest : string) :
  scheme_state unicodeToASCII None input buffer rest = Some u' ->
  scheme_tail rest = true
  /\ (is_special u' = true -> scheme u' <> "file" -> is_Some (host u')).
Proof.
  revert buffer; induction rest as [|c rest IH]; intros buffer; simpl; [discriminate|].
  destruct (_ || _); [apply IH|].
  destruct (Ascii.eqb c ":"); [|discriminate].
  intros H. apply after_scheme_no_base in H as [Hs Hh]. split; [reflexivity|].
  unfold is_special. rewrite Hs. exact Hh.
Qed.

Lemma URL_new_no_base (input : string) (u : URL) :
  URL_new unicodeToASCII input None = Some u ->
  begins_with_scheme (preprocess input) = true
  /\ (is_special u = true -> scheme u <> "file" -> is_Some (host u)).
Proof.
  unfold URL_new, basic_url_parse, scheme_start_state, begins_with_scheme.
  destruct (preprocess input) as [|c rest]; [discriminate|].
  destruct (Js.is_alpha c); [|discriminate].
  intros H. apply scheme_state_no_base in H. exact H.
Qed.

End ParserInvariants.

(** C5 (amended).  [isValidUrl s] is true exactly when [new URL(s)] does
    not throw.  Then [s], once its leading and trailing C0 controls and
    spaces are stripped and its tabs and newlines removed, begins with a
    scheme and a colon; the URL has a host when its scheme is [http],
    [https], [ftp], [ws] or [wss], and need not have one otherwise.  The
    validator rejects ["not a url"] and the empty string, and it reads
    nothing but its argument: no network stands behind it. *)
Theorem isValidUrl_accepts_what_parses (unicodeToASCII : string -> option string) :
  (forall s, isValidUrl unicodeToASCII s = true <->
             exists u, Whatwg.URL_new unicodeToASCII s None = Some u)
  /\ (forall s, isValidUrl unicodeToASCII s = true ->
                begins_with_scheme (Whatwg.preprocess s) = true)
  /\ (forall s u, Whatwg.URL_new unicodeToASCII s None = Some u ->
                  Whatwg.is_special u = true -> Whatwg.scheme u <> "file" ->
                  is_Some (Whatwg.host u))
  /\ isValidUrl unicodeToASCII "not a url" = false
  /\ isValidUrl unicodeToASCII "" = false.
Proof.
  split; [|split; [|split; [|split; reflexivity]]].
  - intros s. unfold isValidUrl.
    destruct (Whatwg.URL_new unicodeToASCII s None) as [u|]; split;
      try discriminate; eauto. intros [u [=]].
  - intros s. unfold isValidUrl.
    destruct (Whatwg.URL_new unicodeToASCII s None) as [u|] eqn:E; [|discriminate].
    intros _. exact (proj1 (URL_new_no_base unicodeToASCII s u E)).
  - intros s u E. exact (proj2 (URL_new_no_base unicodeToASCII s u E)).
Qed.

(** C5 as stated fails: a URL without a host is valid. *)
Lemma hostless_url_is_valid :
  isValidUrl plainASCII "mailto:a" = true
  /\ option_map Whatwg.host (Whatwg.URL_new plainASCII "mailto:a" None) = Some None
  /\ option_map Whatwg.href (Whatwg.URL_new plainASCII "mailto:a" None) = Some "mailto:a".
Proof. repeat split; vm_compute; reflexivity. Qed.

(** ** C6: duplicates among the images *)

(** C6 (the code at the failing input).  A page names one picture twice,
    once with escaped slashes.  The two spellings are distinct members of
    [imageSet]; [cleanImages] maps both to one URL and lists it twice. *)
Theorem escaped_twin_is_listed_twice :
  collectCandidates textOnlyPage twicePage = ["https://a.com/x.jpg"; "https:\/\/a.com\/x.jpg"]
  /\ images (scrapeUrl plainASCII (relays (page twicePage) unreachable unreachable)
               textOnlyPage "https://site.com/x")
     = ["https://a.com/x.jpg"; "https://a.com/x.jpg"].
Proof. split; vm_compute; reflexivity. Qed.

(** The candidates themselves are without duplicates. *)
Lemma set_add_NoDup (x : string) (set : list string) : NoDup set -> NoDup (set_add x set).
Proof.
  intros H. unfold set_add. destruct (List.existsb (String.eqb x) set) eqn:E; [exact H|].
  apply NoDup_app. split; [exact H|]. split; [|apply NoDup_singleton].
  intros y Hy Hx. apply list_elem_of_singleton in Hx as ->.
  assert (List.existsb (String.eqb x) set = true); [|congruence].
  apply existsb_exists. exists x. split; [apply list_elem_of_In; exact Hy|apply String.eqb_refl].
Qed.

Lemma add_matches_NoDup (found : list (option string)) (set : list string) :
  NoDup set -> NoDup (add_matches found set).
Proof.
  unfold add_matches. revert set; induction found as [|m found IH]; intros set H; [exact H|].
  simpl. apply IH. destruct m; [apply set_add_NoDup|]; exact H.
Qed.

Lemma scanElement_NoDup (set : list string) (el : Dom.Node) :
  NoDup set -> NoDup (scanElement set el).
Proof.
  intros H. unfold scanElement.
  assert (forall names set0, NoDup set0 ->
            NoDup (List.fold_left
                     (fun set attr =>
                        match Dom.getAttribute el attr with
                        | Some val =>
                            if Js.truthy val
                               && (Regex.test Patterns.image_extension val
                                   || Js.includes val "images.prop24")
                            then set_add val set else set
                        | None => set
                        end) names set0)) as Hattrs.
  { induction names as [|a names IH]; intros set0 H0; [exact H0|]. simpl. apply IH.
    destruct (Dom.getAttribute el a); [|exact H0].
    destruct (_ && _); [apply set_add_NoDup|]; exact H0. }
  specialize (Hattrs attrs set H).
  destruct (Dom.getAttribute el "style") as [style|]; [|exact Hattrs].
  destruct (_ && _); [|exact Hattrs].
  destruct (Regex.search _ _ _) as [[m1|]|]; [apply set_add_NoDup| |]; exact Hattrs.
Qed.

(** The raw candidates are without duplicates: [imageSet] is a [Set]. *)
Lemma collectCandidates_NoDup (parseFromString : string -> Dom.Document) (html : string) :
  NoDup (collectCandidates parseFromString html).
Proof.
  unfold collectCandidates.
  generalize (Dom.querySelectorAll (Dom.has_tag ["img"; "a"; "div"])
                (Dom.documentElement (parseFromString html))).
  intros els.
  assert (NoDup (add_matches (Regex.exec_all Patterns.cssRegex 0 html 0)
                   (add_matches (Regex.exec_all Patterns.regex 0 html 0) []))) as H
    by (apply add_matches_NoDup, add_matches_NoDup, NoDup_nil_2).
  revert H. generalize (add_matches (Regex.exec_all Patterns.cssRegex 0 html 0)
                          (add_matches (Regex.exec_all Patterns.regex 0 html 0) [])).
  induction els as [|el els IH]; intros set H; [exact H|].
  simpl. apply IH, scanElement_NoDup, H.
Qed.

(** ** C7: the denylist *)

(** C7 (amended).  The filter drops every resolved URL that contains one
    of [.svg], [tracker], [analytics], [facebook], [google], [whatsapp]
    (the first with its dot); such a URL is in no result, and one that
    contains [facebook] is dropped whether or not it is on the vendor
    allowlist. *)
Theorem denylist_drops
    (unicodeToASCII : string -> option string) (fetch : string -> Thrown + Response)
    (parseFromString : string -> Dom.Document) (u : string) :
  (denied u = true ->
     (forall images baseUrl, ~ In u (cleanImages unicodeToASCII images baseUrl))
     /\ (forall url, ~ In u (images (scrapeUrl unicodeToASCII fetch parseFromString url))))
  /\ (Js.includes u "facebook" = true ->
        keepImage u = false
        /\ forall images baseUrl, ~ In u (cleanImages unicodeToASCII images baseUrl)).
Proof.
  assert (denied u = true ->
          forall images baseUrl, ~ In u (cleanImages unicodeToASCII images baseUrl)) as Hdrop.
  { intros Hd imgs base H. apply In_cleanImages in H as [_ H].
    apply keepImage_not_denied in H. congruence. }
  split.
  - intros Hd. split; [exact (Hdrop Hd)|].
    intros url H. apply scrapeUrl_images in H as [c H]. exact (Hdrop Hd c url H).
  - intros Hf.
    assert (denied u = true) as Hd.
    { unfold denied, denylist. simpl. rewrite Hf. rewrite !orb_true_r. reflexivity. }
    split; [|exact (Hdrop Hd)].
    destruct (keepImage u) eqn:E; [|reflexivity].
    apply keepImage_not_denied in E. congruence.
Qed.

(** C7 (amended) at a picture of the vendor host whose path has [facebook]. *)
Lemma denylist_drops_witness :
  Js.includes "https://images.prop24.com/facebook/a.jpg" "facebook" = true
  /\ Js.includes "https://images.prop24.com/facebook/a.jpg" "images.prop24.com" = true
  /\ cleanImage plainASCII "https://site.com/x" "https://images.prop24.com/facebook/a.jpg"
     = Some "https://images.prop24.com/facebook/a.jpg"
  /\ ~ In "https://images.prop24.com/facebook/a.jpg"
         (cleanImages plainASCII ["https://images.prop24.com/facebook/a.jpg"] "https://site.com/x").
Proof.
  repeat split; try (vm_compute; reflexivity).
  apply (proj2 (denylist_drops plainASCII (fun _ => unreachable) textOnlyPage
                  "https://images.prop24.com/facebook/a.jpg")).
  vm_compute. reflexivity.
Defined.

(** C7 as stated fails: [svg] without the dot is not on the denylist. *)
Lemma svg_without_dot_is_kept :
  Js.includes "https://a.com/svg/x.jpg" "svg" = true
  /\ cleanImages plainASCII ["https://a.com/svg/x.jpg"] "https://site.com/x"
     = ["https://a.com/svg/x.jpg"]
  /\ images (scrapeUrl plainASCII (imageSite "https://a.com/svg/x.jpg")
               (parseImagePage "https://a.com/svg/x.jpg") "https://site.com/x")
     = ["https://a.com/svg/x.jpg"].
Proof. repeat split; vm_compute; reflexivity. Qed.

(** ** C8: the vendor allowlist, icons and logos *)

(** C8.  The filter works on the resolved URLs, and the allowlist is its
    third step, after the [http] test and the denylist.  A resolved URL
    that reaches the allowlist step (it begins with [http] and is not on
    the denylist) and contains [images.prop24.com] is kept, whatever else
    it contains ([icon] included): the icon and logo test is bypassed.  A
    URL that contains [logo] and neither [property] nor
    [images.prop24.com] is dropped.  The other allowlist substring,
    [property24], contains [property]. *)
Theorem allowlist_beats_icon_filter
    (unicodeToASCII : string -> option string) (images : list string) (baseUrl : string) :
  (forall raw u,
      In raw images -> cleanImage unicodeToASCII baseUrl raw = Some u ->
      Js.startsWith u "http" = true -> denied u = false ->
      Js.includes u "images.prop24.com" = true ->
      In u (cleanImages unicodeToASCII images baseUrl))
  /\ (forall u,
        Js.includes u "logo" = true -> Js.includes u "property" = false ->
        Js.includes u "images.prop24.com" = false ->
        ~ In u (cleanImages unicodeToASCII images baseUrl)).
Proof.
  split.
  - intros raw u Hraw Hclean Hhttp Hden Hallow. apply In_cleanImages. split.
    + exists raw. split; assumption.
    + apply keepImage_allowlisted; assumption.
  - intros u Hlogo Hprop Hallow H. apply In_cleanImages in H as [_ H].
    rewrite (keepImage_logo u Hlogo Hprop Hallow) in H. discriminate.
Qed.

(** C8 at an icon of the vendor host and at a logo elsewhere. *)
Lemma allowlist_beats_icon_filter_witness :
  Js.includes "https://images.prop24.com/icon.png" "icon" = true
  /\ In "https://images.prop24.com/icon.png"
        (cleanImages plainASCII
           ["https://images.prop24.com/icon.png"; "https://a.com/logo.png"] "https://site.com/x")
  /\ cleanImage plainASCII "https://site.com/x" "https://a.com/logo.png"
     = Some "https://a.com/logo.png"
  /\ ~ In "https://a.com/logo.png"
         (cleanImages plainASCII
            ["https://images.prop24.com/icon.png"; "https://a.com/logo.png"] "https://site.com/x").
Proof.
  split; [vm_compute; reflexivity|]. split; [|split; [vm_compute; reflexivity|]].
  - apply (proj1 (allowlist_beats_icon_filter plainASCII
                    ["https://images.prop24.com/icon.png"; "https://a.com/logo.png"]
                    "https://site.com/x")
             "https://images.prop24.com/icon.png" "https://images.prop24.com/icon.png");
      vm_compute; auto.
  - apply (proj2 (allowlist_beats_icon_filter plainASCII
                    ["https://images.prop24.com/icon.png"; "https://a.com/logo.png"]
                    "https://site.com/x")
             "https://a.com/logo.png");
      vm_compute; reflexivity.
Defined.

(** ** C9: the summarizer *)

(** C9.  [summarizePropertyListing] returns the text of the model's
    response, or the placeholder when that text is missing or empty; when
    the API key is missing or empty, or the client or the call fails, it
    returns the fixed failure message.  It returns a string on every input:
    nothing is thrown past it. *)
Theorem summarizer_contains_failures
    (API_KEY : option string) (Client : Type) (GoogleGenAI : string -> Thrown + Client)
    (generateContent : Client -> string -> string -> Thrown + option string) (text : string) :
  (forall ai response_text,
      getAiClient API_KEY Client GoogleGenAI = inr ai ->
      generateContent ai "gemini-2.5-flash" (prompt text) = inr response_text ->
      summarizePropertyListing API_KEY Client GoogleGenAI generateContent text
      = match response_text with
        | Some (String c s) => String c s
        | _ => NO_SUMMARY
        end)
  /\ (forall e, getAiClient API_KEY Client GoogleGenAI = inl e ->
        summarizePropertyListing API_KEY Client GoogleGenAI generateContent text
        = SUMMARY_FAILED)
  /\ (forall ai e,
        getAiClient API_KEY Client GoogleGenAI = inr ai ->
        generateContent ai "gemini-2.5-flash" (prompt text) = inl e ->
        summarizePropertyListing API_KEY Client GoogleGenAI generateContent text
        = SUMMARY_FAILED)
  /\ (API_KEY = None \/ API_KEY = Some "" ->
        summarizePropertyListing API_KEY Client GoogleGenAI generateContent text
        = SUMMARY_FAILED).
Proof.
  unfold summarizePropertyListing. repeat split.
  - intros ai r -> ->. destruct r as [[|c s]|]; reflexivity.
  - intros e ->. reflexivity.
  - intros ai e -> ->. reflexivity.
  - intros [->| ->]; reflexivity.
Qed.

(** C9 at an answer, an empty answer, no answer, a failed call and no key. *)
Lemma summarizer_contains_failures_witness :
  summarizePropertyListing (Some "key") unit sdk (answering (Some "Two bedrooms.")) "text"
  = "Two bedrooms."
  /\ summarizePropertyListing (Some "key") unit sdk (answering (Some "")) "text" = NO_SUMMARY
  /\ summarizePropertyListing (Some "key") unit sdk (answering None) "text" = NO_SUMMARY
  /\ summarizePropertyListing (Some "key") unit sdk (fun _ _ _ => inl (Err "503")) "text"
     = SUMMARY_FAILED
  /\ summarizePropertyListing None unit sdk (answering (Some "Two bedrooms.")) "text"
     = SUMMARY_FAILED.
Proof.
  pose proof (fun k g => summarizer_contains_failures k unit sdk g "text") as H.
  split; [|split; [|split; [|split]]].
  - apply (proj1 (H (Some "key") (answering (Some "Two bedrooms."))) tt (Some "Two bedrooms."));
      reflexivity.
  - apply (proj1 (H (Some "key") (answering (Some ""))) tt (Some "")); reflexivity.
  - apply (proj1 (H (Some "key") (answering None)) tt None); reflexivity.
  - apply (proj1 (proj2 (proj2 (H (Some "key") (fun _ _ _ => inl (Err "503"))))) tt (Err "503"));
      reflexivity.
  - apply (proj2 (proj2 (proj2 (H None (answering (Some "Two bedrooms.")))))). left. reflexivity.
Defined.

(** ** C10: the names in the archive *)

Section ArchiveNames.

Variable Blob : Type.
Variable fetchBlob : nat -> string -> option Blob.

Lemma pretty_N_char_digit (x : N) : Js.is_digit (pretty_N_char x) = true.
Proof. unfold pretty_N_char. repeat case_match; reflexivity. Qed.

Lemma pretty_N_go_digits (x : N) (s : string) :
  all_digits s = true -> all_digits (pretty_N_go x s) = true.
Proof.
  revert s. induction (N.lt_wf_0 x) as [x _ IH]; intros s Hs.
  destruct (decide (x = 0)%N) as [->|Hx]; [rewrite pretty_N_go_0; exact Hs|].
  rewrite pretty_N_go_step by lia. apply IH.
  - apply N.div_lt; lia.
  - unfold all_digits. cbn [Js.forallb]. rewrite pretty_N_char_digit. exact Hs.
Qed.

Lemma pretty_nat_digits (n : nat) : all_digits (pretty n) = true.
Proof.
  unfold pretty, pretty_nat, pretty, pretty_N.
  destruct (decide _); [reflexivity|]. apply pretty_N_go_digits. reflexivity.
Qed.

(** Two numerals followed by a dot agree when the strings do. *)
Lemma digits_before_dot (a b x y : string) :
  all_digits a = true -> all_digits b = true ->
  a +:+ String "." x = b +:+ String "." y -> a = b.
Proof.
  revert b; induction a as [|c a IH]; intros [|d b] Ha Hb H; simpl in *.
  - reflexivity.
  - injection H as <- _. discriminate.
  - injection H as -> _. discriminate.
  - injection H as <- H. apply andb_true_iff in Ha as [_ Ha], Hb as [_ Hb].
    f_equal. exact (IH b Ha Hb H).
Qed.

Lemma imagePath_index (i j : nat) (u v : string) : imagePath i u = imagePath j v -> i = j.
Proof.
  unfold imagePath. intros H. simpl in H. injection H as H.
  apply digits_before_dot in H; try apply pretty_nat_digits.
  apply (inj pretty) in H. lia.
Qed.

Lemma imagePath_not_folder (i : nat) (u : string) : imagePath i u <> "images/".
Proof. unfold imagePath. simpl. discriminate. Qed.

(** The archive after the callbacks of [l] have completed on [zip]. *)
Lemma stored_lookup (images : list string) (l : list nat) (zip : gmap string (Entry Blob))
    (i : nat) (u : string) :
  images !! i = Some u ->
  List.fold_left (storeImage Blob fetchBlob images) l zip !! imagePath i u
  = if decide (i ∈ l) then
      match fetchBlob i ("https://api.allorigins.win/raw?url=" +:+ encodeURIComponent u) with
      | Some blob => Some (File Blob blob)
      | None => zip !! imagePath i u
      end
    else zip !! imagePath i u.
Proof.
  intros Hi. revert zip; induction l as [|j l IH]; intros zip; [reflexivity|].
  cbn [List.fold_left]. rewrite IH.
  assert (storeImage Blob fetchBlob images zip j !! imagePath i u
          = if decide (i = j) then
              match fetchBlob i ("https://api.allorigins.win/raw?url=" +:+ encodeURIComponent u) with
              | Some blob => Some (File Blob blob)
              | None => zip !! imagePath i u
              end
            else zip !! imagePath i u) as Hstep.
  { unfold storeImage. destruct (decide (i = j)) as [<-|Hij].
    - rewrite Hi. destruct (fetchBlob i _); [apply lookup_insert_eq|reflexivity].
    - destruct (images !! j) as [v|]; [|reflexivity].
      destruct (fetchBlob j _); [|reflexivity].
      apply lookup_insert_ne. intros E. apply imagePath_index in E. congruence. }
  rewrite Hstep.
  destruct (decide (i = j)) as [<-|Hij].
  - rewrite (decide_True (P := i ∈ i :: l)) by (left).
    destruct (decide (i ∈ l)); destruct (fetchBlob i _); reflexivity.
  - destruct (decide (i ∈ l)) as [Hl|Hl].
    + rewrite (decide_True (P := i ∈ j :: l)) by (right; exact Hl). reflexivity.
    + rewrite (decide_False (P := i ∈ j :: l)); [reflexivity|].
      intros [?|?]%elem_of_cons; congruence.
Qed.

Lemma stored_folder (images : list string) (l : list nat) (zip : gmap string (Entry Blob)) :
  List.fold_left (storeImage Blob fetchBlob images) l zip !! "images/" = zip !! "images/".
Proof.
  revert zip; induction l as [|j l IH]; intros zip; [reflexivity|].
  cbn [List.fold_left]. rewrite IH. unfold storeImage.
  destruct (images !! j) as [v|]; [|reflexivity].
  destruct (fetchBlob j _); [|reflexivity].
  apply lookup_insert_ne. apply imagePath_not_folder.
Qed.

Lemma stored_keys (images : list string) (l : list nat) (zip : gmap string (Entry Blob))
    (name : string) (e : Entry Blob) :
  List.fold_left (storeImage Blob fetchBlob images) l zip !! name = Some e ->
  zip !! name = Some e
  \/ exists index imgUrl blob,
       images !! index = Some imgUrl /\ name = imagePath index imgUrl /\ e = File Blob blob.
Proof.
  revert zip; induction l as [|j l IH]; intros zip; [left; assumption|].
  cbn [List.fold_left]. intros H. apply IH in H as [H|H]; [|right; exact H].
  unfold storeImage in H. destruct (images !! j) as [v|] eqn:Ej; [|left; exact H].
  destruct (fetchBlob j _) as [blob|]; [|left; exact H].
  destruct (decide (imagePath j v = name)) as [<-|Hne].
  - rewrite lookup_insert_eq in H. injection H as <-. right.
    exists j, v, blob. split; [exact Ej|]. split; reflexivity.
  - rewrite lookup_insert_ne in H by exact Hne. left. exact H.
Qed.

End ArchiveNames.

(** C10.  When the listing has images, the archive is assembled and saved
    whatever the fetches do.  The picture at position [index] (counted
    from 0) of the listing's [images] is in the archive exactly when its
    fetch succeeded, and then under the name [image_N.ext] with
    [N = index + 1], its position counted from 1, not a count of the
    successes: a failed fetch leaves that number unused.  The archive holds
    nothing else but its folder. *)
Theorem archive_numbers_by_position
    (Blob : Type) (fetchBlob : nat -> string -> option Blob)
    (completion : list nat) (data : ScrapedData) :
  images data <> [] ->
  completion ≡ₚ seq 0 (length (images data)) ->
  exists zip : gmap string (Entry Blob),
    handleDownloadImages Blob fetchBlob completion data = Some (zip, archiveName (title data))
    /\ zip !! "images/" = Some (Folder Blob)
    /\ (forall index imgUrl,
          images data !! index = Some imgUrl ->
          zip !! ("images/" +:+ "image_" +:+ pretty (index + 1)%nat +:+ "." +:+ extension imgUrl)
          = File Blob <$>
              fetchBlob index
                ("https://api.allorigins.win/raw?url=" +:+ encodeURIComponent imgUrl))
    /\ (forall name e,
          zip !! name = Some e ->
          name = "images/"
          \/ exists index imgUrl,
               images data !! index = Some imgUrl
               /\ name = "images/" +:+ "image_" +:+ pretty (index + 1)%nat +:+ "."
                         +:+ extension imgUrl).
Proof.
  intros Hne Hperm. unfold handleDownloadImages.
  destruct (images data) as [|i0 imgs] eqn:E; [contradiction|]. rewrite <- E in *.
  eexists. split; [reflexivity|]. split; [|split].
  - rewrite stored_folder. apply lookup_singleton_eq.
  - intros index imgUrl Hi.
    change (?z !! _ = _) with (z !! imagePath index imgUrl = File Blob <$>
      fetchBlob index ("https://api.allorigins.win/raw?url=" +:+ encodeURIComponent imgUrl)).
    rewrite (stored_lookup Blob fetchBlob _ _ _ _ _ Hi).
    rewrite decide_True.
    + rewrite lookup_singleton_ne by (intros H; symmetry in H; exact (imagePath_not_folder _ _ H)).
      destruct (fetchBlob index _); reflexivity.
    + rewrite Hperm. apply elem_of_seq. apply lookup_lt_Some in Hi. lia.
  - intros name e H. apply stored_keys in H as [H|(index & imgUrl & blob & Hi & -> & _)].
    + left. apply lookup_singleton_Some in H as [H _]. symmetry. exact H.
    + right. exists index, imgUrl. split; [exact Hi|reflexivity].
Qed.

(** C10 at three pictures, the second fetch failing, the third completing
    first: the files are [image_1.jpg] and [image_3.webp]. *)
Lemma archive_numbers_by_position_witness :
  exists zip : gmap string (Entry string),
    handleDownloadImages string secondFails [2; 0; 1] threePictures
    = Some (zip, "2_Bed_House__Cape_To_images.zip")
    /\ zip !! "images/image_1.jpg"
       = Some (File string "bytes of https://api.allorigins.win/raw?url=https%3A%2F%2Fa.com%2F1.jpg")
    /\ zip !! "images/image_2.png" = None
    /\ zip !! "images/image_3.webp"
       = Some (File string "bytes of https://api.allorigins.win/raw?url=https%3A%2F%2Fa.com%2F3.webp").
Proof.
  destruct (archive_numbers_by_position string secondFails [2; 0; 1] threePictures)
    as (zip & Hzip & _ & Hfiles & _).
  - discriminate.
  - simpl. transitivity [0; 2; 1]; [apply perm_swap|apply perm_skip, perm_swap].
  - exists zip. split; [exact Hzip|].
    split; [exact (Hfiles 0 "https://a.com/1.jpg" eq_refl)|].
    split; [exact (Hfiles 1 "https://a.com/2.png" eq_refl)|].
    exact (Hfiles 2 "https://a.com/3.webp" eq_refl).
Defined.

(** ** The model at work *)

(** The URL parser and serializer on inputs of every kind. *)
Example href_examples :
  href_of "https://img.example.com/a.jpg" (Some "https://site.com/x")
    = Some "https://img.example.com/a.jpg"
  /\ href_of "a.jpg" (Some "https://site.com/x/y?q#f") = Some "https://site.com/x/a.jpg"
  /\ href_of "/a.jpg" (Some "https://site.com/x/y?q#f") = Some "https://site.com/a.jpg"
  /\ href_of "../../b/./c.png?x=1#top" (Some "https://site.com/x/y/z")
     = Some "https://site.com/b/c.png?x=1#top"
  /\ href_of "//cdn.x.com/i.webp" (Some "http://site.com/x") = Some "http://cdn.x.com/i.webp"
  /\ href_of "HTTP://User:Pw@EXAMPLE.com:80/a b" None = Some "http://User:Pw@example.com/a%20b"
  /\ href_of "http://example.com:8080" None = Some "http://example.com:8080/"
  /\ href_of "http://0x7f.1/" None = Some "http://127.0.0.1/"
  /\ href_of "http://[::FFFF:1.2.3.4]:81/" None = Some "http://[::ffff:102:304]:81/"
  /\ href_of "http://" None = None
  /\ href_of "http://a b/" None = None
  /\ href_of "http://example.com:99999/" None = None
  /\ href_of "http://u@/" None = None
  /\ href_of "http://u@@h/" None = Some "http://u%40@h/"
  /\ href_of "https:a.jpg" (Some "https://site.com/x/y") = Some "https://site.com/x/a.jpg"
  /\ href_of "https:a.jpg" (Some "http://site.com/x/y") = Some "https://a.jpg/"
  /\ href_of "file:///C|/x/../y" None = Some "file:///C:/y"
  /\ href_of "foo://h/p?q#f" None = Some "foo://h/p?q#f"
  /\ href_of "foo:/.//p" None = Some "foo:/.//p"
  /\ href_of "data:text/plain,hi there" None = Some "data:text/plain,hi there"
  /\ href_of "  http://example.com/a?b'c  " None = Some "http://example.com/a?b%27c"
  /\ href_of "x" (Some "mailto:a") = None
  /\ href_of "#f" (Some "mailto:a") = Some "mailto:a#f".
Proof. repeat split; vm_compute; reflexivity. Qed.

(** The normalizer on the candidates of the specification's examples. *)
Example cleanImages_examples :
  cleanImages plainASCII ["//img.example.com/a.jpg"] "https://site.com/x"
    = ["https://img.example.com/a.jpg"]
  /\ cleanImages plainASCII ["https:\/\/img.example.com\/a.jpg"] "https://site.com/x"
     = ["https://img.example.com/a.jpg"]
  /\ cleanImages plainASCII ["'/b.png'"; "c.webp"; "javascript:d.jpg"; "http://["]
       "https://site.com/x/y"
     = ["https://site.com/b.png"; "https://site.com/x/c.webp"]
  /\ cleanImages plainASCII ["https://www.facebook.com/tr.png"; "https://a.com/logo.png";
                              "https://a.com/property/logo.png"] "https://site.com/x"
     = ["https://a.com/property/logo.png"].
Proof. repeat split; vm_compute; reflexivity. Qed.

(** The metadata extractor on the specification's example page. *)
Example extractTextFromHtml_example :
  extractTextFromHtml (fun _ => fooDocument)
    "<title>Foo</title><body><script>x</script><p>Hi  there</p></body>"
  = inr (mkExtracted "Foo" "Hi there" (Some "")).
Proof. vm_compute. reflexivity. Qed.

(** The first relay whose page is long enough ends the loop. *)
Example acquireHtml_examples :
  acquireHtml (relays unreachable (page refusal) (page twicePage)) "https://site.com/x"
    = inr twicePage
  /\ acquireHtml (relays (page twicePage) (page refusal) unreachable) "https://site.com/x"
     = inr twicePage
  /\ acquireHtml (relays unreachable (page "") unreachable) "https://site.com/x"
     = inl (failed_to_fetch (Some (Err "Failed to fetch"))).
Proof. repeat split; vm_compute; reflexivity. Qed.

(* ===================================================================== *)
(** * Further properties of the code *)
(* ===================================================================== *)

(** ** The relay loop of [scrapeViaProxies] *)

Section RelayLoop.

Variable fetch : string -> Thrown + Response.

Lemma tryProxies_html_source (providers : list (string -> string)) (url : string) (st : Relay) :
  html (tryProxies fetch providers url st) = html st
  \/ exists p response,
       In p providers /\ fetch (p url) = inr response /\ ok response = true
       /\ body_text response = inr (html (tryProxies fetch providers url st)).
Proof.
  revert st; induction providers as [|q providers IH]; intros st; simpl; [left; reflexivity|].
  unfold fetchWithTimeout.
  assert (forall st', html st' = html st ->
            html (tryProxies fetch providers url st') = html st
            \/ exists p response,
                 (q = p \/ In p providers) /\ fetch (p url) = inr response
                 /\ ok response = true
                 /\ body_text response = inr (html (tryProxies fetch providers url st')))
    as Hsame.
  { intros st' Hst'. destruct (IH st') as [H|(p & r & Hp & H)].
    - left. congruence.
    - right. exists p, r. split; [right; exact Hp|exact H]. }
  destruct (fetch (q url)) as [e|r] eqn:Eq; [apply Hsame; reflexivity|].
  destruct (ok r) eqn:Er; [|apply Hsame; reflexivity].
  destruct (body_text r) as [e|b] eqn:Eb; [apply Hsame; reflexivity|].
  destruct (Js.truthy b && (500 <? String.length b)%nat).
  - right. exists q, r. repeat split; try assumption. left. reflexivity.
  - destruct (IH (mkRelay b (usedProxy st) (fetchError st))) as [H|(p & r' & Hp & H)].
    + right. exists q, r. split; [left; reflexivity|]. repeat split; try assumption.
      rewrite H. exact Eb.
    + right. exists p, r'. split; [right; exact Hp|exact H].
Qed.

(** The HTML that [scrapeViaProxies] goes on to parse is never empty, and
    it is the body of an HTTP-successful response of one of the three
    relays: the body of a response that is not [ok] is never used. *)
Theorem acquired_html_is_a_relay_body (url html_ : string) :
  acquireHtml fetch url = inr html_ ->
  Js.truthy html_ = true
  /\ exists p response,
       In p PROXY_PROVIDERS /\ fetch (p url) = inr response /\ ok response = true
       /\ body_text response = inr html_.
Proof.
  unfold acquireHtml.
  destruct (Js.truthy (html (tryProxies fetch PROXY_PROVIDERS url (mkRelay "" "" None))))
    eqn:Et; [|discriminate].
  intros [= <-]. split; [exact Et|].
  destruct (tryProxies_html_source PROXY_PROVIDERS url (mkRelay "" "" None)) as [H|H];
    [|exact H].
  rewrite H in Et. discriminate.
Qed.

Lemma tryProxies_no_body (providers : list (string -> string)) (url : string) (st : Relay) :
  html st = EmptyString ->
  Forall (fun p => no_body (fetch (p url))) providers ->
  html (tryProxies fetch providers url st) = EmptyString
  /\ fetchError (tryProxies fetch providers url st)
     = last_thrown (fetchError st) (List.map (fun p => fetch (p url)) providers).
Proof.
  intros Hst Hall. revert st Hst; induction Hall as [|q providers Hq _ IH]; intros st Hst.
  - split; [exact Hst|reflexivity].
  - cbn [tryProxies List.map]. unfold last_thrown. cbn [List.fold_left].
    fold (last_thrown
            (match thrown_by (fetch (q url)) with Some e => Some e | None => fetchError st end)
            (List.map (fun p => fetch (p url)) providers)).
    unfold fetchWithTimeout, no_body, thrown_by in *.
    destruct (fetch (q url)) as [e|r]; [apply IH; exact Hst|].
    destruct (ok r); [|apply IH; exact Hst].
    destruct Hq as [Hq|[(e & Hq)|Hq]]; [discriminate| |]; rewrite Hq.
    + apply IH. exact Hst.
    + cbn. apply (IH (mkRelay "" (usedProxy st) (fetchError st))). reflexivity.
Qed.

(** When the local service is unreachable and no relay leaves a body,
    [scrapeUrl] returns the error record, and its [error] is the fixed
    sentence followed by the message of the last value thrown in the loop,
    or by [Blocked] when nothing was thrown or the message is empty. *)
Theorem nothing_reachable_gives_the_error_record
    (unicodeToASCII : string -> option string) (parseFromString : string -> Dom.Document)
    (url : string) (e : Thrown) :
  fetch (LOCAL_SERVER +:+ encodeURIComponent url) = inl e ->
  Forall (fun p => no_body (fetch (p url))) PROXY_PROVIDERS ->
  scrapeUrl unicodeToASCII fetch parseFromString url
  = mkScrapedData url [] "" "Error" None
      (message_of
         (failed_to_fetch
            (last_thrown None (List.map (fun p => fetch (p url)) PROXY_PROVIDERS)))).
Proof.
  intros Hlocal Hall. unfold scrapeUrl, scrapeLocal, scrapeViaProxies, acquireHtml.
  rewrite Hlocal.
  destruct (tryProxies_no_body PROXY_PROVIDERS url (mkRelay "" "" None) eq_refl Hall)
    as [-> ->].
  reflexivity.
Qed.

End RelayLoop.

(** The HTML of a page that the first relay serves. *)
Lemma acquired_html_is_a_relay_body_witness :
  Js.truthy twicePage = true
  /\ exists p response,
       In p PROXY_PROVIDERS
       /\ relays unreachable (page twicePage) (page refusal) (p "https://site.com/x")
          = inr response
       /\ ok response = true /\ body_text response = inr twicePage.
Proof.
  apply (acquired_html_is_a_relay_body (relays unreachable (page twicePage) (page refusal))
           "https://site.com/x" twicePage).
  vm_compute. reflexivity.
Defined.

(** The first relay delivers an empty body, the second times out and the
    third rejects with a value that is no [Error]. *)
Lemma nothing_reachable_gives_the_error_record_witness :
  scrapeUrl plainASCII (relays (page "") (inl (Err "timeout")) (inl (NotErr None)))
    textOnlyPage "https://site.com/x"
  = mkScrapedData "https://site.com/x" [] "" "Error" None
      (Some ("Failed to fetch content. Sites like Property24 often block cloud proxies. "
             +:+ "Please run the local server (node server.cjs) for the best experience. "
             +:+ "Last error: Blocked")).
Proof.
  apply (nothing_reachable_gives_the_error_record
           (relays (page "") (inl (Err "timeout")) (inl (NotErr None)))
           plainASCII textOnlyPage "https://site.com/x" (Err "Failed to fetch")).
  - vm_compute. reflexivity.
  - constructor; [vm_compute; right; right; reflexivity|].
    constructor; [exact I|]. constructor; [exact I|]. constructor.
Defined.

(** ** The regular expressions at work *)

Section RegexFacts.

Variable p : ascii -> bool.

Lemma star_greedy_all (i : nat) (s : string) (cap : Regex.capture) :
  Regex.star_greedy p i s cap (fun j _ c => Some (j, c)) = Some (i + run_length p s, cap).
Proof.
  revert i; induction s as [|c s IH]; intros i; simpl.
  - f_equal. f_equal. lia.
  - destruct (p c).
    + rewrite IH. f_equal. f_equal. lia.
    + f_equal. f_equal. lia.
Qed.

(** A match of [[class]+] takes the whole run. *)
Lemma match_at_Plus (i : nat) (s : string) :
  Regex.match_at (Regex.Plus p) i s
  = match s with
    | String c s' => if p c then Some (S i + run_length p s', None) else None
    | EmptyString => None
    end.
Proof.
  unfold Regex.match_at, Regex.Plus. cbn [Regex.run].
  destruct s as [|c s]; [reflexivity|]. destruct (p c); [|reflexivity].
  apply star_greedy_all.
Qed.

(** [s.replace(/[class]+/g, ' ')] squeezes every run into one space. *)
Lemma replace_Plus (s : string) :
  forall i,
    Regex.replace_all (Regex.Plus p) " " i s 0 = squeeze p false s
    /\ Regex.replace_all (Regex.Plus p) " " i s (run_length p s) = squeeze p true s.
Proof.
  induction s as [|c s IH]; intros i.
  - split; reflexivity.
  - assert (Regex.replace_all (Regex.Plus p) " " i (String c s) 0
            = squeeze p false (String c s)) as H0.
    { cbn [Regex.replace_all]. rewrite match_at_Plus. cbn [squeeze]. destruct (p c).
      - replace (S i + run_length p s =? i)%nat with false
          by (symmetry; apply Nat.eqb_neq; lia).
        replace (S i + run_length p s - i - 1) with (run_length p s) by lia.
        rewrite (proj2 (IH (S i))). reflexivity.
      - rewrite (proj1 (IH (S i))). reflexivity. }
    split; [exact H0|]. cbn [run_length squeeze]. destruct (p c) eqn:E.
    + cbn [Regex.replace_all]. apply (proj2 (IH (S i))).
    + rewrite H0. cbn [squeeze]. rewrite E. reflexivity.
Qed.

(** A match of a class takes one code unit. *)
Lemma match_at_Cls (i : nat) (s : string) :
  Regex.match_at (Regex.Cls p) i s
  = match s with
    | String c _ => if p c then Some (S i, None) else None
    | EmptyString => None
    end.
Proof. destruct s as [|c s]; [reflexivity|]. cbn. destruct (p c); reflexivity. Qed.

(** [s.replace(/[class]/g, by)] replaces code unit by code unit. *)
Lemma replace_Cls (by_ s : string) (i : nat) :
  Regex.replace_all (Regex.Cls p) by_ i s 0 = replace_each p by_ s.
Proof.
  revert i; induction s as [|c s IH]; intros i; [reflexivity|].
  cbn [Regex.replace_all replace_each]. rewrite match_at_Cls. destruct (p c).
  - replace (S i =? i)%nat with false by (symmetry; apply Nat.eqb_neq; lia).
    replace (S i - i - 1) with 0 by lia. rewrite IH. reflexivity.
  - rewrite IH. reflexivity.
Qed.

End RegexFacts.

(** ** The text of a scraped page *)

Lemma squeeze_single_spaced (b : bool) (s : string) :
  single_spaced (squeeze Js.is_space b s) = true
  /\ (b = true -> begins_with Js.is_space (squeeze Js.is_space b s) = false).
Proof.
  revert b; induction s as [|c s IH]; intros b; [split; reflexivity|].
  cbn [squeeze]. destruct (Js.is_space c) eqn:E.
  - destruct b.
    + apply IH.
    + split; [|discriminate]. cbn [single_spaced].
      destruct (IH true) as [-> ->]; reflexivity.
  - split.
    + cbn [single_spaced]. rewrite E. apply (IH false).
    + intros _. cbn. exact E.
Qed.

Lemma single_spaced_tail (c : ascii) (s : string) :
  single_spaced (String c s) = true -> single_spaced s = true.
Proof. cbn [single_spaced]. intros H. apply andb_true_iff in H as [_ H]. exact H. Qed.

Lemma single_spaced_dropWhile (q : ascii -> bool) (s : string) :
  single_spaced s = true -> single_spaced (Js.dropWhile q s) = true.
Proof.
  induction s as [|c s IH]; [reflexivity|]. intros H. cbn [Js.dropWhile].
  destruct (q c); [apply IH, (single_spaced_tail c), H|exact H].
Qed.

Lemma single_spaced_cons (c : ascii) (t s : string) :
  shorter_head t s -> single_spaced (String c s) = true -> single_spaced t = true ->
  single_spaced (String c t) = true.
Proof.
  unfold shorter_head. cbn [single_spaced]. intros Hh H Ht. rewrite Ht, andb_true_r.
  apply andb_true_iff in H as [H _]. destruct (Js.is_space c); [|reflexivity].
  apply andb_true_iff in H as [-> H]. cbn.
  destruct (begins_with Js.is_space t); [|reflexivity].
  rewrite Hh in H by reflexivity. discriminate.
Qed.

Lemma dropWhileEnd_head (q : ascii -> bool) (s : string) :
  shorter_head (Js.dropWhileEnd q s) s.
Proof.
  unfold shorter_head. destruct s as [|c s]; [discriminate|]. cbn [Js.dropWhileEnd].
  destruct (Js.dropWhileEnd q s); [destruct (q c)|]; cbn; auto; discriminate.
Qed.

Lemma single_spaced_dropWhileEnd (q : ascii -> bool) (s : string) :
  single_spaced s = true -> single_spaced (Js.dropWhileEnd q s) = true.
Proof.
  induction s as [|c s IH]; [reflexivity|]. intros H.
  pose proof (IH (single_spaced_tail c s H)) as IHs.
  pose proof (single_spaced_cons c (Js.dropWhileEnd q s) s (dropWhileEnd_head q s) H IHs) as Hc.
  cbn [Js.dropWhileEnd]. destruct (Js.dropWhileEnd q s) eqn:E; [|exact Hc].
  destruct (q c); [reflexivity|exact Hc].
Qed.

Lemma single_spaced_take (n : nat) (s : string) :
  single_spaced s = true -> single_spaced (Js.take n s) = true.
Proof.
  revert s; induction n as [|n IH]; intros [|c s] H; try reflexivity.
  cbn [Js.take]. apply (single_spaced_cons c (Js.take n s) s); [|exact H|].
  - unfold shorter_head. destruct n, s; cbn; auto; discriminate.
  - apply IH, (single_spaced_tail c), H.
Qed.

Lemma trim_begins (s : string) : begins_with Js.is_space (Js.trim s) = false.
Proof.
  unfold Js.trim.
  assert (begins_with Js.is_space (Js.dropWhile Js.is_space s) = false) as H.
  { induction s as [|c s IH]; [reflexivity|]. cbn [Js.dropWhile].
    destruct (Js.is_space c) eqn:E; [exact IH|exact E]. }
  pose proof (dropWhileEnd_head Js.is_space (Js.dropWhile Js.is_space s)) as Hh.
  unfold shorter_head in Hh.
  destruct (begins_with Js.is_space (Js.dropWhileEnd _ _)); [|reflexivity].
  rewrite Hh in H by reflexivity. discriminate.
Qed.

Lemma dropWhileEnd_cons (q : ascii -> bool) (c : ascii) (s : string) :
  Js.dropWhileEnd q (String c s)
  = match Js.dropWhileEnd q s with
    | EmptyString => if q c then EmptyString else String c EmptyString
    | t => String c t
    end.
Proof. reflexivity. Qed.

Lemma trim_ends (s : string) :
  Js.dropWhileEnd Js.is_space (Js.trim s) = Js.trim s.
Proof.
  unfold Js.trim. generalize (Js.dropWhile Js.is_space s). intros t.
  induction t as [|c t IH]; [reflexivity|]. rewrite (dropWhileEnd_cons _ c t).
  destruct (Js.dropWhileEnd Js.is_space t) as [|d t'] eqn:E.
  - destruct (Js.is_space c) eqn:Ec; [reflexivity|]. cbn. rewrite Ec. reflexivity.
  - rewrite (dropWhileEnd_cons _ c (String d t')), IH. reflexivity.
Qed.

(** The text of a page scraped through a relay has at most 10000 code
    units, does not begin with white space, and its only white space is
    single spaces: every run of white space of the page (line breaks and
    tabs included) has become one space.  The price is trimmed at both
    ends. *)
Theorem relay_text_is_collapsed
    (unicodeToASCII : string -> option string) (fetch : string -> Thrown + Response)
    (parseFromString : string -> Dom.Document) (url : string) (data : ScrapedData) :
  scrapeViaProxies unicodeToASCII fetch parseFromString url = inr data ->
  String.length (text data) <= 100 * 100
  /\ begins_with Js.is_space (text data) = false
  /\ single_spaced (text data) = true
  /\ exists price_, price data = Some price_
       /\ begins_with Js.is_space price_ = false
       /\ Js.dropWhileEnd Js.is_space price_ = price_.
Proof.
  unfold scrapeViaProxies. destruct (acquireHtml fetch url) as [e|html_]; [discriminate|].
  destruct (extractTextFromHtml parseFromString html_) as [e|x] eqn:Ex; [discriminate|].
  intros [= <-]. cbn [text price].
  split; [exact (extracted_text_is_short parseFromString html_ x Ex)|].
  unfold extractTextFromHtml in Ex. destruct (Dom.body _) as [b|]; [|discriminate].
  injection Ex as <-. cbn [e_text e_price].
  set (t := Js.trim (Regex.replace Patterns.whitespace_run " " (Dom.textContent b))).
  assert (begins_with Js.is_space (Js.or_else (Js.substring 0 (100 * 100) t) "") = false
          /\ single_spaced (Js.or_else (Js.substring 0 (100 * 100) t) "") = true) as [H1 H2].
  { unfold Js.or_else. destruct (Js.truthy _); [|split; reflexivity].
    unfold Js.substring. cbn [Js.drop]. split.
    - pose proof (trim_begins (Regex.replace Patterns.whitespace_run " " (Dom.textContent b)))
        as Hb. fold t in Hb.
      destruct t as [|c t']; [reflexivity|]. exact Hb.
    - apply single_spaced_take. unfold t, Js.trim.
      apply single_spaced_dropWhileEnd, single_spaced_dropWhile.
      unfold Regex.replace, Patterns.whitespace_run.
      rewrite (proj1 (replace_Plus Js.is_space _ 0)).
      apply (squeeze_single_spaced false). }
  split; [exact H1|]. split; [exact H2|].
  eexists. split; [reflexivity|].
  destruct (match Dom.querySelector _ _ with Some el => Some el | None => _ end) as [el|].
  - split; [apply trim_begins|apply trim_ends].
  - split; reflexivity.
Qed.

(** The text of the page with one picture named twice, which ends with 600
    spaces. *)
Lemma relay_text_is_collapsed_witness :
  String.length "https://a.com/x.jpg https:\/\/a.com\/x.jpg" <= 100 * 100
  /\ begins_with Js.is_space "https://a.com/x.jpg https:\/\/a.com\/x.jpg" = false
  /\ single_spaced "https://a.com/x.jpg https:\/\/a.com\/x.jpg" = true
  /\ exists price_, Some "" = Some price_
       /\ begins_with Js.is_space price_ = false
       /\ Js.dropWhileEnd Js.is_space price_ = price_.
Proof.
  apply (relay_text_is_collapsed plainASCII (relays (page twicePage) unreachable unreachable)
           textOnlyPage "https://site.com/x"
           (mkScrapedData "https://site.com/x" ["https://a.com/x.jpg"; "https://a.com/x.jpg"]
              "https://a.com/x.jpg https:\/\/a.com\/x.jpg" "Untitled" (Some "") None)).
  vm_compute. reflexivity.
Defined.

(** ** What every result of [scrapeUrl] has *)

Section ScrapeUrl.

Variable unicodeToASCII : string -> option string.
Variable fetch : string -> Thrown + Response.
Variable parseFromString : string -> Dom.Document.

Lemma scrapeUrl_url (u : string) :
  url (scrapeUrl unicodeToASCII fetch parseFromString u) = u.
Proof.
  destruct (scrapeUrl_cases unicodeToASCII fetch parseFromString u)
    as [(data & imgs & _ & ->)|[(html_ & x & _ & _ & ->)|(e & _ & ->)]]; reflexivity.
Qed.

Lemma or_else_truthy (a b : string) : Js.truthy b = true -> Js.truthy (Js.or_else a b) = true.
Proof. unfold Js.or_else. destruct (Js.truthy a) eqn:E; auto. Qed.

Lemma opt_or_else_truthy (a : option string) (b : string) :
  Js.truthy b = true -> Js.truthy (Js.opt_or_else a b) = true.
Proof. destruct a; [apply or_else_truthy|auto]. Qed.

(** Whatever the network and the page, the record [scrapeUrl] returns is
    about the URL it was given and has a title that is not empty: a title
    that is missing or empty is replaced by a fixed one on either path, and
    the error record is titled Error. *)
Theorem scraped_record_has_url_and_title (u : string) :
  url (scrapeUrl unicodeToASCII fetch parseFromString u) = u
  /\ Js.truthy (title (scrapeUrl unicodeToASCII fetch parseFromString u)) = true.
Proof.
  split; [apply scrapeUrl_url|].
  destruct (scrapeUrl_cases unicodeToASCII fetch parseFromString u)
    as [(data & imgs & _ & ->)|[(html_ & x & _ & Hx & ->)|(e & _ & ->)]]; cbn [title].
  - apply opt_or_else_truthy. reflexivity.
  - unfold extractTextFromHtml in Hx. destruct (Dom.body _); [|discriminate].
    injection Hx as <-. cbn [e_title]. apply opt_or_else_truthy. reflexivity.
  - reflexivity.
Qed.

(** When the local extraction service answers with a JSON object that has
    an [images] array, its answer is the result, and no relay is asked: the
    result is the same on every network that gives this answer.  This holds
    for an empty array too, so a page the local service finds no picture on
    is not retried through the relays. *)
Theorem local_answer_ends_the_search
    (fetch' : string -> Thrown + Response) (u : string) (response : Response)
    (data : Payload) (imgs : list string) :
  fetch (LOCAL_SERVER +:+ encodeURIComponent u) = inr response ->
  ok response = true ->
  body_json response = inr data ->
  p_images data = Some imgs ->
  same_answer fetch fetch' (LOCAL_SERVER +:+ encodeURIComponent u) ->
  scrapeUrl unicodeToASCII fetch' parseFromString u
  = mkScrapedData u (cleanImages unicodeToASCII imgs u)
      (Js.opt_or_else (p_text data) "") (Js.opt_or_else (p_title data) "Extracted Property")
      (p_price data) None.
Proof.
  unfold same_answer. intros Hf Hok Hj Hi Hs. unfold scrapeUrl, scrapeLocal.
  rewrite <- Hs, Hf, Hok, Hj, Hi. reflexivity.
Qed.

End ScrapeUrl.

(** A local service that finds no picture, on a network without relays. *)
Lemma local_answer_ends_the_search_witness :
  scrapeUrl plainASCII (localService noPictures) textOnlyPage "https://site.com/x"
  = mkScrapedData "https://site.com/x" [] "" "Extracted Property" None None.
Proof.
  apply (local_answer_ends_the_search plainASCII (localService noPictures) textOnlyPage
           (localService noPictures) "https://site.com/x"
           (mkResponse true (inl (Err "body stream already read")) (inr noPictures))
           noPictures []); reflexivity.
Defined.

(** ** The status rows of [handleScrape] *)

Lemma updateStatus_map (d : ScrapedData) (f : string -> ProcessingStatus) (urls : list string) :
  (forall u, ps_url (f u) = u) ->
  updateStatus d (List.map f urls)
  = List.map (fun u => if String.eqb u (url d) then statusOf d else f u) urls.
Proof.
  intros Hf. unfold updateStatus. rewrite List.map_map. apply List.map_ext.
  intros u. rewrite Hf. reflexivity.
Qed.

Lemma settle_rows (completion : list ScrapedData) (f : string -> ProcessingStatus)
    (urls : list string) :
  (forall u, ps_url (f u) = u) ->
  List.fold_left (fun prev d => updateStatus d prev) completion (List.map f urls)
  = List.map (fun u => lastStatus completion (f u) u) urls.
Proof.
  revert f; induction completion as [|d rest IH]; intros f Hf; [reflexivity|].
  cbn [List.fold_left lastStatus]. rewrite (updateStatus_map d f urls Hf).
  rewrite IH; [reflexivity|]. intros u. destruct (String.eqb u (url d)) eqn:E; [|apply Hf].
  apply String.eqb_eq in E. subst u. reflexivity.
Qed.

Lemma lastStatus_absent (completion : list ScrapedData) (row : ProcessingStatus) (u : string) :
  (forall d, In d completion -> url d <> u) -> lastStatus completion row u = row.
Proof.
  revert row; induction completion as [|d rest IH]; intros row H; [reflexivity|].
  cbn [lastStatus]. destruct (String.eqb u (url d)) eqn:E.
  - apply String.eqb_eq in E. exfalso. apply (H d); [left; reflexivity|congruence].
  - apply IH. intros d' Hd'. apply H. right. exact Hd'.
Qed.

Lemma lastStatus_unique (completion : list ScrapedData) (row : ProcessingStatus)
    (d : ScrapedData) :
  In d completion ->
  (forall d', In d' completion -> url d' = url d -> d' = d) ->
  lastStatus completion row (url d) = statusOf d.
Proof.
  revert row; induction completion as [|d0 rest IH]; intros row Hin Huniq; [destruct Hin|].
  cbn [lastStatus].
  assert (In d rest -> lastStatus rest (if String.eqb (url d) (url d0) then statusOf d0 else row)
                         (url d) = statusOf d) as Hrest.
  { intros Hr. apply IH; [exact Hr|]. intros d' Hd'. apply Huniq. right. exact Hd'. }
  destruct (List.existsb (fun d' => String.eqb (url d') (url d)) rest) eqn:Ex.
  - apply List.existsb_exists in Ex as (d' & Hd' & E). apply String.eqb_eq in E.
    apply Hrest. rewrite <- (Huniq d'); [exact Hd'|right; exact Hd'|exact E].
  - destruct Hin as [->|Hin]; [|exact (Hrest Hin)].
    rewrite String.eqb_refl. apply lastStatus_absent.
    intros d' Hd' E. apply not_true_iff_false in Ex. apply Ex.
    apply List.existsb_exists. exists d'. split; [exact Hd'|]. apply String.eqb_eq, E.
Qed.

Lemma NoDup_map_url_unique (data : list ScrapedData) (d d' : ScrapedData) :
  NoDup (List.map url data) -> In d data -> In d' data -> url d' = url d -> d' = d.
Proof.
  induction data as [|d0 rest IH]; [intros _ []|].
  cbn [List.map]. intros Hnd Hd Hd' E. apply NoDup_cons in Hnd as [Hnot Hnd].
  destruct Hd as [->|Hd], Hd' as [->|Hd']; auto.
  - exfalso. apply Hnot. rewrite <- E. apply list_elem_of_In, in_map, Hd'.
  - exfalso. apply Hnot. rewrite E. apply list_elem_of_In, in_map, Hd.
Qed.

Lemma settle_distinct (urls : list string) (data completion : list ScrapedData) :
  NoDup urls ->
  List.map url data = urls ->
  completion ≡ₚ data ->
  settle completion urls = List.map statusOf data.
Proof.
  intros Hnd Hurls Hperm. unfold settle, loadingRows.
  rewrite settle_rows by reflexivity. rewrite <- Hurls, List.map_map.
  apply List.map_ext_in. intros d Hd. apply lastStatus_unique.
  - apply list_elem_of_In. rewrite Hperm. apply list_elem_of_In, Hd.
  - intros d' Hd' E. apply (NoDup_map_url_unique data); auto.
    + rewrite Hurls. exact Hnd.
    + apply list_elem_of_In. rewrite <- Hperm. apply list_elem_of_In, Hd'.
Qed.

(** [handleScrape] collects one result for each submitted line, in the
    order of the lines.  When the lines are distinct, each row ends with
    the status of the result for its own line, in whatever order the
    scrapes complete: a result only rewrites the rows of its URL. *)
Theorem rows_settle_to_their_results
    (unicodeToASCII : string -> option string) (fetch : string -> Thrown + Response)
    (parseFromString : string -> Dom.Document) (inputUrls : string)
    (statuses : list ProcessingStatus) (data : list ScrapedData) :
  handleScrape unicodeToASCII fetch parseFromString inputUrls = Some (statuses, data) ->
  NoDup (submittedUrls unicodeToASCII inputUrls) ->
  List.map url data = submittedUrls unicodeToASCII inputUrls
  /\ statuses = List.map statusOf data
  /\ forall completion,
       completion ≡ₚ data ->
       settle completion (submittedUrls unicodeToASCII inputUrls) = List.map statusOf data.
Proof.
  unfold handleScrape. intros H Hnd.
  assert (List.map url (List.map (scrapeUrl unicodeToASCII fetch parseFromString)
                          (submittedUrls unicodeToASCII inputUrls))
          = submittedUrls unicodeToASCII inputUrls) as Hurls.
  { rewrite List.map_map. erewrite List.map_ext; [apply List.map_id|].
    intros u. apply scrapeUrl_url. }
  pose proof (settle_distinct _ _ _ Hnd Hurls (reflexivity _)) as Hs.
  pose proof (fun completion => settle_distinct _ _ completion Hnd Hurls) as Hany.
  destruct (submittedUrls unicodeToASCII inputUrls) as [|u0 urls] eqn:E; [discriminate|].
  injection H as <- <-. split; [exact Hurls|]. split; [exact Hs|exact Hany].
Qed.

(** Two lines on a network where nothing is reached, the second scrape
    completing first. *)
Lemma rows_settle_to_their_results_witness :
  List.map url [unreached "https://site.com/x"; unreached "https://b.org/"]
  = submittedUrls plainASCII twoLines
  /\ [mkProcessingStatus "https://site.com/x" error_ (Some ALL_UNREACHABLE);
      mkProcessingStatus "https://b.org/" error_ (Some ALL_UNREACHABLE)]
     = List.map statusOf [unreached "https://site.com/x"; unreached "https://b.org/"]
  /\ settle [unreached "https://b.org/"; unreached "https://site.com/x"]
       (submittedUrls plainASCII twoLines)
     = List.map statusOf [unreached "https://site.com/x"; unreached "https://b.org/"].
Proof.
  pose proof (rows_settle_to_their_results plainASCII offline textOnlyPage twoLines
                [mkProcessingStatus "https://site.com/x" error_ (Some ALL_UNREACHABLE);
                 mkProcessingStatus "https://b.org/" error_ (Some ALL_UNREACHABLE)]
                [unreached "https://site.com/x"; unreached "https://b.org/"]) as H.
  destruct H as (H1 & H2 & H3).
  - vm_compute. reflexivity.
  - apply (bool_decide_unpack _). vm_compute. exact I.
  - split; [exact H1|]. split; [exact H2|]. apply H3. apply perm_swap.
Defined.

(** ** The summaries *)

Section SummaryFacts.

Variable API_KEY : option string.
Variable Client : Type.
Variable GoogleGenAI : string -> Thrown + Client.
Variable generateContent : Client -> string -> string -> Thrown + option string.

Lemma summary_truthy (text : string) :
  Js.truthy (summarizePropertyListing API_KEY Client GoogleGenAI generateContent text) = true.
Proof.
  unfold summarizePropertyListing. destruct (getAiClient _ _ _) as [e|ai]; [reflexivity|].
  destruct (generateContent _ _ _) as [e|r]; [reflexivity|].
  apply opt_or_else_truthy. reflexivity.
Qed.

(** The summaries the application keeps are never empty: what
    [handleSummarize] stores for a listing is the answer of the service, or
    one of the two fixed messages when there is no answer or the request
    fails, and it stores nothing for a listing without text.  The summaries
    of the other listings stay as they are. *)
Theorem stored_summaries_are_not_empty (url text : string) (summaries : gmap string string) :
  (forall k v, summaries !! k = Some v -> Js.truthy v = true) ->
  (forall k v,
      handleSummarize API_KEY Client GoogleGenAI generateContent url text summaries !! k
      = Some v -> Js.truthy v = true)
  /\ (forall k, k <> url ->
        handleSummarize API_KEY Client GoogleGenAI generateContent url text summaries !! k
        = summaries !! k)
  /\ (text = EmptyString ->
        handleSummarize API_KEY Client GoogleGenAI generateContent url text summaries
        = summaries)
  /\ (text <> EmptyString ->
        handleSummarize API_KEY Client GoogleGenAI generateContent url text summaries !! url
        = Some (summarizePropertyListing API_KEY Client GoogleGenAI generateContent text)).
Proof.
  intros Hinv. unfold handleSummarize. destruct text as [|c text]; cbn [Js.truthy negb].
  - repeat split; auto. intros H. contradiction.
  - split; [|split; [|split]].
    + intros k v. destruct (decide (k = url)) as [->|Hk].
      * rewrite lookup_insert_eq. intros [= <-]. apply summary_truthy.
      * rewrite lookup_insert_ne by congruence. apply Hinv.
    + intros k Hk. apply lookup_insert_ne. congruence.
    + discriminate.
    + intros _. apply lookup_insert_eq.
Qed.

End SummaryFacts.

(** A service that answers with the empty string. *)
Lemma stored_summaries_are_not_empty_witness :
  handleSummarize (Some "key") unit sdk (answering (Some "")) "https://site.com/x"
    "2 Bed House" {[ "https://b.org/" := "Three bedrooms." ]} !! "https://site.com/x"
  = Some NO_SUMMARY.
Proof.
  apply (stored_summaries_are_not_empty (Some "key") unit sdk (answering (Some ""))
           "https://site.com/x" "2 Bed House" {[ "https://b.org/" := "Three bedrooms." ]}).
  - intros k v H. apply lookup_singleton_Some in H as [_ <-]. reflexivity.
  - discriminate.
Defined.

(** ** The archive as it is listed *)

Section ArchiveOrder.

Variable Blob : Type.
Variable fetchBlob : nat -> string -> option Blob.

Lemma list_to_map_replace (name : string) (e : Entry Blob)
    (files : list (string * Entry Blob)) :
  (list_to_map
     (List.map (fun kv => if String.eqb (fst kv) name then (name, e) else kv) files)
   : gmap string (Entry Blob))
  = if List.existsb (fun kv => String.eqb (fst kv) name) files
    then <[name := e]> (list_to_map files)
    else list_to_map files.
Proof.
  induction files as [|[k v] files IH]; [reflexivity|].
  cbn [List.map List.existsb fst]. destruct (String.eqb k name) eqn:E.
  - apply String.eqb_eq in E. subst k. cbn [orb]. rewrite !list_to_map_cons, IH.
    destruct (List.existsb _ files); rewrite !insert_insert_eq; reflexivity.
  - apply String.eqb_neq in E. cbn [orb]. rewrite !list_to_map_cons, IH.
    destruct (List.existsb _ files); [|reflexivity].
    apply insert_insert_ne. exact E.
Qed.

Lemma existsb_key (name : string) (files : list (string * Entry Blob)) :
  List.existsb (fun kv => String.eqb (fst kv) name) files = false -> name ∉ files.*1.
Proof.
  intros H Hin. apply list_elem_of_fmap in Hin as ([k v] & -> & Hin).
  apply not_true_iff_false in H. apply H. apply List.existsb_exists.
  exists (k, v). split; [apply list_elem_of_In, Hin|apply String.eqb_refl].
Qed.

Lemma list_to_map_addFile (name : string) (e : Entry Blob)
    (files : list (string * Entry Blob)) :
  (list_to_map (addFile Blob name e files) : gmap string (Entry Blob))
  = <[name := e]> (list_to_map files).
Proof.
  unfold addFile. destruct (List.existsb _ files) eqn:E.
  - rewrite list_to_map_replace, E. reflexivity.
  - apply list_to_map_snoc, existsb_key, E.
Qed.

(** The listed entries, read as a map from names, are the archive of
    [handleDownloadImages]. *)
Lemma list_to_map_stored (images : list string) (completion : list nat)
    (files : list (string * Entry Blob)) :
  (list_to_map (List.fold_left (storeImageInOrder Blob fetchBlob images) completion files)
   : gmap string (Entry Blob))
  = List.fold_left (storeImage Blob fetchBlob images) completion (list_to_map files).
Proof.
  revert files; induction completion as [|i completion IH]; intros files; [reflexivity|].
  cbn [List.fold_left]. rewrite IH. f_equal.
  unfold storeImageInOrder, storeImage. destruct (images !! i) as [u|]; [|reflexivity].
  destruct (fetchBlob i _) as [blob|]; [|reflexivity]. apply list_to_map_addFile.
Qed.

Lemma addFile_new (name : string) (e : Entry Blob) (files : list (string * Entry Blob)) :
  ~ In name (List.map fst files) -> addFile Blob name e files = files ++ [(name, e)].
Proof.
  intros H. unfold addFile. destruct (List.existsb _ files) eqn:E; [|reflexivity].
  exfalso. apply H. apply List.existsb_exists in E as ([k v] & Hin & Ek).
  apply String.eqb_eq in Ek. cbn in Ek. subst k. apply (in_map fst) in Hin. exact Hin.
Qed.

Lemma store_downloaded (images : list string) (files : list (string * Entry Blob))
    (i : nat) :
  storeImageInOrder Blob fetchBlob images files i
  = match downloaded Blob fetchBlob images i with
    | Some kv => addFile Blob (fst kv) (snd kv) files
    | None => files
    end.
Proof.
  unfold storeImageInOrder, downloaded. destruct (images !! i) as [u|]; [|reflexivity].
  destruct (fetchBlob i _); reflexivity.
Qed.

Lemma downloaded_name (images : list string) (i : nat) (kv : string * Entry Blob) :
  downloaded Blob fetchBlob images i = Some kv -> exists u, fst kv = imagePath i u.
Proof.
  unfold downloaded. destruct (images !! i) as [u|]; [|discriminate].
  destruct (fetchBlob i _); [|discriminate]. intros [= <-]. exists u. reflexivity.
Qed.

Lemma stored_in_order (images : list string) (completion : list nat) :
  forall files : list (string * Entry Blob),
    NoDup completion ->
    (forall i u, In i completion -> ~ In (imagePath i u) (List.map fst files)) ->
    List.fold_left (storeImageInOrder Blob fetchBlob images) completion files
    = files ++ omap (downloaded Blob fetchBlob images) completion.
Proof.
  induction completion as [|i completion IH]; intros files Hnd Hnew.
  - cbn. rewrite List.app_nil_r. reflexivity.
  - apply NoDup_cons in Hnd as [Hi Hnd]. cbn [List.fold_left omap list_omap].
    rewrite store_downloaded.
    destruct (downloaded Blob fetchBlob images i) as [kv|] eqn:Ed.
    + destruct (downloaded_name images i kv Ed) as [u Hu].
      rewrite addFile_new by (rewrite Hu; apply Hnew; left; reflexivity).
      rewrite IH; [rewrite <- List.app_assoc; destruct kv; reflexivity|exact Hnd|].
      intros j v Hj. rewrite List.map_app, in_app_iff. intros [H|[H|[]]].
      * apply (Hnew j v); [right; exact Hj|exact H].
      * cbn in H. rewrite Hu in H. apply imagePath_index in H. subst j.
        apply Hi, list_elem_of_In, Hj.
    + apply IH; [exact Hnd|]. intros j v Hj. apply Hnew. right. exact Hj.
Qed.

(** The archive lists its folder and then the files in the order in which
    their downloads complete; read as a map from names it is the archive of
    [handleDownloadImages].  So two orders of completion leave the same
    files, under the same names and with the same contents, and list them
    in different orders. *)
Theorem archive_lists_files_as_they_complete
    (completion : list nat) (data : ScrapedData) :
  images data <> [] ->
  NoDup completion ->
  archiveEntries Blob fetchBlob completion data
  = ("images/", Folder Blob) :: omap (downloaded Blob fetchBlob (images data)) completion
  /\ handleDownloadImages Blob fetchBlob completion data
     = Some (list_to_map (archiveEntries Blob fetchBlob completion data),
             archiveName (title data))
  /\ forall completion',
       completion ≡ₚ completion' ->
       archiveEntries Blob fetchBlob completion data
       ≡ₚ archiveEntries Blob fetchBlob completion' data.
Proof.
  intros Hne Hnd.
  assert (forall l, NoDup l ->
            archiveEntries Blob fetchBlob l data
            = ("images/", Folder Blob) :: omap (downloaded Blob fetchBlob (images data)) l)
    as Hlisted.
  { intros l Hl. unfold archiveEntries. rewrite stored_in_order; [reflexivity|exact Hl|].
    intros i u _ [H|[]]. cbn in H. symmetry in H. exact (imagePath_not_folder i u H). }
  split; [exact (Hlisted completion Hnd)|]. split.
  - unfold handleDownloadImages, archiveEntries. destruct (images data); [contradiction|].
    rewrite list_to_map_stored. cbn [list_to_map foldr]. rewrite insert_empty. reflexivity.
  - intros completion' Hperm. rewrite (Hlisted completion Hnd).
    rewrite (Hlisted completion') by (rewrite <- Hperm; exact Hnd).
    apply perm_skip, omap_Permutation, Hperm.
Qed.

End ArchiveOrder.

(** Three pictures, the second download failing: the third completes
    first and is listed first. *)
Lemma archive_lists_files_as_they_complete_witness :
  archiveEntries string secondFails [2; 0; 1] threePictures
  = [("images/", Folder string);
     ("images/image_3.webp",
      File string "bytes of https://api.allorigins.win/raw?url=https%3A%2F%2Fa.com%2F3.webp");
     ("images/image_1.jpg",
      File string "bytes of https://api.allorigins.win/raw?url=https%3A%2F%2Fa.com%2F1.jpg")]
  /\ archiveEntries string secondFails [2; 0; 1] threePictures
     ≡ₚ archiveEntries string secondFails [0; 1; 2] threePictures.
Proof.
  destruct (archive_lists_files_as_they_complete string secondFails [2; 0; 1] threePictures)
    as (H1 & _ & H3).
  - discriminate.
  - apply (bool_decide_unpack _). vm_compute. exact I.
  - split; [exact H1|]. apply H3.
    transitivity [0; 2; 1]; [apply perm_swap|apply perm_skip, perm_swap].
Defined.

(** ** The name of the archive *)

Lemma replace_each_name (s : string) :
  Js.forallb name_char (replace_each (fun c => negb (Js.is_alnum c)) "_" s) = true
  /\ String.length (replace_each (fun c => negb (Js.is_alnum c)) "_" s) = String.length s.
Proof.
  induction s as [|c s [IH1 IH2]]; [split; reflexivity|].
  cbn [replace_each]. destruct (Js.is_alnum c) eqn:E; cbn [negb].
  - change (String c "" +:+ ?x) with (String c x).
    cbn [Js.forallb String.length]. rewrite IH1, IH2.
    unfold name_char at 1. rewrite E. split; reflexivity.
  - change ("_" +:+ ?x) with (String "_" x).
    cbn [Js.forallb String.length]. rewrite IH1, IH2. split; reflexivity.
Qed.

Lemma take_length_min (n : nat) (s : string) :
  String.length (Js.take n s) = Nat.min n (String.length s).
Proof.
  revert s; induction n as [|n IH]; intros [|c s]; cbn; try reflexivity.
  rewrite IH. reflexivity.
Qed.

Lemma replace_each_plain (s : string) :
  replace_each (fun c => negb (Js.is_alnum c)) "_" s = Js.map plain_char s.
Proof.
  induction s as [|c s IH]; [reflexivity|]. cbn [replace_each Js.map]. rewrite IH.
  unfold plain_char. destruct (Js.is_alnum c); reflexivity.
Qed.

Lemma map_length (f : ascii -> ascii) (s : string) :
  String.length (Js.map f s) = String.length s.
Proof. induction s as [|c s IH]; [reflexivity|]. cbn. rewrite IH. reflexivity. Qed.

(** The archive is saved under a name made of the first 20 code units of
    the listing's title (all of them if the title is shorter), each kept
    if it is an ASCII letter or digit and replaced by an underscore
    otherwise, followed by [_images.zip].  So the name holds no path
    separator, dot or space before its extension, and has at most 31 code
    units. *)
Theorem archive_name_is_plain (title_ : string) :
  archiveName title_ = Js.map plain_char (Js.take 20 title_) +:+ "_images.zip"
  /\ String.length (Js.map plain_char (Js.take 20 title_))
     = Nat.min 20 (String.length title_)
  /\ Js.forallb name_char (Js.map plain_char (Js.take 20 title_)) = true.
Proof.
  split; [|split].
  - unfold archiveName, Regex.replace, Patterns.not_alnum.
    rewrite replace_Cls, replace_each_plain. reflexivity.
  - rewrite map_length. apply take_length_min.
  - rewrite <- replace_each_plain. apply replace_each_name.
Qed.

(** ** The candidates of a page *)

Lemma In_set_add (x y : string) (set : list string) :
  In x (set_add y set) <-> x = y \/ In x set.
Proof.
  unfold set_add. destruct (List.existsb (String.eqb y) set) eqn:E.
  - split; [auto|]. intros [->|H]; [|exact H].
    apply List.existsb_exists in E as (z & Hz & Ez). apply String.eqb_eq in Ez. subst z.
    exact Hz.
  - rewrite in_app_iff. cbn [In]. intuition congruence.
Qed.

Lemma In_add_matches (x : string) (found : list (option string)) (set : list string) :
  In x (add_matches found set) <-> In (Some x) found \/ In x set.
Proof.
  unfold add_matches. revert set; induction found as [|m found IH]; intros set.
  - cbn. tauto.
  - cbn [List.fold_left In]. rewrite IH. destruct m as [y|].
    + rewrite In_set_add. intuition congruence.
    + intuition congruence.
Qed.

Lemma In_scanAttributes (el : Dom.Node) (x : string) (names : list string)
    (set : list string) :
  In x (List.fold_left
          (fun set attr =>
             match Dom.getAttribute el attr with
             | Some val =>
                 if Js.truthy val
                    && (Regex.test Patterns.image_extension val
                        || Js.includes val "images.prop24")
                 then set_add val set else set
             | None => set
             end) names set)
  <-> (exists attr,
          In attr names /\ Dom.getAttribute el attr = Some x /\ Js.truthy x = true
          /\ Regex.test Patterns.image_extension x || Js.includes x "images.prop24" = true)
      \/ In x set.
Proof.
  revert set; induction names as [|a names IH]; intros set.
  - cbn. split; [auto|]. intros [(attr & [] & _)|H]; exact H.
  - cbn [List.fold_left]. rewrite IH. clear IH. split.
    + intros [(attr & Hin & H)|H]; [left; exists attr; split; [right; exact Hin|exact H]|].
      destruct (Dom.getAttribute el a) as [val|] eqn:Ea; [|right; exact H].
      destruct (Js.truthy val && _) eqn:Et; [|right; exact H].
      apply In_set_add in H as [->|H]; [|right; exact H].
      apply andb_true_iff in Et as [Et1 Et2].
      left. exists a. split; [left; reflexivity|]. auto.
    + intros [(attr & [<-|Hin] & Hg & Ht & Hm)|H].
      * right. rewrite Hg, Ht, Hm. apply In_set_add. left. reflexivity.
      * left. exists attr. auto.
      * right. destruct (Dom.getAttribute el a) as [val|]; [|exact H].
        destruct (_ && _); [|exact H]. apply In_set_add. right. exact H.
Qed.

Lemma In_scanElement (el : Dom.Node) (x : string) (set : list string) :
  In x (scanElement set el) <-> named_by el x \/ In x set.
Proof.
  unfold scanElement, named_by.
  destruct (Dom.getAttribute el "style") as [style|] eqn:Es.
  - destruct (Js.truthy style && Js.includes style "url(") eqn:Et.
    + apply andb_true_iff in Et as [Et1 Et2].
      destruct (Regex.search Patterns.style_url 0 style) as [[m1|]|] eqn:Em;
        rewrite ?In_set_add, In_scanAttributes; split.
      * intros [->|[H|H]]; [left; right; exists style; auto|left; left; exact H|right; exact H].
      * intros [[H|(style' & [= <-] & _ & _ & Hm)]|H]; auto.
        rewrite Em in Hm. injection Hm as <-. auto.
      * intros [H|H]; auto.
      * intros [[H|(style' & [= <-] & _ & _ & Hm)]|H]; auto.
        rewrite Em in Hm. discriminate.
      * intros [H|H]; auto.
      * intros [[H|(style' & [= <-] & _ & _ & Hm)]|H]; auto.
        rewrite Em in Hm. discriminate.
    + rewrite In_scanAttributes. split; [intros [H|H]; auto|].
      intros [[H|(style' & [= <-] & Ht & Hi & _)]|H]; auto.
      rewrite Ht, Hi in Et. discriminate.
  - rewrite In_scanAttributes. split; [intros [H|H]; auto|].
    intros [[H|(style' & [=] & _)]|H]; auto.
Qed.

Lemma In_scanElements (els : list Dom.Node) (x : string) (set : list string) :
  In x (List.fold_left scanElement els set)
  <-> (exists el, In el els /\ named_by el x) \/ In x set.
Proof.
  revert set; induction els as [|el els IH]; intros set.
  - cbn. split; [auto|]. intros [(el & [] & _)|H]; exact H.
  - cbn [List.fold_left]. rewrite IH, In_scanElement. cbn [In]. split.
    + intros [(e & He & Hn)|[H|H]]; eauto.
    + intros [(e & [<-|He] & Hn)|H]; eauto.
Qed.

(** Membership in the set of candidates, pass by pass. *)
Lemma In_collectCandidates
    (parseFromString : string -> Dom.Document) (html_ c : string) :
  In c (collectCandidates parseFromString html_)
  <-> In (Some c) (Regex.exec_all Patterns.regex 0 html_ 0)
      \/ In (Some c) (Regex.exec_all Patterns.cssRegex 0 html_ 0)
      \/ exists el,
           In el (Dom.querySelectorAll (Dom.has_tag ["img"; "a"; "div"])
                    (Dom.documentElement (parseFromString html_)))
           /\ named_by el c.
Proof.
  unfold collectCandidates. rewrite In_scanElements, !In_add_matches. cbn [In]. tauto.
Qed.

(** ** [cleanImages], candidate by candidate *)

(** [cleanImages] treats each candidate on its own and keeps the order of
    the candidates: the cleaned list of two lists in a row is the two
    cleaned lists in a row, and it is never longer than the list given. *)
Theorem cleanImages_is_pointwise
    (unicodeToASCII : string -> option string) (first second : list string)
    (baseUrl : string) :
  cleanImages unicodeToASCII (first ++ second) baseUrl
  = cleanImages unicodeToASCII first baseUrl ++ cleanImages unicodeToASCII second baseUrl
  /\ length (cleanImages unicodeToASCII first baseUrl) <= length first.
Proof.
  unfold cleanImages. split.
  - rewrite omap_app. apply List.filter_app.
  - etransitivity; [apply List.filter_length_le|].
    induction first as [|c first IH]; [reflexivity|]. cbn [omap list_omap length].
    destruct (cleanImage unicodeToASCII baseUrl c); cbn [length]; lia.
Qed.

(** ** What the patterns match *)

Lemma app_cons (x : ascii) (a b : string) : String x a +:+ b = String x (a +:+ b).
Proof. reflexivity. Qed.

Lemma app_length (a b : string) :
  String.length (a +:+ b) = String.length a + String.length b.
Proof.
  induction a as [|c a IH]; [reflexivity|]. rewrite app_cons. cbn [String.length Nat.add].
  rewrite IH. reflexivity.
Qed.

Lemma app_assoc (a b c : string) : (a +:+ b) +:+ c = a +:+ (b +:+ c).
Proof. induction a as [|x a IH]; [reflexivity|]. rewrite !app_cons, IH. reflexivity. Qed.

Lemma drop_app (a b : string) : Js.drop (String.length a) (a +:+ b) = b.
Proof. induction a as [|x a IH]; [destruct b; reflexivity|exact IH]. Qed.

Lemma take_app (a b : string) : Js.take (String.length a) (a +:+ b) = a.
Proof.
  induction a as [|x a IH]; [destruct b; reflexivity|].
  rewrite app_cons. cbn [String.length Js.take]. rewrite IH. reflexivity.
Qed.

Lemma forallb_app (p : ascii -> bool) (a b : string) :
  Js.forallb p (a +:+ b) = Js.forallb p a && Js.forallb p b.
Proof.
  induction a as [|x a IH]; [reflexivity|]. rewrite app_cons. cbn [Js.forallb].
  rewrite IH. apply andb_assoc.
Qed.

Lemma In_all_ascii (c : ascii) : In c all_ascii.
Proof.
  unfold all_ascii. rewrite <- (ascii_nat_embedding c). apply in_map, in_seq.
  pose proof (nat_ascii_bounded c). lia.
Qed.

Lemma subclass_sound (p q : ascii -> bool) (c : ascii) :
  subclass p q = true -> p c = true -> q c = true.
Proof.
  unfold subclass. intros H Hp. rewrite List.forallb_forall in H.
  specialize (H c (In_all_ascii c)). rewrite Hp in H. exact H.
Qed.

Lemma subclass_forallb (p q : ascii -> bool) (w : string) :
  subclass p q = true -> Js.forallb p w = true -> Js.forallb q w = true.
Proof.
  intros H. induction w as [|c w IH]; [reflexivity|]. cbn. intros Hw.
  apply andb_true_iff in Hw as [Hc Hw]. rewrite (subclass_sound p q c H Hc), IH by exact Hw.
  reflexivity.
Qed.

(** A text a pattern matches is made of code units of the pattern's
    classes. *)
Lemma within_sound (q : ascii -> bool) (r : Regex.re) (w : string) :
  within q r = true -> lang r w -> Js.forallb q w = true.
Proof.
  revert w; induction r as [|p|r1 IH1 r2 IH2|r1 IH1 r2 IH2|r1 IH1|p|p|r1 IH1| |];
    intros w Hq Hw; cbn [within lang] in *.
  - subst w. reflexivity.
  - destruct Hw as (c & -> & Hc). cbn. rewrite (subclass_sound p q c Hq Hc). reflexivity.
  - apply andb_true_iff in Hq as [Hq1 Hq2]. destruct Hw as (w1 & w2 & -> & H1 & H2).
    rewrite forallb_app, IH1, IH2 by assumption. reflexivity.
  - apply andb_true_iff in Hq as [Hq1 Hq2]. destruct Hw as [H|H]; auto.
  - destruct Hw as [H| ->]; auto.
  - apply (subclass_forallb p); assumption.
  - apply (subclass_forallb p); assumption.
  - auto.
  - subst w. reflexivity.
  - subst w. reflexivity.
Qed.

Lemma star_greedy_sound (p : ascii -> bool) (s : string) :
  forall i cap k res,
    Regex.star_greedy p i s cap k = Some res ->
    exists w t, s = w +:+ t /\ Js.forallb p w = true
                /\ k (i + String.length w) t cap = Some res.
Proof.
  induction s as [|c s IH]; intros i cap k res H; cbn [Regex.star_greedy] in H.
  - exists "", "". rewrite Nat.add_0_r. auto.
  - assert (k i (String c s) cap = Some res ->
            exists w t, String c s = w +:+ t /\ Js.forallb p w = true
                        /\ k (i + String.length w) t cap = Some res) as Hstop.
    { intros Hk. exists "", (String c s). rewrite Nat.add_0_r. auto. }
    destruct (p c) eqn:Ec; [|auto].
    destruct (Regex.star_greedy p (S i) s cap k) as [r|] eqn:Er; [|auto].
    injection H as ->. apply IH in Er as (w & t & -> & Hw & Hk).
    exists (String c w), t. cbn. rewrite Ec, Hw.
    replace (i + S (String.length w)) with (S i + String.length w) by lia. auto.
Qed.

Lemma star_lazy_sound (p : ascii -> bool) (s : string) :
  forall i cap k res,
    Regex.star_lazy p i s cap k = Some res ->
    exists w t, s = w +:+ t /\ Js.forallb p w = true
                /\ k (i + String.length w) t cap = Some res.
Proof.
  induction s as [|c s IH]; intros i cap k res H; cbn [Regex.star_lazy] in H.
  - destruct (k i "" cap) as [r|] eqn:Ek; [|discriminate].
    exists "", "". rewrite Nat.add_0_r, Ek. auto.
  - destruct (k i (String c s) cap) as [r|] eqn:Ek.
    + exists "", (String c s). rewrite Nat.add_0_r, Ek. auto.
    + destruct (p c) eqn:Ec; [|discriminate].
      apply IH in H as (w & t & -> & Hw & Hk).
      exists (String c w), t. cbn. rewrite Ec, Hw.
      replace (i + S (String.length w)) with (S i + String.length w) by lia. auto.
Qed.

(** The matcher is sound: when it succeeds from [s], it has taken from the
    head of [s] a text [w] of the pattern and handed the rest to its
    continuation; a pattern without a group hands the capture on
    unchanged. *)
Lemma run_sound (r : Regex.re) :
  forall i s cap k res,
    Regex.run r i s cap k = Some res ->
    exists w t cap',
      s = w +:+ t /\ lang r w /\ (groupless r = true -> cap' = cap)
      /\ k (i + String.length w) t cap' = Some res.
Proof.
  induction r as [|p|r1 IH1 r2 IH2|r1 IH1 r2 IH2|r1 IH1|p|p|r1 IH1| |];
    intros i s cap k res H; cbn [Regex.run] in H; cbn [lang groupless].
  - exists "", s, cap. rewrite Nat.add_0_r. auto.
  - destruct s as [|c s]; [discriminate|]. destruct (p c) eqn:Ec; [|discriminate].
    exists (String c ""), s, cap. cbn [String.length].
    replace (i + 1) with (S i) by lia. eauto 6.
  - apply IH1 in H as (w1 & t1 & cap1 & -> & H1 & Hc1 & H).
    apply IH2 in H as (w2 & t2 & cap2 & -> & H2 & Hc2 & H).
    exists (w1 +:+ w2), t2, cap2. rewrite app_assoc, app_length, Nat.add_assoc.
    repeat split; eauto. intros Hg. apply andb_true_iff in Hg as [Hg1 Hg2].
    rewrite Hc2, Hc1; auto.
  - destruct (Regex.run r1 i s cap k) as [x|] eqn:E1.
    + injection H as ->. apply IH1 in E1 as (w & t & cap' & -> & Hw & Hc & Hk).
      exists w, t, cap'. repeat split; auto. intros Hg. apply andb_true_iff in Hg as [Hg _].
      auto.
    + apply IH2 in H as (w & t & cap' & -> & Hw & Hc & Hk).
      exists w, t, cap'. repeat split; auto. intros Hg. apply andb_true_iff in Hg as [_ Hg].
      auto.
  - destruct (Regex.run r1 i s cap k) as [x|] eqn:E1.
    + injection H as ->. apply IH1 in E1 as (w & t & cap' & -> & Hw & Hc & Hk).
      exists w, t, cap'. auto.
    + exists "", s, cap. rewrite Nat.add_0_r. auto.
  - apply star_greedy_sound in H as (w & t & -> & Hw & Hk). exists w, t, cap. auto.
  - apply star_lazy_sound in H as (w & t & -> & Hw & Hk). exists w, t, cap. auto.
  - apply IH1 in H as (w & t & cap' & -> & Hw & _ & Hk).
    exists w, t, (Some (i, i + String.length w)). repeat split; auto. discriminate.
  - destruct (i =? 0)%nat; [|discriminate]. exists "", s, cap. rewrite Nat.add_0_r. auto.
  - destruct s; [|discriminate]. exists "", "", cap. rewrite Nat.add_0_r. auto.
Qed.

(** The capture of a group that the matcher has just closed. *)
Lemma run_group_sound (r : Regex.re) (i : nat) (s : string) (cap : Regex.capture)
    (k : Regex.kont) (res : Regex.result) :
  Regex.run (Regex.Group r) i s cap k = Some res ->
  exists w t, s = w +:+ t /\ lang r w
              /\ k (i + String.length w) t (Some (i, i + String.length w)) = Some res.
Proof.
  cbn [Regex.run]. intros H. apply run_sound in H as (w & t & cap' & -> & Hw & _ & Hk).
  eauto.
Qed.

Lemma group_text_app (i : nat) (before w after : string) :
  Regex.group_text i (before +:+ w +:+ after)
    (Some (i + String.length before, i + String.length before + String.length w))
  = Some w.
Proof.
  unfold Regex.group_text, Js.substring. f_equal.
  replace (i + String.length before - i) with (String.length before) by lia.
  replace (i + String.length before + String.length w - i - String.length before)
    with (String.length w) by lia.
  rewrite drop_app. apply take_app.
Qed.

(** Every entry of [exec_all] is the group of a match at some place of
    the input. *)
Lemma exec_all_matches (r : Regex.re) (m : option string) (s : string) :
  forall i skip,
    In m (Regex.exec_all r i s skip) ->
    exists before rest j cap,
      s = before +:+ rest
      /\ Regex.match_at r (i + String.length before) rest = Some (j, cap)
      /\ m = Regex.group_text (i + String.length before) rest cap.
Proof.
  induction s as [|c s IH]; intros i skip H; cbn [Regex.exec_all] in H.
  - destruct skip; [|destruct H]. destruct (Regex.match_at r i "") as [[j cap]|] eqn:Em;
      [|destruct H].
    destruct H as [<-|[]]. exists "", "", j, cap. cbn [String.length]. rewrite Nat.add_0_r.
    auto.
  - assert (In m (Regex.exec_all r (S i) s (match skip with S n => n | O => O end))
            \/ (exists j cap, Regex.match_at r i (String c s) = Some (j, cap)
                              /\ m = Regex.group_text i (String c s) cap)
            \/ exists n, In m (Regex.exec_all r (S i) s n)) as Hcases.
    { destruct skip as [|n]; [|left; exact H].
      destruct (Regex.match_at r i (String c s)) as [[j cap]|] eqn:Em; [|left; exact H].
      destruct H as [<-|H]; [right; left; eauto|right; right; eauto]. }
    assert (forall n, In m (Regex.exec_all r (S i) s n) ->
              exists before rest j cap,
                String c s = before +:+ rest
                /\ Regex.match_at r (i + String.length before) rest = Some (j, cap)
                /\ m = Regex.group_text (i + String.length before) rest cap) as Hlater.
    { intros n Hn. apply IH in Hn as (before & rest & j & cap & -> & Hm & Hg).
      exists (String c before), rest, j, cap. cbn [String.length].
      replace (i + S (String.length before)) with (S i + String.length before) by lia.
      auto. }
    destruct Hcases as [Hn|[(j & cap & Hm & Hg)|(n & Hn)]]; eauto.
    exists "", (String c s), j, cap. cbn [String.length]. rewrite Nat.add_0_r. auto.
Qed.

Lemma part_of_rest (before rest c : string) :
  part_of c rest -> part_of c (before +:+ rest).
Proof.
  intros (a & b & ->). exists (before +:+ a), b. symmetry. apply app_assoc.
Qed.

Lemma lit_i_http (w : string) (rest : Regex.re) :
  lang (Regex.Seq (Regex.lit_i "http") rest) w -> begins_http w = true.
Proof.
  cbn. intros (w1 & w2 & -> & (a & b & -> & (h & -> & Hh)
                               & (c & d & -> & (t & -> & Ht)
                                  & (e & f & -> & (t' & -> & Ht') & (p & -> & Hp)))) & _).
  unfold begins_http. simpl.
  apply Ascii.eqb_eq in Hh, Ht, Ht', Hp. rewrite Hh, Ht, Ht', Hp.
  destruct w2; reflexivity.
Qed.

(** The entries of the first pattern's loop. *)
Lemma regex_entries (html_ : string) (m : option string) :
  In m (Regex.exec_all Patterns.regex 0 html_ 0) ->
  exists c,
    m = Some c /\ part_of c html_ /\ begins_http c = true
    /\ Js.forallb Patterns.url_char c = true.
Proof.
  intros H. apply exec_all_matches in H as (before & rest & j & cap & -> & Hm & ->).
  unfold Regex.match_at, Patterns.regex in Hm.
  apply run_group_sound in Hm as (w & t & -> & Hw & [= <- <-]).
  exists w. split; [|split; [|split]].
  - cbn [Nat.add]. rewrite <- (group_text_app (String.length before) "" w t).
    cbn [String.length String.append]. rewrite Nat.add_0_r. reflexivity.
  - apply part_of_rest. exists "", t. reflexivity.
  - apply (lit_i_http w _ Hw).
  - refine (within_sound Patterns.url_char _ w _ Hw). vm_compute. reflexivity.
Qed.

(** Every match of the first pattern of [scrapeViaProxies] yields a
    candidate (its group is never undefined); the candidate is a piece of
    the raw HTML, begins with [http] in any letter case, and holds no quote,
    no white space and none of the characters [<>;,[]{}]. *)
Theorem pattern_candidates_are_urls_of_the_page (html_ : string) (m : option string) :
  In m (Regex.exec_all Patterns.regex 0 html_ 0) ->
  exists c,
    m = Some c /\ part_of c html_ /\ begins_http c = true
    /\ Js.forallb Patterns.url_char c = true.
Proof. exact (regex_entries html_ m). Qed.

(** A script that names a picture with escaped slashes and a query. *)
Lemma pattern_candidates_are_urls_of_the_page_witness :
  exists c,
    Some "https:\/\/a.com\/x.jpg?w=1" = Some c
    /\ part_of c "img: 'https:\/\/a.com\/x.jpg?w=1', alt: 'x'"
    /\ begins_http c = true
    /\ Js.forallb Patterns.url_char c = true.
Proof.
  apply (pattern_candidates_are_urls_of_the_page
           "img: 'https:\/\/a.com\/x.jpg?w=1', alt: 'x'" (Some "https:\/\/a.com\/x.jpg?w=1")).
  vm_compute. left. reflexivity.
Defined.

Lemma run_seq (r1 r2 : Regex.re) (i : nat) (s : string) (cap : Regex.capture)
    (k : Regex.kont) :
  Regex.run (Regex.Seq r1 r2) i s cap k
  = Regex.run r1 i s cap (fun j t c => Regex.run r2 j t c k).
Proof. reflexivity. Qed.

Lemma group_text_at (i a : nat) (before w after : string) :
  a = i + String.length before ->
  Regex.group_text i (before +:+ w +:+ after) (Some (a, a + String.length w)) = Some w.
Proof. intros ->. apply group_text_app. Qed.

(** The entries of the second pattern's loop. *)
Lemma cssRegex_entries (html_ : string) (m : option string) :
  In m (Regex.exec_all Patterns.cssRegex 0 html_ 0) ->
  exists c,
    m = Some c /\ part_of c html_ /\ begins_http c = true
    /\ Js.forallb Patterns.css_char c = true.
Proof.
  intros H. apply exec_all_matches in H as (before & rest & j & cap & -> & Hm & ->).
  unfold Regex.match_at, Patterns.cssRegex in Hm. cbn [Patterns.seq] in Hm.
  rewrite run_seq in Hm. apply run_sound in Hm as (w1 & t1 & c1 & -> & _ & Hc1 & Hm).
  rewrite (Hc1 eq_refl) in Hm. clear c1 Hc1.
  rewrite run_seq in Hm. apply run_sound in Hm as (w2 & t2 & c2 & -> & _ & Hc2 & Hm).
  rewrite (Hc2 eq_refl) in Hm. clear c2 Hc2.
  rewrite run_seq in Hm. apply run_sound in Hm as (w3 & t3 & c3 & -> & _ & Hc3 & Hm).
  rewrite (Hc3 eq_refl) in Hm. clear c3 Hc3.
  rewrite run_seq in Hm. apply run_group_sound in Hm as (w & t & -> & Hw & Hm).
  apply run_sound in Hm as (w5 & t5 & c5 & -> & _ & Hc5 & [= <- <-]).
  rewrite (Hc5 eq_refl). clear c5 Hc5.
  exists w. split; [|split; [|split]].
  - rewrite <- !app_assoc. rewrite (app_assoc _ w5 t5), (app_assoc _ w _).
    apply group_text_at. rewrite !app_length. lia.
  - apply part_of_rest. exists (w1 +:+ w2 +:+ w3), (w5 +:+ t5). rewrite !app_assoc.
    reflexivity.
  - apply (lit_i_http w _ Hw).
  - refine (within_sound Patterns.css_char _ w _ Hw). vm_compute. reflexivity.
Qed.

(** Every match of the second pattern of [scrapeViaProxies] yields a
    candidate, the text inside [url(...)]; the candidate is a piece of the
    raw HTML, begins with [http] in any letter case, and holds no quote and
    no closing parenthesis. *)
Theorem css_candidates_are_urls_of_the_page (html_ : string) (m : option string) :
  In m (Regex.exec_all Patterns.cssRegex 0 html_ 0) ->
  exists c,
    m = Some c /\ part_of c html_ /\ begins_http c = true
    /\ Js.forallb Patterns.css_char c = true.
Proof. exact (cssRegex_entries html_ m). Qed.

(** An inline style written in capitals and without quotes. *)
Lemma css_candidates_are_urls_of_the_page_witness :
  exists c,
    Some "https://a.com/x.png" = Some c
    /\ part_of c "<div style='background: URL(https://a.com/x.png)'>"
    /\ begins_http c = true
    /\ Js.forallb Patterns.css_char c = true.
Proof.
  apply (css_candidates_are_urls_of_the_page
           "<div style='background: URL(https://a.com/x.png)'>" (Some "https://a.com/x.png")).
  vm_compute. left. reflexivity.
Defined.

(** ** The relay loop when no answer is accepted *)

Lemma tryProxies_unaccepted (fetch : string -> Thrown + Response)
    (providers : list (string -> string)) (url : string) (st : Relay) :
  Forall (fun p => forall b, ~ accepted (fetch (p url)) b) providers ->
  html (tryProxies fetch providers url st)
  = last_body (html st) (List.map (fun p => fetch (p url)) providers)
  /\ fetchError (tryProxies fetch providers url st)
     = last_thrown (fetchError st) (List.map (fun p => fetch (p url)) providers)
  /\ usedProxy (tryProxies fetch providers url st) = usedProxy st.
Proof.
  intros Hall. revert st; induction Hall as [|q providers Hq _ IH]; intros st.
  - repeat split.
  - cbn [tryProxies List.map]. unfold last_body, last_thrown. cbn [List.fold_left].
    fold (last_body
            (match body_of (fetch (q url)) with Some b => b | None => html st end)
            (List.map (fun p => fetch (p url)) providers)).
    fold (last_thrown
            (match thrown_by (fetch (q url)) with Some e => Some e | None => fetchError st end)
            (List.map (fun p => fetch (p url)) providers)).
    unfold fetchWithTimeout, body_of, thrown_by.
    destruct (fetch (q url)) as [e|r] eqn:Ef;
      [exact (IH (mkRelay (html st) (usedProxy st) (Some e)))|].
    destruct (ok r) eqn:Eok; [|exact (IH st)].
    destruct (body_text r) as [e|b] eqn:Eb;
      [exact (IH (mkRelay (html st) (usedProxy st) (Some e)))|].
    destruct (Js.truthy b && (500 <? String.length b)%nat) eqn:Et;
      [|exact (IH (mkRelay b (usedProxy st) (fetchError st)))].
    exfalso. apply (Hq b). exists r. apply andb_true_iff in Et as [_ Et].
    apply Nat.ltb_lt in Et. auto.
Qed.

(** When no relay's answer is accepted, the relay chain does not fail as
    long as some relay delivered a body: the HTML is the last body an
    HTTP-successful answer delivered, however short.  The chain throws only
    when that body is empty or there is none, and then with the message of
    the last value thrown. *)
Theorem unaccepted_relays_leave_the_last_body
    (fetch : string -> Thrown + Response) (url : string) :
  Forall (fun p => forall b, ~ accepted (fetch (p url)) b) PROXY_PROVIDERS ->
  acquireHtml fetch url
  = match last_body "" (List.map (fun p => fetch (p url)) PROXY_PROVIDERS) with
    | EmptyString =>
        inl (failed_to_fetch
               (last_thrown None (List.map (fun p => fetch (p url)) PROXY_PROVIDERS)))
    | body => inr body
    end.
Proof.
  intros Hall. unfold acquireHtml.
  destruct (tryProxies_unaccepted fetch PROXY_PROVIDERS url (mkRelay "" "" None) Hall)
    as (-> & -> & _).
  cbn [html fetchError]. destruct (last_body _ _); reflexivity.
Qed.

(** The second relay serves a refusal of 13 code units and the others are
    unreachable. *)
Lemma unaccepted_relays_leave_the_last_body_witness :
  acquireHtml (relays unreachable (page refusal) unreachable) "https://site.com/x"
  = inr refusal.
Proof.
  apply (unaccepted_relays_leave_the_last_body
           (relays unreachable (page refusal) unreachable) "https://site.com/x").
  constructor; [|constructor; [|constructor; [|constructor]]];
    intros b (r & Hf & _ & Hb & Hlen); vm_compute in Hf; try discriminate.
  injection Hf as <-. injection Hb as <-. vm_compute in Hlen. lia.
Defined.

(** ** The relay that is accepted *)

Lemma tryProxies_app (fetch : string -> Thrown + Response)
    (before rest : list (string -> string)) (url : string) (st : Relay) :
  Forall (fun q => forall b, ~ accepted (fetch (q url)) b) before ->
  tryProxies fetch (before ++ rest) url st
  = tryProxies fetch rest url (tryProxies fetch before url st).
Proof.
  intros Hall. revert st; induction Hall as [|q before Hq _ IH]; intros st; [reflexivity|].
  cbn [tryProxies List.app]. unfold fetchWithTimeout.
  destruct (fetch (q url)) as [e|r] eqn:Ef; [apply IH|].
  destruct (ok r) eqn:Eok; [|apply IH].
  destruct (body_text r) as [e|b] eqn:Eb; [apply IH|].
  destruct (Js.truthy b && (500 <? String.length b)%nat) eqn:Et; [|apply IH].
  exfalso. apply (Hq b). exists r. apply andb_true_iff in Et as [_ Et].
  apply Nat.ltb_lt in Et. auto.
Qed.

Lemma tryProxies_accepted (fetch : string -> Thrown + Response)
    (p : string -> string) (after : list (string -> string)) (url body : string)
    (st : Relay) :
  accepted (fetch (p url)) body ->
  tryProxies fetch (p :: after) url st = mkRelay body (p url) (fetchError st).
Proof.
  intros (r & Hf & Hok & Hb & Hlen). cbn [tryProxies]. unfold fetchWithTimeout.
  rewrite Hf, Hok, Hb.
  replace (Js.truthy body) with true by (destruct body; [simpl in Hlen; lia|reflexivity]).
  replace (500 <? String.length body)%nat with true by (symmetry; apply Nat.ltb_lt, Hlen).
  reflexivity.
Qed.

Lemma relay_state (fetch : string -> Thrown + Response)
    (before after : list (string -> string)) (p : string -> string) (url body : string)
    (st : Relay) :
  Forall (fun q => forall b, ~ accepted (fetch (q url)) b) before ->
  accepted (fetch (p url)) body ->
  tryProxies fetch (before ++ p :: after) url st
  = mkRelay body (p url)
      (last_thrown (fetchError st) (List.map (fun q => fetch (q url)) before)).
Proof.
  intros Hbefore Hp. rewrite (tryProxies_app fetch before (p :: after) url st Hbefore).
  rewrite (tryProxies_accepted fetch p after url body _ Hp).
  destruct (tryProxies_unaccepted fetch before url st Hbefore) as (_ & -> & _).
  reflexivity.
Qed.

(** The loop ends at the first relay whose answer is accepted.  Its state
    is then: [html] the body of that answer, [usedProxy] the request URL of
    that relay, [fetchError] the last value thrown by the relays before it.
    The relays after it are not asked: the state is the same whatever
    relays follow and whatever they would answer. *)
Theorem accepted_relay_ends_the_loop
    (fetch : string -> Thrown + Response) (before after : list (string -> string))
    (p : string -> string) (url body : string) (st : Relay) :
  Forall (fun q => forall b, ~ accepted (fetch (q url)) b) before ->
  accepted (fetch (p url)) body ->
  tryProxies fetch (before ++ p :: after) url st
  = mkRelay body (p url)
      (last_thrown (fetchError st) (List.map (fun q => fetch (q url)) before))
  /\ forall (fetch' : string -> Thrown + Response) (after' : list (string -> string)),
       (forall q, In q (before ++ [p]) -> same_answer fetch fetch' (q url)) ->
       tryProxies fetch' (before ++ p :: after') url st
       = tryProxies fetch (before ++ p :: after) url st.
Proof.
  intros Hbefore Hp. split; [apply relay_state; assumption|].
  intros fetch' after' Hsame. unfold same_answer in Hsame.
  rewrite (relay_state fetch before after p url body st Hbefore Hp).
  assert (List.map (fun q => fetch (q url)) before
          = List.map (fun q => fetch' (q url)) before) as ->.
  { apply List.map_ext_in. intros q Hq. apply Hsame, in_or_app. left. exact Hq. }
  apply relay_state.
  - rewrite Forall_forall in Hbefore |- *. intros q Hq b.
    rewrite <- (Hsame q) by (apply in_or_app; left; apply list_elem_of_In, Hq).
    apply Hbefore, Hq.
  - rewrite <- (Hsame p) by (apply in_or_app; right; left; reflexivity). exact Hp.
Qed.

(** The first relay is unreachable and the second serves a page: the state
    of the loop is the same when a third relay follows that serves another
    page, and when none follows. *)
Lemma accepted_relay_ends_the_loop_witness :
  tryProxies (relays unreachable (page twicePage) (page refusal)) PROXY_PROVIDERS
    "https://site.com/x" (mkRelay "" "" None)
  = mkRelay twicePage "https://api.codetabs.com/v1/proxy?quest=https%3A%2F%2Fsite.com%2Fx"
      (Some (Err "Failed to fetch"))
  /\ tryProxies (relays unreachable (page twicePage) (page (imagePage "/x.png")))
       [fun url => "https://corsproxy.io/?" +:+ encodeURIComponent url;
        fun url => "https://api.codetabs.com/v1/proxy?quest=" +:+ encodeURIComponent url]
       "https://site.com/x" (mkRelay "" "" None)
     = tryProxies (relays unreachable (page twicePage) (page refusal)) PROXY_PROVIDERS
         "https://site.com/x" (mkRelay "" "" None).
Proof.
  pose proof (accepted_relay_ends_the_loop
                (relays unreachable (page twicePage) (page refusal))
                [fun url => "https://corsproxy.io/?" +:+ encodeURIComponent url]
                [fun url => "https://api.allorigins.win/raw?url=" +:+ encodeURIComponent url]
                (fun url => "https://api.codetabs.com/v1/proxy?quest=" +:+ encodeURIComponent url)
                "https://site.com/x" twicePage (mkRelay "" "" None)) as H.
  destruct H as [H1 H2].
  - constructor; [|constructor]. intros b (r & Hr & _). vm_compute in Hr. discriminate.
  - eexists. split; [vm_compute; reflexivity|]. repeat split. vm_compute. lia.
  - split; [exact H1|].
    apply (H2 (relays unreachable (page twicePage) (page (imagePage "/x.png"))) []).
    intros q [<-|[<-|[]]]; vm_compute; reflexivity.
Defined.

(** ** The request URLs *)

Lemma encoded_unit_chars (c : ascii) :
  Js.forallb component_char
    (Whatwg.utf8_percent_encode (fun c => negb (uri_unreserved c)) c) = true.
Proof.
  assert (List.forallb
            (fun c => Js.forallb component_char
                        (Whatwg.utf8_percent_encode (fun c => negb (uri_unreserved c)) c))
            all_ascii = true) as H by (vm_compute; reflexivity).
  rewrite List.forallb_forall in H. apply H, In_all_ascii.
Qed.

(** The page URL reaches the local service and the relays as one URI
    component: the request URL is the fixed prefix of the service followed
    by the encoded page URL, which holds only ASCII letters, digits, the
    marks [-_.!~*'()] and percent signs, so that no [?], [&], [#], [/] or
    space of the page URL is read as part of the request. *)
Theorem page_url_is_sent_as_one_component (url : string) :
  Js.forallb component_char (encodeURIComponent url) = true
  /\ List.map (fun p => p url) ((fun u => LOCAL_SERVER +:+ encodeURIComponent u)
                                :: PROXY_PROVIDERS)
     = List.map (fun prefix => prefix +:+ encodeURIComponent url)
         ["http://localhost:3001/scrape?url="; "https://corsproxy.io/?";
          "https://api.codetabs.com/v1/proxy?quest="; "https://api.allorigins.win/raw?url="].
Proof.
  split; [|reflexivity]. unfold encodeURIComponent.
  induction url as [|c url IH]; [reflexivity|]. cbn [Whatwg.percent_encode_string].
  rewrite forallb_app, encoded_unit_chars, IH. reflexivity.
Qed.

(** ** Lines with the same URL *)

Lemma lookup_map {A B : Type} (f : A -> B) (l : list A) (i : nat) :
  List.map f l !! i = f <$> l !! i.
Proof.
  revert i; induction l as [|a l IH]; intros [|i]; try reflexivity. apply IH.
Qed.

(** Two lines with the same URL show the same status at every moment:
    each result rewrites every row of its URL, so both rows show the result
    of the scrape of that URL that completed last. *)
Theorem equal_lines_show_equal_status
    (completion : list ScrapedData) (urls : list string) (i j : nat) (u : string) :
  urls !! i = Some u ->
  urls !! j = Some u ->
  settle completion urls !! i = settle completion urls !! j
  /\ settle completion urls !! i
     = Some (lastStatus completion (mkProcessingStatus u loading None) u).
Proof.
  intros Hi Hj. unfold settle, loadingRows. rewrite settle_rows by reflexivity.
  rewrite !lookup_map, Hi, Hj. split; reflexivity.
Qed.

(** The same line twice, its first scrape succeeding and its second scrape
    failing later. *)
Lemma equal_lines_show_equal_status_witness :
  settle [scraped "https://site.com/x"; unreached "https://site.com/x"]
    ["https://site.com/x"; "https://site.com/x"] !! 0
  = settle [scraped "https://site.com/x"; unreached "https://site.com/x"]
      ["https://site.com/x"; "https://site.com/x"] !! 1
  /\ settle [scraped "https://site.com/x"; unreached "https://site.com/x"]
       ["https://site.com/x"; "https://site.com/x"] !! 0
     = Some (lastStatus [scraped "https://site.com/x"; unreached "https://site.com/x"]
               (mkProcessingStatus "https://site.com/x" loading None) "https://site.com/x").
Proof.
  apply (equal_lines_show_equal_status
           [scraped "https://site.com/x"; unreached "https://site.com/x"]
           ["https://site.com/x"; "https://site.com/x"] 0 1 "https://site.com/x");
    reflexivity.
Defined.

(** ** Where the candidates come from *)

Lemma upper_is_lower (x c : ascii) :
  List.forallb (fun c => Bool.eqb (Ascii.eqb (Js.to_upper c) (Js.to_upper x))
                           (Ascii.eqb x (Js.to_lower c))) all_ascii = true ->
  Ascii.eqb (Js.to_upper c) (Js.to_upper x) = Ascii.eqb x (Js.to_lower c).
Proof.
  intros H. rewrite List.forallb_forall in H. specialize (H c (In_all_ascii c)).
  apply Bool.eqb_prop in H. exact H.
Qed.

Lemma dot_is_lower (c : ascii) : Ascii.eqb "." c = Ascii.eqb "." (Js.to_lower c).
Proof.
  assert (List.forallb (fun c => Bool.eqb (Ascii.eqb "." c) (Ascii.eqb "." (Js.to_lower c)))
            all_ascii = true) as H by (vm_compute; reflexivity).
  rewrite List.forallb_forall in H. specialize (H c (In_all_ascii c)).
  apply Bool.eqb_prop in H. exact H.
Qed.

(** The pattern of the attribute pass matches at the head of [s] exactly
    when [s] begins with one of the three extensions. *)
Lemma match_at_extension (i : nat) (s : string) :
  match Regex.match_at Patterns.image_extension i s with Some _ => true | None => false end
  = extension_at s.
Proof.
  unfold Regex.match_at, Patterns.image_extension, extension_at.
  destruct s as [|c0 [|c1 [|c2 [|c3 [|c4 s]]]]];
    cbn -[Ascii.eqb Js.to_upper Js.to_lower];
    rewrite ?(dot_is_lower c0), ?upper_is_lower by (vm_compute; reflexivity).
  all: repeat (match goal with
               | |- context [Ascii.eqb ?a (Js.to_lower ?b)] =>
                   destruct (Ascii.eqb a (Js.to_lower b))
               end; cbn -[Ascii.eqb Js.to_upper Js.to_lower]).
  all: try reflexivity.
  all: destruct s; reflexivity.
Qed.

Lemma includes_cons (c : ascii) (s t : string) :
  Js.includes (String c s) t = Js.startsWith (String c s) t || Js.includes s t.
Proof. reflexivity. Qed.

(** [val.match(/\.(jpg|png|webp)/i)] finds something exactly when [val]
    contains one of the three extensions, in any letter case. *)
Lemma test_extension (val : string) :
  Regex.test Patterns.image_extension val
  = includes_i val ".jpg" || includes_i val ".png" || includes_i val ".webp".
Proof.
  unfold Regex.test, includes_i. generalize 0. induction val as [|c val IH]; intros i.
  - reflexivity.
  - cbn [Regex.search]. pose proof (match_at_extension i (String c val)) as Hm.
    cbn [Js.map]. rewrite !includes_cons.
    change (String (Js.to_lower c) (Js.map Js.to_lower val))
      with (Js.map Js.to_lower (String c val)).
    unfold extension_at in Hm.
    destruct (Regex.match_at Patterns.image_extension i (String c val)) as [[j cap]|].
    + symmetry in Hm. apply orb_true_iff in Hm as [Hm|Hm];
        [apply orb_true_iff in Hm as [Hm|Hm]|]; rewrite Hm;
        repeat rewrite ?orb_true_r, ?orb_true_l; reflexivity.
    + symmetry in Hm. apply orb_false_iff in Hm as [Hm H3].
      apply orb_false_iff in Hm as [H1 H2]. rewrite H1, H2, H3. cbn [orb]. apply IH.
Qed.

(** What [search] finds is the group of a match at some place of the
    input. *)
Lemma search_matches (r : Regex.re) (g : option string) (s : string) :
  forall i,
    Regex.search r i s = Some g ->
    exists before rest j cap,
      s = before +:+ rest
      /\ Regex.match_at r (i + String.length before) rest = Some (j, cap)
      /\ g = Regex.group_text (i + String.length before) rest cap.
Proof.
  induction s as [|c s IH]; intros i H; cbn [Regex.search] in H.
  - destruct (Regex.match_at r i "") as [[j cap]|] eqn:Em; [|discriminate].
    injection H as <-. exists "", "", j, cap. cbn [String.length]. rewrite Nat.add_0_r. auto.
  - destruct (Regex.match_at r i (String c s)) as [[j cap]|] eqn:Em.
    + injection H as <-. exists "", (String c s), j, cap. cbn [String.length].
      rewrite Nat.add_0_r. auto.
    + apply IH in H as (before & rest & j & cap & -> & Hm & Hg).
      exists (String c before), rest, j, cap. cbn [String.length].
      replace (i + S (String.length before)) with (S i + String.length before) by lia.
      auto.
Qed.

Lemma lang_chr (c : ascii) (w : string) : lang (Regex.chr c) w -> w = String c "".
Proof. cbn. intros (x & -> & Hx). apply Ascii.eqb_eq in Hx. subst x. reflexivity. Qed.

Lemma lang_optional_quote (w : string) :
  lang (Regex.Opt (Regex.Cls Patterns.quote)) w -> optional_quote w.
Proof.
  cbn. unfold optional_quote, Patterns.quote. intros [(x & -> & Hx)| ->]; [|auto].
  apply orb_true_iff in Hx as [Hx|Hx]; apply Ascii.eqb_eq in Hx; subst x; auto.
Qed.

(** The URL that the pattern of the style pass captures stands in the
    style between [url(] and [)], with or without quotes. *)
Lemma style_url_capture (style c : string) :
  Regex.search Patterns.style_url 0 style = Some (Some c) ->
  exists before q q' after,
    style = before +:+ "url(" +:+ q +:+ c +:+ q' +:+ ")" +:+ after
    /\ optional_quote q /\ optional_quote q'
    /\ Js.existsb Js.is_line_terminator c = false.
Proof.
  intros H. apply search_matches in H as (before & rest & j & cap & -> & Hm & Hg).
  unfold Regex.match_at, Patterns.style_url in Hm. cbn [Patterns.seq] in Hm.
  rewrite run_seq in Hm. apply run_sound in Hm as (w1 & t1 & c1 & -> & H1 & Hc1 & Hm).
  rewrite (Hc1 eq_refl) in Hm. clear c1 Hc1.
  rewrite run_seq in Hm. apply run_sound in Hm as (w2 & t2 & c2 & -> & H2 & Hc2 & Hm).
  rewrite (Hc2 eq_refl) in Hm. clear c2 Hc2.
  rewrite run_seq in Hm. apply run_sound in Hm as (w3 & t3 & c3 & -> & H3 & Hc3 & Hm).
  rewrite (Hc3 eq_refl) in Hm. clear c3 Hc3.
  rewrite run_seq in Hm. apply run_group_sound in Hm as (w & t & -> & Hw & Hm).
  rewrite run_seq in Hm. apply run_sound in Hm as (w5 & t5 & c5 & -> & H5 & Hc5 & Hm).
  rewrite (Hc5 eq_refl) in Hm. clear c5 Hc5.
  apply run_sound in Hm as (w6 & t6 & c6 & -> & H6 & Hc6 & [= <- <-]).
  rewrite (Hc6 eq_refl) in Hg. clear c6 Hc6.
  assert (Regex.group_text (0 + String.length before)
            ((w1 +:+ w2 +:+ w3) +:+ w +:+ (w5 +:+ w6 +:+ t6))
            (Some (0 + String.length before + String.length w1 + String.length w2
                   + String.length w3,
                   0 + String.length before + String.length w1 + String.length w2
                   + String.length w3 + String.length w)) = Some w) as Hgroup.
  { apply group_text_at. rewrite !app_length. lia. }
  rewrite !app_assoc in Hgroup. rewrite Hgroup in Hg. injection Hg as ->.
  assert (w1 = "url") as ->.
  { change (lang (Regex.Seq (Regex.chr "u") (Regex.Seq (Regex.chr "r") (Regex.chr "l"))) w1)
      in H1.
    cbn [lang] in H1. destruct H1 as (a & b & -> & Ha & (a' & b' & -> & Ha' & Hb')).
    apply lang_chr in Ha, Ha', Hb'. subst. reflexivity. }
  apply lang_chr in H2, H6. subst w2 w6.
  apply lang_optional_quote in H3, H5.
  exists before, w3, w5, t6. split; [reflexivity|]. split; [exact H3|]. split; [exact H5|].
  cbn [lang] in Hw. clear -Hw. induction w as [|x w IH]; [reflexivity|].
  cbn in Hw |- *. apply andb_true_iff in Hw as [Hx Hw]. rewrite (IH Hw).
  destruct (Js.is_line_terminator x); [discriminate|reflexivity].
Qed.

(** The attribute pass and the provenance of every candidate.  For each
    [img], [a] or [div] element of the parsed page, the value of [src],
    [href], [data-src], [data-url], [data-original] or
    [data-large-img-url] is a candidate when it is not empty and contains
    [.jpg], [.png] or [.webp] in any letter case, or [images.prop24].  And
    every candidate is of one of three kinds: a piece of the raw HTML that
    begins with [http] in any letter case; such a value of one of the six
    attributes; or the text that stands between [url(] and [)], quoted or
    not and without a line break, in the inline style of such an
    element. *)
Theorem candidates_come_from_the_page
    (parseFromString : string -> Dom.Document) (html_ : string) :
  (forall el attr val,
      In el (Dom.querySelectorAll (Dom.has_tag ["img"; "a"; "div"])
               (Dom.documentElement (parseFromString html_))) ->
      In attr ["src"; "href"; "data-src"; "data-url"; "data-original"; "data-large-img-url"] ->
      Dom.getAttribute el attr = Some val ->
      val <> EmptyString ->
      looks_like_picture val = true ->
      In val (collectCandidates parseFromString html_))
  /\ (forall c,
        In c (collectCandidates parseFromString html_) ->
        (part_of c html_ /\ begins_http c = true)
        \/ exists el,
             In el (Dom.querySelectorAll (Dom.has_tag ["img"; "a"; "div"])
                      (Dom.documentElement (parseFromString html_)))
             /\ ((exists attr,
                     In attr ["src"; "href"; "data-src"; "data-url"; "data-original";
                              "data-large-img-url"]
                     /\ Dom.getAttribute el attr = Some c
                     /\ c <> EmptyString
                     /\ looks_like_picture c = true)
                 \/ (exists style before q q' after,
                       Dom.getAttribute el "style" = Some style
                       /\ style = before +:+ "url(" +:+ q +:+ c +:+ q' +:+ ")" +:+ after
                       /\ optional_quote q /\ optional_quote q'
                       /\ Js.existsb Js.is_line_terminator c = false))).
Proof.
  split.
  - intros el attr val Hel Hattr Hval Hne Hlooks. apply In_collectCandidates.
    right. right. exists el. split; [exact Hel|]. left. exists attr.
    split; [exact Hattr|]. split; [exact Hval|].
    split; [destruct val; [contradiction|reflexivity]|].
    rewrite test_extension. exact Hlooks.
  - intros c Hc. apply In_collectCandidates in Hc as [Hc|[Hc|(el & Hel & Hc)]].
    + left. apply regex_entries in Hc as (c' & [= <-] & Hpart & Hhttp & _). auto.
    + left. apply cssRegex_entries in Hc as (c' & [= <-] & Hpart & Hhttp & _). auto.
    + right. exists el. split; [exact Hel|].
      destruct Hc as [(attr & Hattr & Hval & Ht & Hm)|(style & Hs & _ & _ & Hm)].
      * left. exists attr. split; [exact Hattr|]. split; [exact Hval|].
        split; [intros ->; discriminate|]. rewrite test_extension in Hm. exact Hm.
      * right. apply style_url_capture in Hm as (before & q & q' & after & H).
        exists style, before, q, q', after. split; [exact Hs|exact H].
Qed.

(** A page with one picture whose address is relative and whose extension
    is in capitals. *)
Lemma candidates_come_from_the_page_witness :
  In "/img/front.PNG"
     (collectCandidates (parseImagePage "/img/front.PNG") (imagePage "/img/front.PNG")).
Proof.
  apply (proj1 (candidates_come_from_the_page (parseImagePage "/img/front.PNG")
                  (imagePage "/img/front.PNG"))
           (Dom.Element "img" [("src", "/img/front.PNG")] []) "src" "/img/front.PNG").
  - vm_compute. left. reflexivity.
  - left. reflexivity.
  - reflexivity.
  - discriminate.
  - vm_compute. reflexivity.
Defined.
